(** * nuclei-distributed: scan orchestration and status aggregation

    A shallow embedding of the Go packages [orchestrator] (optimizer and
    orchestrator), [types] and [api] (handlers and websocket manager),
    with the properties of the distribution planner, the status store and
    the event fanout.

    Conventions of the embedding:
    - Go [int] is a 64-bit two's complement integer: a [Z] with the
      wrap-around of every addition, subtraction and division written out
      ([Int.wrap]); [/] and [%] truncate towards zero ([Z.quot], [Z.rem]).
    - A run-time panic (integer division by zero, slice bounds out of
      range, [make] with a negative length, closing a nil or closed
      channel, sending on a closed channel) is the [None] of the [option]
      monad.
    - [float64] is the kernel's IEEE 754 binary64 type ([PrimFloat.float]),
      with its correctly rounded operations.
    - A function that holds the mutex for its whole body is one atomic
      step on the state it guards.
    - Maps are [gmap]s, the set of connections of a scan is a [gset].
    - [log.Printf] only writes to the process log and is left out. *)

From Stdlib Require Import ZArith Floats.
From stdpp Require Import gmap strings list pretty.

#[local] Open Scope Z_scope.

(** ** Go's [int] *)

Module Int.

Definition min_int : Z := - 2 ^ 63.
Definition max_int : Z := 2 ^ 63 - 1.

(** Reduction of a mathematical integer to the 64-bit signed range. *)
Definition wrap (z : Z) : Z := (z + 2 ^ 63) `mod` 2 ^ 64 - 2 ^ 63.

Definition add (a b : Z) : Z := wrap (a + b).
Definition sub (a b : Z) : Z := wrap (a - b).

(** [a / b]: panics when [b] is zero, truncates towards zero. *)
Definition div (a b : Z) : option Z :=
  if b =? 0 then None else Some (wrap (a `quot` b)).

(** [a % b]: panics when [b] is zero, has the sign of [a]. *)
Definition rem (a b : Z) : option Z :=
  if b =? 0 then None else Some (a `rem` b).

Definition in_range (z : Z) : Prop := min_int ≤ z ≤ max_int.

End Int.

(** [len(s)] as an [int]. *)
Definition len {A} (s : list A) : Z := Z.of_nat (length s).

(** [s[lo:hi]]: panics unless [0 <= lo <= hi <= len(s)] (the bound Go
    checks is [cap(s)], which is at least [len(s)]; [createChunks] clamps
    [hi] to [len(s)] itself). *)
Definition slice {A} (s : list A) (lo hi : Z) : option (list A) :=
  if bool_decide (0 ≤ lo ∧ lo ≤ hi ∧ hi ≤ len s)
  then Some (take (Z.to_nat (hi - lo)) (drop (Z.to_nat lo) s))
  else None.

(** ** Distribution planner (package orchestrator, optimizer) *)

Record ScanOptimizer := {
  MaxDomainsPerDroplet : Z;
  MinDomainsPerDroplet : Z;
  MaxDroplets : Z;
  MinDroplets : Z
}.

Definition NewScanOptimizer : ScanOptimizer := {|
  MaxDomainsPerDroplet := 500;
  MinDomainsPerDroplet := 50;
  MaxDroplets := 5;
  MinDroplets := 1
|}.

Definition calculateOptimalDroplets (so : ScanOptimizer)
    (totalDomains requestedDroplets : Z) : option Z :=
  let optimalDroplets := requestedDroplets in
  let optimalDroplets :=
    if MaxDroplets so <? optimalDroplets then MaxDroplets so else optimalDroplets in
  let optimalDroplets :=
    if optimalDroplets <? MinDroplets so then MinDroplets so else optimalDroplets in
  domainsPerDroplet ← Int.div totalDomains optimalDroplets;
  optimalDroplets ←
    (if MaxDomainsPerDroplet so <? domainsPerDroplet then
       optimalDroplets ←
         Int.div (Int.sub (Int.add totalDomains (MaxDomainsPerDroplet so)) 1)
                 (MaxDomainsPerDroplet so);
       Some (if MaxDroplets so <? optimalDroplets then MaxDroplets so
             else optimalDroplets)
     else Some optimalDroplets);
  if MinDomainsPerDroplet so <? totalDomains then
    domainsPerDroplet ← Int.div totalDomains optimalDroplets;
    if domainsPerDroplet <? MinDomainsPerDroplet so then
      optimalDroplets ← Int.div totalDomains (MinDomainsPerDroplet so);
      Some (if optimalDroplets <? MinDroplets so then MinDroplets so
            else optimalDroplets)
    else Some optimalDroplets
  else Some optimalDroplets.

(** The [for i := 0; i < numDroplets; i++] loop of [createChunks], with
    [k] iterations left, loop counter [i] and running offset [start];
    the result lists [chunks[i]], [chunks[i+1]], ... *)
Fixpoint createChunks_loop (domains : list string)
    (totalDomains baseChunkSize extraDomains : Z)
    (k : nat) (i start : Z) : option (list (list string)) :=
  match k with
  | O => Some []
  | S k =>
      let chunkSize := baseChunkSize in
      let chunkSize := if i <? extraDomains then Int.add chunkSize 1 else chunkSize in
      let end_ := Int.add start chunkSize in
      let end_ := if totalDomains <? end_ then totalDomains else end_ in
      chunk ← slice domains start end_;
      rest ← createChunks_loop domains totalDomains baseChunkSize extraDomains
                k (Int.add i 1) end_;
      Some (chunk :: rest)
  end.

Definition createChunks (so : ScanOptimizer) (domains : list string)
    (numDroplets : Z) : option (list (list string)) :=
  let totalDomains := len domains in
  baseChunkSize ← Int.div totalDomains numDroplets;
  extraDomains ← Int.rem totalDomains numDroplets;
  (* make([][]string, numDroplets) *)
  if numDroplets <? 0 then None else
  createChunks_loop domains totalDomains baseChunkSize extraDomains
    (Z.to_nat numDroplets) 0 0.

Definition OptimizeDistribution (so : ScanOptimizer) (domains : list string)
    (requestedDroplets : Z) : option (Z * list (list string)) :=
  let totalDomains := len domains in
  if totalDomains =? 0 then Some (0, []) else
  optimalDroplets ← calculateOptimalDroplets so totalDomains requestedDroplets;
  chunks ← createChunks so domains optimalDroplets;
  Some (optimalDroplets, chunks).

(** ** Go's [float64] *)

Module F64.

(** [float64(n)] for an [int] [n]: the nearest binary64 number, ties to
    even. *)
Definition of_int (n : Z) : float :=
  SF2Prim (binary_normalize prec emax n 0 false).

(** [int(x)]: the fraction is discarded; for a value outside the range
    of [int] (or a NaN) Go leaves the result to the implementation, and
    the amd64 result, the least [int], is taken. *)
Definition to_int (x : float) : Z :=
  match Prim2SF x with
  | S754_zero _ => 0
  | S754_finite s m e =>
      let mag := if 0 <=? e then Z.pos m * 2 ^ e else Z.pos m `div` 2 ^ (- e) in
      let v := if s then - mag else mag in
      if bool_decide (Int.min_int ≤ v ≤ Int.max_int) then v else Int.min_int
  | _ => Int.min_int
  end.

End F64.

(** ** Package types *)

(** [time.Time], an instant of the wall clock. *)
Definition Time := Z.

Module Log.
Record t := {
  Timestamp : Time;
  Message : string;
  Type_ : string;
  WorkerID : string
}.
End Log.

Module ScanRequest.
Record t := {
  ID : string;
  Domains : list string;
  Droplets : Z;
  Status : string
}.
End ScanRequest.

Module WorkerStatus.
Record t := {
  ID : string;
  IP : string;
  Progress : float;
  CurrentDomain : string;
  DomainsScanned : Z;
  TotalDomains : Z;
  Logs : list Log.t;
  CreatedAt : Time;
  Status : string
}.
End WorkerStatus.

Module ScanResult.
Record t := {
  Host : string;
  Template : string;
  Severity : string;
  Match : string;
  Timestamp : Time;
  WorkerID : string
}.
End ScanResult.

Module ScanStatus.
Record t := {
  ID : string;
  Progress : float;
  (* []*WorkerStatus: the workers are reached only through this slice *)
  ActiveDroplets : list WorkerStatus.t;
  Results : list ScanResult.t;
  TotalDomains : Z;
  ScannedDomains : Z;
  Status : string
}.

Definition set_Progress (p : float) (s : t) : t :=
  {| ID := ID s; Progress := p; ActiveDroplets := ActiveDroplets s;
     Results := Results s; TotalDomains := TotalDomains s;
     ScannedDomains := ScannedDomains s; Status := Status s |}.

Definition set_ActiveDroplets (ws : list WorkerStatus.t) (s : t) : t :=
  {| ID := ID s; Progress := Progress s; ActiveDroplets := ws;
     Results := Results s; TotalDomains := TotalDomains s;
     ScannedDomains := ScannedDomains s; Status := Status s |}.

Definition set_Status (st : string) (s : t) : t :=
  {| ID := ID s; Progress := Progress s; ActiveDroplets := ActiveDroplets s;
     Results := Results s; TotalDomains := TotalDomains s;
     ScannedDomains := ScannedDomains s; Status := st |}.
End ScanStatus.

(** The [Data interface{}] of a message: a scan status (the value the
    pointer leads to when the message is published), a scan result or a
    string. *)
Inductive MessageData :=
  | StatusData (status : ScanStatus.t)
  | ResultData (result : ScanResult.t)
  | StringData (s : string).

Module WebSocketMessage.
Record t := {
  Type_ : string;
  Data : MessageData
}.
End WebSocketMessage.

(** ** Fleet provider (the DigitalOcean client used by the orchestrator) *)

Record Droplet := {
  droplet_ID : Z;
  droplet_Name : string
}.

(** The two calls [CleanupScan] makes, as transitions of the provider's
    state [Cloud]. [Droplets_ListByTag] is [None] when the call returns an
    error; the result of [Droplets_Delete] is ignored by its caller. *)
Class FleetProvider (Cloud : Type) := {
  Droplets_ListByTag : Cloud → string → option (list Droplet);
  Droplets_Delete : Cloud → Z → Cloud
}.

(** [strings.Contains(s, substr)]. *)
Fixpoint strings_Contains (s substr : string) : bool :=
  String.prefix substr s ||
  match s with
  | EmptyString => false
  | String _ s' => strings_Contains s' substr
  end.

(** [strings.TrimSpace] of Go's standard library. *)
Class StringsPkg := strings_TrimSpace : string → string.

(** ** Orchestrator (package orchestrator) *)

(** Go's [error]: [None] is [nil]. *)
Definition error := option string.

(** A provisioning task [createAndStartWorker(ctx, scanID, index, domains)]
    started with [go]. *)
Record WorkerTask := {
  task_scanID : string;
  task_index : Z;
  task_domains : list string
}.

Section orchestrator.
Context {Cloud : Type} `{!FleetProvider Cloud}.

Record Orchestrator := {
  doClient : Cloud;
  activeScans : gmap string ScanStatus.t;
  mainServerIP : string
}.

Definition set_activeScans (m : gmap string ScanStatus.t) (o : Orchestrator) :=
  {| doClient := doClient o; activeScans := m; mainServerIP := mainServerIP o |}.

Definition New (client : Cloud) (mainServerIP : string) : Orchestrator :=
  {| doClient := client; activeScans := ∅; mainServerIP := mainServerIP |}.

(** [uuid] is the value [uuid.New().String()] would give. The request is
    passed by pointer: the request returned carries the ID assigned here.
    The third component lists the tasks started with [go]. *)
Definition StartScan (o : Orchestrator) (req : ScanRequest.t) (uuid : string)
    : option (Orchestrator * ScanRequest.t * list WorkerTask * error) :=
  let req :=
    if decide (ScanRequest.ID req = "") then
      {| ScanRequest.ID := uuid; ScanRequest.Domains := ScanRequest.Domains req;
         ScanRequest.Droplets := ScanRequest.Droplets req;
         ScanRequest.Status := ScanRequest.Status req |}
    else req in
  let optimizer := NewScanOptimizer in
  '(numDroplets, chunks) ←
    OptimizeDistribution optimizer (ScanRequest.Domains req) (ScanRequest.Droplets req);
  let o :=
    set_activeScans
      (<[ScanRequest.ID req :=
           {| ScanStatus.ID := ScanRequest.ID req;
              ScanStatus.Progress := 0;
              ScanStatus.ActiveDroplets := [];
              ScanStatus.Results := [];
              ScanStatus.TotalDomains := len (ScanRequest.Domains req);
              ScanStatus.ScannedDomains := 0;
              ScanStatus.Status := "starting" |}]> (activeScans o)) o in
  let tasks :=
    imap (λ i chunk, {| task_scanID := ScanRequest.ID req;
                        task_index := Z.of_nat i;
                        task_domains := chunk |}) chunks in
  Some (o, req, tasks, None).

(** The critical section of [waitForWorker], entered once the droplet is
    active and has the address [ip]; [now] is [time.Now()]. *)
Definition waitForWorker_ready (o : Orchestrator) (scanID workerID ip : string)
    (totalDomains : Z) (now : Time) : Orchestrator :=
  match activeScans o !! scanID with
  | Some scan =>
      let worker :=
        {| WorkerStatus.ID := workerID; WorkerStatus.IP := ip;
           WorkerStatus.Progress := 0; WorkerStatus.CurrentDomain := "";
           WorkerStatus.DomainsScanned := 0;
           WorkerStatus.TotalDomains := totalDomains;
           WorkerStatus.Logs := []; WorkerStatus.CreatedAt := now;
           WorkerStatus.Status := "starting" |} in
      set_activeScans
        (<[scanID := ScanStatus.set_ActiveDroplets
                       (ScanStatus.ActiveDroplets scan ++ [worker]) scan]>
           (activeScans o)) o
  | None => o
  end.

(** [None] is the error "scan not found". *)
Definition GetScanStatus (o : Orchestrator) (scanID : string) : option ScanStatus.t :=
  activeScans o !! scanID.

(** The first loop of [UpdateWorkerProgress]: the first worker with the
    given ID is updated through its pointer, then the loop breaks. *)
Fixpoint UpdateWorkerProgress_worker (workers : list WorkerStatus.t)
    (workerID : string) (progress : float) (currentDomain : string)
    : list WorkerStatus.t :=
  match workers with
  | [] => []
  | worker :: rest =>
      if decide (WorkerStatus.ID worker = workerID) then
        {| WorkerStatus.ID := WorkerStatus.ID worker;
           WorkerStatus.IP := WorkerStatus.IP worker;
           WorkerStatus.Progress := progress;
           WorkerStatus.CurrentDomain := currentDomain;
           WorkerStatus.DomainsScanned :=
             F64.to_int
               (PrimFloat.div
                  (PrimFloat.mul (F64.of_int (WorkerStatus.TotalDomains worker)) progress)
                  100);
           WorkerStatus.TotalDomains := WorkerStatus.TotalDomains worker;
           WorkerStatus.Logs := WorkerStatus.Logs worker;
           WorkerStatus.CreatedAt := WorkerStatus.CreatedAt worker;
           WorkerStatus.Status := WorkerStatus.Status worker |} :: rest
      else worker :: UpdateWorkerProgress_worker rest workerID progress currentDomain
  end.

(** The second loop: [totalProgress += worker.Progress]. *)
Definition totalProgress (workers : list WorkerStatus.t) : float :=
  fold_left (λ total worker, PrimFloat.add total (WorkerStatus.Progress worker))
            workers 0%float.

Definition UpdateWorkerProgress (o : Orchestrator) (scanID workerID : string)
    (progress : float) (currentDomain : string) : Orchestrator :=
  match activeScans o !! scanID with
  | Some scan =>
      let workers :=
        UpdateWorkerProgress_worker (ScanStatus.ActiveDroplets scan)
          workerID progress currentDomain in
      let scan := ScanStatus.set_ActiveDroplets workers scan in
      let scan :=
        if 0 <? len workers then
          ScanStatus.set_Progress
            (PrimFloat.div (totalProgress workers) (F64.of_int (len workers))) scan
        else scan in
      set_activeScans (<[scanID := scan]> (activeScans o)) o
  | None => o
  end.

Definition AddResult (o : Orchestrator) (scanID : string) (result : ScanResult.t)
    : Orchestrator :=
  match activeScans o !! scanID with
  | Some scan =>
      set_activeScans
        (<[scanID :=
             {| ScanStatus.ID := ScanStatus.ID scan;
                ScanStatus.Progress := ScanStatus.Progress scan;
                ScanStatus.ActiveDroplets := ScanStatus.ActiveDroplets scan;
                ScanStatus.Results := ScanStatus.Results scan ++ [result];
                ScanStatus.TotalDomains := ScanStatus.TotalDomains scan;
                ScanStatus.ScannedDomains := Int.add (ScanStatus.ScannedDomains scan) 1;
                ScanStatus.Status := ScanStatus.Status scan |}]> (activeScans o)) o
  | None => o
  end.

(** The body of the loop over the workers in [CleanupScan]: the droplets
    tagged with the scan are listed, and those whose name contains the
    worker's ID are deleted. *)
Definition CleanupScan_worker (scanID : string) (client : Cloud)
    (worker : WorkerStatus.t) : Cloud :=
  match Droplets_ListByTag client scanID with
  | Some droplets =>
      fold_left
        (λ client droplet,
           if strings_Contains (droplet_Name droplet) (WorkerStatus.ID worker)
           then Droplets_Delete client (droplet_ID droplet)
           else client)
        droplets client
  | None => client
  end.

Definition CleanupScan (o : Orchestrator) (scanID : string) : Orchestrator * error :=
  match activeScans o !! scanID with
  | Some scan =>
      let client :=
        fold_left (CleanupScan_worker scanID) (ScanStatus.ActiveDroplets scan)
                  (doClient o) in
      ({| doClient := client;
          activeScans := delete scanID (activeScans o);
          mainServerIP := mainServerIP o |}, None)
  | None => (o, None)
  end.

End orchestrator.

Arguments Orchestrator : clear implicits.

(** ** Event fanout (package api, websocket manager) *)

(** A [*websocket.Conn], compared by address. *)
Definition Conn := nat.

(** A [chan types.WebSocketMessage] of capacity 100: the messages buffered
    (oldest first) and whether the channel was closed. *)
Record Chan := {
  chan_buf : list WebSocketMessage.t;
  chan_closed : bool
}.

Definition chan_cap : Z := 100.

(** Channels are heap objects: [broadcast] maps a scan to the address of
    its channel in [chans], where the channel stays (closed) after the map
    entry is deleted, as the goroutine [handleBroadcast] still holds it.
    [broadcast] giving no address, or an address without channel, is the
    nil channel. *)
Record WebSocketManager := {
  clients : gmap string (gset Conn);
  broadcast : gmap string nat;
  chans : gmap nat Chan;
  next_chan : nat
}.

Definition NewWebSocketManager : WebSocketManager :=
  {| clients := ∅; broadcast := ∅; chans := ∅; next_chan := 0 |}.

(** The queue of a scan, when it has one. *)
Definition scan_chan (wsm : WebSocketManager) (scanID : string) : option Chan :=
  a ← broadcast wsm !! scanID; chans wsm !! a.

(** On the first connection of a scan the channel is made and the
    goroutine [handleBroadcast(scanID)] is started on it. *)
Definition RegisterClient (wsm : WebSocketManager) (scanID : string) (conn : Conn)
    : WebSocketManager :=
  let wsm :=
    match clients wsm !! scanID with
    | None =>
        {| clients := <[scanID := ∅]> (clients wsm);
           broadcast := <[scanID := next_chan wsm]> (broadcast wsm);
           chans := <[next_chan wsm := {| chan_buf := []; chan_closed := false |}]>
                      (chans wsm);
           next_chan := S (next_chan wsm) |}
    | Some _ => wsm
    end in
  {| clients := alter (λ conns, {[conn]} ∪ conns) scanID (clients wsm);
     broadcast := broadcast wsm; chans := chans wsm; next_chan := next_chan wsm |}.

(** [close(ch)]: panics on the nil channel and on a closed channel. *)
Definition close (chans : gmap nat Chan) (a : option nat) : option (gmap nat Chan) :=
  a ← a;
  ch ← chans !! a;
  if chan_closed ch then None
  else Some (<[a := {| chan_buf := chan_buf ch; chan_closed := true |}]> chans).

Definition UnregisterClient (wsm : WebSocketManager) (scanID : string) (conn : Conn)
    : option WebSocketManager :=
  match clients wsm !! scanID with
  | Some conns =>
      if decide (conn ∈ conns) then
        let conns := conns ∖ {[conn]} in
        if decide (size conns = 0%nat) then
          chans' ← close (chans wsm) (broadcast wsm !! scanID);
          Some {| clients := delete scanID (clients wsm);
                  broadcast := delete scanID (broadcast wsm);
                  chans := chans'; next_chan := next_chan wsm |}
        else
          Some {| clients := <[scanID := conns]> (clients wsm);
                  broadcast := broadcast wsm; chans := chans wsm;
                  next_chan := next_chan wsm |}
      else Some wsm
  | None => Some wsm
  end.

(** The [select] with a [default] case: the message is queued when the
    buffer has room and dropped otherwise (also on the nil channel);
    sending on a closed channel panics. *)
Definition BroadcastToScan (wsm : WebSocketManager) (scanID : string)
    (message : WebSocketMessage.t) : option WebSocketManager :=
  match broadcast wsm !! scanID with
  | Some a =>
      match chans wsm !! a with
      | Some ch =>
          if chan_closed ch then None
          else if len (chan_buf ch) <? chan_cap then
            Some {| clients := clients wsm; broadcast := broadcast wsm;
                    chans := <[a := {| chan_buf := chan_buf ch ++ [message];
                                       chan_closed := false |}]> (chans wsm);
                    next_chan := next_chan wsm |}
          else Some wsm
      | None => Some wsm
      end
  | None => Some wsm
  end.

(** The receive of the [range] loop of [handleBroadcast] on the channel at
    [a]: the oldest message is taken from the buffer. On an empty buffer
    there is no step: the goroutine waits, or leaves the loop when the
    channel is closed. *)
Definition chan_receive (wsm : WebSocketManager) (a : nat)
    : option (WebSocketMessage.t * WebSocketManager) :=
  ch ← chans wsm !! a;
  match chan_buf ch with
  | message :: rest =>
      Some (message,
            {| clients := clients wsm; broadcast := broadcast wsm;
               chans := <[a := {| chan_buf := rest; chan_closed := chan_closed ch |}]>
                          (chans wsm);
               next_chan := next_chan wsm |})
  | [] => None
  end.

(** One turn of the loop of [handleBroadcast(scanID)] on the channel at
    [a]: the message received is written to the clients the scan has at
    that time ([elements] fixes an order where Go ranges over the map in
    an unspecified one). [write_ok conn] tells whether [conn.WriteJSON]
    succeeds; a connection it fails on is closed and unregistered. The
    result lists the writes that succeeded. *)
Definition handleBroadcast_step (write_ok : Conn → bool) (wsm : WebSocketManager)
    (scanID : string) (a : nat)
    : option (WebSocketManager * list (Conn * WebSocketMessage.t)) :=
  '(message, wsm) ← chan_receive wsm a;
  let conns := default ∅ (clients wsm !! scanID) in
  foldl
    (λ acc conn,
       '(wsm, sent) ← acc;
       if write_ok conn then Some (wsm, sent ++ [(conn, message)])
       else wsm ← UnregisterClient wsm scanID conn; Some (wsm, sent))
    (Some (wsm, [])) (elements conns).

(** ** HTTP handlers (package api) *)

Inductive JSONValue :=
  | JString (s : string)
  | JInt (n : Z).

(** What a handler writes with [c.JSON]: a [gin.H] object or a scan status. *)
Inductive Response :=
  | JSON (code : Z) (obj : list (string * JSONValue))
  | JSONStatus (code : Z) (status : ScanStatus.t).

Section handlers.
Context {Cloud : Type} `{!FleetProvider Cloud} `{!StringsPkg}.

Record Handler := {
  orchestrator : Orchestrator Cloud;
  wsManager : WebSocketManager
}.

Definition NewHandler (orch : Orchestrator Cloud) : Handler :=
  {| orchestrator := orch; wsManager := NewWebSocketManager |}.

(** The loop that trims the domains and keeps the non-empty ones. *)
Fixpoint cleanDomains (domains : list string) : list string :=
  match domains with
  | [] => []
  | domain :: rest =>
      let domain := strings_TrimSpace domain in
      if decide (domain ≠ "") then domain :: cleanDomains rest
      else cleanDomains rest
  end.

(** [bound] is the outcome of [c.BindJSON(&req)]: an error or the
    request. [uuid] and [uuid'] are the identifiers [uuid.New()] gives to
    the handler and to the orchestrator. The result lists the
    provisioning tasks started. *)
Definition Handler_StartScan (h : Handler) (bound : string + ScanRequest.t)
    (uuid uuid' : string) : option (Handler * Response * list WorkerTask) :=
  match bound with
  | inl err => Some (h, JSON 400 [("error", JString err)], [])
  | inr req =>
      if len (ScanRequest.Domains req) =? 0 then
        Some (h, JSON 400 [("error", JString "No domains provided")], [])
      else
        let cleanDomains := cleanDomains (ScanRequest.Domains req) in
        if len cleanDomains =? 0 then
          Some (h, JSON 400 [("error", JString "No valid domains provided")], [])
        else
          let req :=
            {| ScanRequest.ID := uuid; ScanRequest.Domains := cleanDomains;
               ScanRequest.Droplets := ScanRequest.Droplets req;
               ScanRequest.Status := ScanRequest.Status req |} in
          '(orch, req, tasks, err) ← StartScan (orchestrator h) req uuid';
          let h := {| orchestrator := orch; wsManager := wsManager h |} in
          match err with
          | Some e => Some (h, JSON 500 [("error", JString e)], tasks)
          | None =>
              Some (h,
                    JSON 200 [("scan_id", JString (ScanRequest.ID req));
                              ("message", JString "Scan started successfully");
                              ("domains_count", JInt (len (ScanRequest.Domains req)))],
                    tasks)
          end
  end.

Definition Handler_GetScanStatus (h : Handler) (scanID : string) : Response :=
  match GetScanStatus (orchestrator h) scanID with
  | None => JSON 404 [("error", JString "Scan not found")]
  | Some status => JSONStatus 200 status
  end.

(** [bound] is the outcome of [c.BindJSON(&result)], [now] is [time.Now()]. *)
Definition ReceiveResults (h : Handler) (scanID workerID : string)
    (bound : string + ScanResult.t) (now : Time) : option (Handler * Response) :=
  match bound with
  | inl err => Some (h, JSON 400 [("error", JString err)])
  | inr result =>
      let result :=
        {| ScanResult.Host := ScanResult.Host result;
           ScanResult.Template := ScanResult.Template result;
           ScanResult.Severity := ScanResult.Severity result;
           ScanResult.Match := ScanResult.Match result;
           ScanResult.Timestamp := now;
           ScanResult.WorkerID := workerID |} in
      let orch := AddResult (orchestrator h) scanID result in
      let message :=
        {| WebSocketMessage.Type_ := "new_result";
           WebSocketMessage.Data := ResultData result |} in
      wsm ← BroadcastToScan (wsManager h) scanID message;
      Some ({| orchestrator := orch; wsManager := wsm |},
            JSON 200 [("status", JString "received")])
  end.

(** The heartbeat body: progress, current domain and message. *)
Record Heartbeat := {
  hb_Progress : float;
  hb_CurrentDomain : string;
  hb_Message : string
}.

Definition WorkerHeartbeat (h : Handler) (scanID workerID : string)
    (bound : string + Heartbeat) : option (Handler * Response) :=
  match bound with
  | inl err => Some (h, JSON 400 [("error", JString err)])
  | inr heartbeat =>
      let orch :=
        UpdateWorkerProgress (orchestrator h) scanID workerID
          (hb_Progress heartbeat) (hb_CurrentDomain heartbeat) in
      wsm ←
        match GetScanStatus orch scanID with
        | Some status =>
            let message :=
              {| WebSocketMessage.Type_ := "status_update";
                 WebSocketMessage.Data := StatusData status |} in
            BroadcastToScan (wsManager h) scanID message
        | None => Some (wsManager h)
        end;
      Some ({| orchestrator := orch; wsManager := wsm |},
            JSON 200 [("status", JString "updated")])
  end.

(** The loop of [CompleteWorker] that looks for a worker below 100. *)
Fixpoint allComplete (workers : list WorkerStatus.t) : bool :=
  match workers with
  | [] => true
  | worker :: rest =>
      if PrimFloat.ltb (WorkerStatus.Progress worker) 100 then false
      else allComplete rest
  end.

(** The boolean of the result tells whether the cleanup of the scan was
    scheduled (the goroutine that sleeps 30 seconds and calls
    [CleanupScan]). *)
Definition CompleteWorker (h : Handler) (scanID workerID : string)
    : option (Handler * Response * bool) :=
  let orch :=
    UpdateWorkerProgress (orchestrator h) scanID workerID 100 "completed" in
  '(orch, wsm, cleanup) ←
    match GetScanStatus orch scanID with
    | Some status =>
        if allComplete (ScanStatus.ActiveDroplets status) then
          (* status.Status = "completed", through the pointer *)
          let status := ScanStatus.set_Status "completed" status in
          let orch := set_activeScans (<[scanID := status]> (activeScans orch)) orch in
          let message :=
            {| WebSocketMessage.Type_ := "scan_complete";
               WebSocketMessage.Data := StatusData status |} in
          wsm ← BroadcastToScan (wsManager h) scanID message;
          Some (orch, wsm, true)
        else Some (orch, wsManager h, false)
    | None => Some (orch, wsManager h, false)
    end;
  Some ({| orchestrator := orch; wsManager := wsm |},
        JSON 200 [("status", JString "completed")], cleanup).

End handlers.

Arguments Handler : clear implicits.

(** ** Executions *)

(** The states of the orchestrator that a run of the server goes through:
    every entry point that touches [activeScans], and the assignment
    [status.Status = "completed"] that [CompleteWorker] makes through the
    pointer [GetScanStatus] returns. *)
Inductive reachable {Cloud : Type} `{!FleetProvider Cloud} : Orchestrator Cloud → Prop :=
  | reachable_New client ip :
      reachable (New client ip)
  | reachable_StartScan o req uuid o' req' tasks err :
      reachable o →
      StartScan o req uuid = Some (o', req', tasks, err) →
      reachable o'
  | reachable_waitForWorker o scanID workerID ip totalDomains now :
      reachable o →
      reachable (waitForWorker_ready o scanID workerID ip totalDomains now)
  | reachable_UpdateWorkerProgress o scanID workerID progress currentDomain :
      reachable o →
      reachable (UpdateWorkerProgress o scanID workerID progress currentDomain)
  | reachable_AddResult o scanID result :
      reachable o →
      reachable (AddResult o scanID result)
  | reachable_completed o scanID status :
      reachable o →
      activeScans o !! scanID = Some status →
      reachable (set_activeScans
                   (<[scanID := ScanStatus.set_Status "completed" status]> (activeScans o)) o)
  | reachable_CleanupScan o scanID :
      reachable o →
      reachable (CleanupScan o scanID).1.

(** The states of the websocket manager that a run goes through: the
    three entry points and the receives of the dispatching goroutines
    (which unregister through [UnregisterClient]). *)
Inductive wsm_reachable : WebSocketManager → Prop :=
  | wsm_reachable_New :
      wsm_reachable NewWebSocketManager
  | wsm_reachable_RegisterClient wsm scanID conn :
      wsm_reachable wsm →
      wsm_reachable (RegisterClient wsm scanID conn)
  | wsm_reachable_UnregisterClient wsm scanID conn wsm' :
      wsm_reachable wsm →
      UnregisterClient wsm scanID conn = Some wsm' →
      wsm_reachable wsm'
  | wsm_reachable_BroadcastToScan wsm scanID message wsm' :
      wsm_reachable wsm →
      BroadcastToScan wsm scanID message = Some wsm' →
      wsm_reachable wsm'
  | wsm_reachable_receive wsm a message wsm' :
      wsm_reachable wsm →
      chan_receive wsm a = Some (message, wsm') →
      wsm_reachable wsm'.

(** Publishing a sequence of messages to one scan, one after the other. *)
Fixpoint BroadcastAll (wsm : WebSocketManager) (scanID : string)
    (messages : list WebSocketMessage.t) : option WebSocketManager :=
  match messages with
  | [] => Some wsm
  | message :: rest =>
      wsm ← BroadcastToScan wsm scanID message;
      BroadcastAll wsm scanID rest
  end.

(** The types of the messages queued for a scan, oldest first. *)
Definition queued_types (wsm : WebSocketManager) (scanID : string) : list string :=
  match scan_chan wsm scanID with
  | Some ch => WebSocketMessage.Type_ <$> chan_buf ch
  | None => []
  end.

(** ** Invariants *)

(** A scan without registered worker has progress 0. *)
Definition idle_scans_at_zero {Cloud : Type} (o : Orchestrator Cloud) : Prop :=
  ∀ id scan,
    activeScans o !! id = Some scan →
    ScanStatus.ActiveDroplets scan = [] → ScanStatus.Progress scan = 0%float.

(** Every queue that [broadcast] names is an open channel made before
    [next_chan], no two scans share a channel, and a scan with clients
    has a queue. *)
Record wsm_inv (wsm : WebSocketManager) : Prop := {
  wsm_inv_open : ∀ id a,
    broadcast wsm !! id = Some a →
    (a < next_chan wsm)%nat
    ∧ ∃ ch, chans wsm !! a = Some ch ∧ chan_closed ch = false;
  wsm_inv_inj : ∀ id1 id2 a,
    broadcast wsm !! id1 = Some a → broadcast wsm !! id2 = Some a → id1 = id2;
  wsm_inv_clients : ∀ id,
    is_Some (clients wsm !! id) → is_Some (broadcast wsm !! id)
}.

(** ** Notions of the specification *)

(** The arithmetic mean of progress values, in [float64] arithmetic: their
    sum from left to right divided by their number, and 0 for no value. *)
Definition mean (values : list float) : float :=
  match values with
  | [] => 0%float
  | _ :: _ =>
      PrimFloat.div (fold_left PrimFloat.add values 0%float) (F64.of_int (len values))
  end.

(** The planner keeps the node count and every chunk size within the
    bounds of the optimizer. *)
Definition plan_within_bounds (so : ScanOptimizer) (domains : list string)
    (requestedDroplets : Z) : Prop :=
  ∃ n chunks,
    OptimizeDistribution so domains requestedDroplets = Some (n, chunks)
    ∧ MinDroplets so ≤ n ≤ MaxDroplets so
    ∧ Forall (λ chunk, 0 ≤ len chunk ≤ MaxDomainsPerDroplet so) chunks.

(** When [CompleteWorker] finds every worker complete, the message it
    queues for the scan has the type [type]. *)
Definition completion_event_is {Cloud : Type} (type : string) (h : Handler Cloud)
    (scanID workerID : string) : Prop :=
  ∀ h' response,
    CompleteWorker h scanID workerID = Some (h', response, true) →
    queued_types (wsManager h') scanID
    = queued_types (wsManager h) scanID ++ [type].

(** Offset of chunk [i] when the first [extra] chunks hold [base + 1]
    items and the others [base]. *)
Definition chunk_start (base extra i : Z) : Z := i * base + Z.min i extra.

(** The requested node count clamped to the default bounds. *)
Definition clamp (r : Z) : Z :=
  let o := if 5 <? r then 5 else r in if o <? 1 then 1 else o.

(** ** Sample data *)

(** The effective node count and the chunk sizes of a plan. *)
Definition plan_sizes (r : option (Z * list (list string))) : option (Z * list nat) :=
  match r with
  | Some (n, chunks) => Some (n, map length chunks)
  | None => None
  end.

Definition ten_domains : list string :=
  ["d0.com"; "d1.com"; "d2.com"; "d3.com"; "d4.com";
   "d5.com"; "d6.com"; "d7.com"; "d8.com"; "d9.com"]%string.

(** A provider that keeps the droplets in a list, each with its tags. *)
Module Sim.

Definition Cloud : Type := list (Droplet * list string).

Definition ListByTag (cloud : Cloud) (tag : string) : option (list Droplet) :=
  Some (fst <$> filter (λ d, tag ∈ d.2) cloud).

Definition Delete (cloud : Cloud) (id : Z) : Cloud :=
  filter (λ d, droplet_ID d.1 ≠ id) cloud.

#[export] Instance provider : FleetProvider Cloud :=
  {| Droplets_ListByTag := ListByTag; Droplets_Delete := Delete |}.

Definition is_space (c : Ascii.ascii) : bool :=
  bool_decide (Ascii.nat_of_ascii c ∈ [9; 10; 11; 12; 13; 32]%nat).

Fixpoint trim_left (s : string) : string :=
  match s with
  | String c s' => if is_space c then trim_left s' else s
  | EmptyString => EmptyString
  end.

Fixpoint trim_right (s : string) : string :=
  match s with
  | String c s' =>
      match trim_right s' with
      | EmptyString => if is_space c then EmptyString else String c EmptyString
      | t => String c t
      end
  | EmptyString => EmptyString
  end.

(** [strings.TrimSpace] on ASCII text. *)
#[export] Instance trim : StringsPkg := λ s, trim_right (trim_left s).

Definition worker (id : string) (progress : float) : WorkerStatus.t :=
  {| WorkerStatus.ID := id; WorkerStatus.IP := "10.0.0.1";
     WorkerStatus.Progress := progress; WorkerStatus.CurrentDomain := "";
     WorkerStatus.DomainsScanned := 0; WorkerStatus.TotalDomains := 10;
     WorkerStatus.Logs := []; WorkerStatus.CreatedAt := 0;
     WorkerStatus.Status := "starting" |}.

Definition scan_id : string := "3f2b8c1e-7a4d-4e9b-9c1a-5d6e7f8a9b0c".

Definition cloud : Cloud :=
  [({| droplet_ID := 1; droplet_Name := "3f2b8c1e-worker-0" |},
    ["nuclei-worker"; scan_id]);
   ({| droplet_ID := 2; droplet_Name := "3f2b8c1e-worker-1" |},
    ["nuclei-worker"; scan_id])].

Definition request : ScanRequest.t :=
  {| ScanRequest.ID := scan_id; ScanRequest.Domains := ten_domains;
     ScanRequest.Droplets := 2; ScanRequest.Status := "" |}.

(** The orchestrator after the scan was started. *)
Definition started : Orchestrator Cloud :=
  match StartScan (New cloud "192.0.2.1") request "" with
  | Some (o, _, _, _) => o
  | None => New cloud "192.0.2.1"
  end.

(** The scan with its two workers ready. *)
Definition orch : Orchestrator Cloud :=
  let o := waitForWorker_ready started scan_id "3f2b8c1e-worker-0" "10.0.0.1" 5 0 in
  waitForWorker_ready o scan_id "3f2b8c1e-worker-1" "10.0.0.2" 5 0.

(** A handler with one client subscribed to the scan, the second worker
    of which has completed. *)
Definition handler : Handler Cloud :=
  {| orchestrator :=
       UpdateWorkerProgress orch scan_id "3f2b8c1e-worker-1" 100 "completed";
     wsManager := RegisterClient NewWebSocketManager scan_id 7%nat |}.

(** What [CompleteWorker] leaves in the queue of the scan, and whether the
    cleanup was scheduled. *)
Definition completion (h : Handler Cloud) (scanID workerID : string)
    : option (list string * bool) :=
  match CompleteWorker h scanID workerID with
  | Some (h', _, cleanup) => Some (queued_types (wsManager h') scanID, cleanup)
  | None => None
  end.

End Sim.

(** ** Worker provisioning (package orchestrator) *)

(** [godo.DropletCreateRequest], with the slug of the image. *)
Record DropletCreateRequest := {
  create_Name : string;
  create_Region : string;
  create_Size : string;
  create_Image : string;
  create_UserData : string;
  create_Tags : list string
}.

(** [Droplets.Create]: the provider afterwards, and an error or the ID of
    the droplet made. *)
Class FleetLauncher (Cloud : Type) :=
  Droplets_Create : Cloud → DropletCreateRequest → Cloud * (string + Z).

(** The text [generateUserData(scanID, workerID, domains)] builds for the
    server address [mainServerIP] (a shell script around the domains in
    base64), taken as given. *)
Class UserDataScript :=
  generateUserData : string → string → string → list string → string.

(** [s[:hi]] on a string: panics when [hi] exceeds the length. *)
Definition string_to (s : string) (hi : nat) : option string :=
  if decide (hi ≤ String.length s)%nat then Some (String.substring 0 hi s) else None.

(** The goroutine [waitForWorker(ctx, scanID, workerID, dropletID,
    totalDomains)] that [createAndStartWorker] starts. *)
Record WaitTask := {
  wait_scanID : string;
  wait_workerID : string;
  wait_dropletID : Z;
  wait_totalDomains : Z
}.

(** [fmt.Sprintf("%s-worker-%d", prefix, index)]. *)
Definition worker_name (prefix : string) (index : Z) : string :=
  prefix +:+ "-worker-" +:+ pretty index.

Section provisioning.
Context {Cloud : Type} `{!FleetLauncher Cloud} `{!UserDataScript}.

(** The result holds the error returned and the goroutine started. *)
Definition createAndStartWorker (o : Orchestrator Cloud) (scanID : string)
    (index : Z) (domains : list string)
    : option (Orchestrator Cloud * error * option WaitTask) :=
  prefix ← string_to scanID 8;
  let workerID := worker_name prefix index in
  let userData := generateUserData (mainServerIP o) scanID workerID domains in
  let createRequest :=
    {| create_Name := workerID; create_Region := "nyc3";
       create_Size := "s-1vcpu-1gb"; create_Image := "ubuntu-20-04-x64";
       create_UserData := userData;
       create_Tags := ["nuclei-worker"; scanID] |} in
  let '(client, created) := Droplets_Create (doClient o) createRequest in
  let o := {| doClient := client; activeScans := activeScans o;
              mainServerIP := mainServerIP o |} in
  match created with
  | inl err => Some (o, Some ("failed to create droplet: " +:+ err), None)
  | inr dropletID =>
      Some (o, None,
            Some {| wait_scanID := scanID; wait_workerID := workerID;
                    wait_dropletID := dropletID;
                    wait_totalDomains := len domains |})
  end.

(** The goroutine [StartScan] starts for a chunk: the error of
    [createAndStartWorker] is logged and dropped. *)
Definition run_task (o : Orchestrator Cloud) (task : WorkerTask)
    : option (Orchestrator Cloud * option WaitTask) :=
  '(o, _, waiter) ←
    createAndStartWorker o (task_scanID task) (task_index task) (task_domains task);
  Some (o, waiter).

End provisioning.






(** ** Result export and live connection (package api) *)

(** [result.Timestamp.Format(time.RFC3339)]. *)
Class TimeFormat := format_RFC3339 : Time → string.

(** What [GetResults] writes: a JSON object, the results as JSON, or a
    text body with the two headers set. *)
Inductive ResultsResponse :=
  | ResultsError (code : Z) (obj : list (string * JSONValue))
  | ResultsJSON (code : Z) (results : list ScanResult.t)
  | ResultsCSV (code : Z) (headers : list (string * string)) (body : string).

Definition newline : string := String (Ascii.ascii_of_nat 10) "".

Section export.
Context {Cloud : Type} `{!TimeFormat}.

(** The columns of a result, in the order of the CSV header. *)
Definition csv_fields (result : ScanResult.t) : list string :=
  [ScanResult.Host result; ScanResult.Template result; ScanResult.Severity result;
   ScanResult.Match result; format_RFC3339 (ScanResult.Timestamp result);
   ScanResult.WorkerID result].

(** [fmt.Sprintf("%s,%s,%s,%s,%s,%s\n", ...)]. *)
Definition csv_row (result : ScanResult.t) : string :=
  ScanResult.Host result +:+ "," +:+ ScanResult.Template result +:+ ","
  +:+ ScanResult.Severity result +:+ "," +:+ ScanResult.Match result +:+ ","
  +:+ format_RFC3339 (ScanResult.Timestamp result) +:+ ","
  +:+ ScanResult.WorkerID result +:+ newline.

(** [accept] is the [Accept] header of the request. *)
Definition GetResults (h : Handler Cloud) (scanID accept : string) : ResultsResponse :=
  match GetScanStatus (orchestrator h) scanID with
  | None => ResultsError 404 [("error", JString "Scan not found")]
  | Some status =>
      if strings_Contains accept "text/csv" then
        ResultsCSV 200
          [("Content-Type", "text/csv");
           ("Content-Disposition", "attachment; filename=scan_results.csv")]
          (fold_left (λ body result, body +:+ csv_row result)
             (ScanStatus.Results status)
             ("Host,Template,Severity,Match,Timestamp,WorkerID" +:+ newline))
      else ResultsJSON 200 (ScanStatus.Results status)
  end.

End export.

(** [HandleWebSocket] up to its read loop: [upgraded] is the connection
    the upgrade gives, or [None] when it fails. The second component
    lists what is written to the connection. *)
Definition HandleWebSocket_open {Cloud : Type} (h : Handler Cloud) (scanID : string)
    (upgraded : option Conn) : Handler Cloud * list WebSocketMessage.t :=
  match upgraded with
  | None => (h, [])
  | Some conn =>
      let wsm := RegisterClient (wsManager h) scanID conn in
      ({| orchestrator := orchestrator h; wsManager := wsm |},
       match GetScanStatus (orchestrator h) scanID with
       | Some status =>
           [{| WebSocketMessage.Type_ := "status_update";
               WebSocketMessage.Data := StatusData status |}]
       | None => []
       end)
  end.

(** One turn of the read loop on a message read: what is written back. *)
Definition HandleWebSocket_read (msg : WebSocketMessage.t) : list WebSocketMessage.t :=
  if decide (WebSocketMessage.Type_ msg = "ping") then
    [{| WebSocketMessage.Type_ := "pong"; WebSocketMessage.Data := StringData "pong" |}]
  else [].

(** The deferred calls, run when the read loop ends on a read error:
    [UnregisterClient], then [conn.Close()]. *)
Definition HandleWebSocket_close {Cloud : Type} (h : Handler Cloud) (scanID : string)
    (conn : Conn) : option (Handler Cloud) :=
  wsm ← UnregisterClient (wsManager h) scanID conn;
  Some {| orchestrator := orchestrator h; wsManager := wsm |}.

(** A whole connection with nothing else running in between: the
    messages [incoming] are read, then a read fails. *)
Definition HandleWebSocket {Cloud : Type} (h : Handler Cloud) (scanID : string)
    (upgraded : option Conn) (incoming : list WebSocketMessage.t)
    : option (Handler Cloud * list WebSocketMessage.t) :=
  match upgraded with
  | None => Some (h, [])
  | Some conn =>
      let '(h, first) := HandleWebSocket_open h scanID (Some conn) in
      h ← HandleWebSocket_close h scanID conn;
      Some (h, first ++ concat (HandleWebSocket_read <$> incoming))
  end.

(** ** Further invariants and notions *)

(** No queue holds more messages than its capacity. *)
Definition wsm_bounded (wsm : WebSocketManager) : Prop :=
  ∀ a ch, chans wsm !! a = Some ch → len (chan_buf ch) ≤ chan_cap.

(** What stays of a worker once it is registered. *)
Definition worker_identity (w : WorkerStatus.t)
    : string * string * Z * list Log.t * Time * string :=
  (WorkerStatus.ID w, WorkerStatus.IP w, WorkerStatus.TotalDomains w,
   WorkerStatus.Logs w, WorkerStatus.CreatedAt w, WorkerStatus.Status w).

(** The scan [scan'] continues [scan]: same ID and total, the results and
    the workers of [scan] first, in their order. *)
Definition scan_extends (scan scan' : ScanStatus.t) : Prop :=
  ScanStatus.ID scan' = ScanStatus.ID scan
  ∧ ScanStatus.TotalDomains scan' = ScanStatus.TotalDomains scan
  ∧ ScanStatus.Results scan `prefix_of` ScanStatus.Results scan'
  ∧ (worker_identity <$> ScanStatus.ActiveDroplets scan)
      `prefix_of` (worker_identity <$> ScanStatus.ActiveDroplets scan').

(** The steps on the registry between [StartScan] and [CleanupScan]. *)
Inductive scan_step {Cloud : Type} : Orchestrator Cloud → Orchestrator Cloud → Prop :=
  | scan_step_ready o scanID workerID ip totalDomains now :
      scan_step o (waitForWorker_ready o scanID workerID ip totalDomains now)
  | scan_step_progress o scanID workerID progress currentDomain :
      scan_step o (UpdateWorkerProgress o scanID workerID progress currentDomain)
  | scan_step_result o scanID result :
      scan_step o (AddResult o scanID result)
  | scan_step_completed o scanID status :
      activeScans o !! scanID = Some status →
      scan_step o (set_activeScans
                     (<[scanID := ScanStatus.set_Status "completed" status]>
                        (activeScans o)) o).

(** What holds of every scan in the registry of a run. *)
Record scan_wf (id : string) (scan : ScanStatus.t) : Prop := {
  scan_wf_ID : ScanStatus.ID scan = id;
  scan_wf_Status :
    ScanStatus.Status scan = "starting" ∨ ScanStatus.Status scan = "completed";
  scan_wf_TotalDomains : 0 ≤ ScanStatus.TotalDomains scan;
  scan_wf_ScannedDomains :
    ScanStatus.ScannedDomains scan = Int.wrap (len (ScanStatus.Results scan));
  scan_wf_workers :
    Forall (λ w, WorkerStatus.Status w = "starting" ∧ WorkerStatus.Logs w = [])
           (ScanStatus.ActiveDroplets scan)
}.

(** Splitting a text at every occurrence of a separator. *)
Fixpoint split_on (sep : Ascii.ascii) (s : string) : list string :=
  match s with
  | EmptyString => [EmptyString]
  | String c s =>
      match split_on sep s with
      | field :: fields =>
          if decide (c = sep) then EmptyString :: field :: fields
          else String c field :: fields
      | [] => []
      end
  end.

(** The character [c] does not occur in [s]. *)
Fixpoint free_of (c : Ascii.ascii) (s : string) : Prop :=
  match s with
  | EmptyString => True
  | String c' s => c' ≠ c ∧ free_of c s
  end.

(** Reading a CSV text without quoting: the lines closed by a newline,
    each split at its commas. *)
Definition csv_read (body : string) : list (list string) :=
  split_on (Ascii.ascii_of_nat 44) <$> removelast (split_on (Ascii.ascii_of_nat 10) body).

(** Taking up to [k] messages off the queue at [a], oldest first. *)
Fixpoint receive_all (wsm : WebSocketManager) (a : nat) (k : nat)
    : list WebSocketMessage.t * WebSocketManager :=
  match k with
  | O => ([], wsm)
  | S k =>
      match chan_receive wsm a with
      | Some (message, wsm) =>
          let '(messages, wsm) := receive_all wsm a k in (message :: messages, wsm)
      | None => ([], wsm)
      end
  end.

(** The node count of the default optimizer in plain arithmetic: the
    clamped request, raised to the rounded-up quotient by 500 (at most 5)
    when the share per node exceeds 500, then lowered to the quotient by
    50 (at least 1) when there are more than 50 domains and the share is
    below 50. *)
Definition planned_count (total r : Z) : Z :=
  let o1 := clamp r in
  let o2 :=
    if 500 <? total `quot` o1 then Z.min 5 ((total + 499) `quot` 500) else o1 in
  if (50 <? total) && (total `quot` o2 <? 50) then Z.max 1 (total `quot` 50) else o2.

(** No scan has an empty set of clients. *)
Definition wsm_nonempty (wsm : WebSocketManager) : Prop :=
  ∀ id conns, clients wsm !! id = Some conns → conns ≠ ∅.

(** The fields of a line, with commas in between. *)
Fixpoint join_fields (fields : list string) : string :=
  match fields with
  | [] => ""
  | [field] => field
  | field :: fields => field +:+ "," +:+ join_fields fields
  end.

(** The columns named by the header line of the CSV export. *)
Definition csv_header : list string :=
  ["Host"; "Template"; "Severity"; "Match"; "Timestamp"; "WorkerID"].

(** A scan that has a queue has clients. *)
Definition wsm_paired (wsm : WebSocketManager) : Prop :=
  ∀ id, is_Some (broadcast wsm !! id) → is_Some (clients wsm !! id).

(** ** [BroadcastToScan] in its two steps *)

(** The read of the map, under the read lock. *)
Definition BroadcastToScan_read (wsm : WebSocketManager) (scanID : string) : option nat :=
  broadcast wsm !! scanID.

(** The [select] on the channel read, which runs after the read lock is
    released: other calls may have run since the read. *)
Definition BroadcastToScan_select (wsm : WebSocketManager) (channel : option nat)
    (message : WebSocketMessage.t) : option WebSocketManager :=
  match channel with
  | Some a =>
      match chans wsm !! a with
      | Some ch =>
          if chan_closed ch then None
          else if len (chan_buf ch) <? chan_cap then
            Some {| clients := clients wsm; broadcast := broadcast wsm;
                    chans := <[a := {| chan_buf := chan_buf ch ++ [message];
                                       chan_closed := false |}]> (chans wsm);
                    next_chan := next_chan wsm |}
          else Some wsm
      | None => Some wsm
      end
  | None => Some wsm
  end.

(** The steps of a run in which the [select] of a [BroadcastToScan] is a
    step of its own, on whatever channel it holds. *)
Inductive wsm_step : WebSocketManager → WebSocketManager → Prop :=
  | wsm_step_RegisterClient wsm scanID conn :
      wsm_step wsm (RegisterClient wsm scanID conn)
  | wsm_step_UnregisterClient wsm scanID conn wsm' :
      UnregisterClient wsm scanID conn = Some wsm' →
      wsm_step wsm wsm'
  | wsm_step_select wsm a message wsm' :
      BroadcastToScan_select wsm (Some a) message = Some wsm' →
      wsm_step wsm wsm'
  | wsm_step_receive wsm a message wsm' :
      chan_receive wsm a = Some (message, wsm') →
      wsm_step wsm wsm'.

(** Every open channel is the queue of a scan. *)
Definition wsm_open_mapped (wsm : WebSocketManager) : Prop :=
  ∀ a ch,
    chans wsm !! a = Some ch → chan_closed ch = false →
    ∃ id, broadcast wsm !! id = Some a.

(** The channel at [a] is closed and the queue of no scan. *)
Definition chan_retired (wsm : WebSocketManager) (a : nat) : Prop :=
  (a < next_chan wsm)%nat
  ∧ (∃ ch, chans wsm !! a = Some ch ∧ chan_closed ch = true)
  ∧ ∀ id, broadcast wsm !! id ≠ Some a.

(** The largest node count the properties of [createChunks] on its own
    are stated for: [make] with a length beyond what the runtime
    allocates panics, which [createChunks] above leaves out. *)
Definition make_len_max : Z := 2 ^ 20.

(** ** A simulated run, continued *)

Module SimRun.

(** The provider gives a new droplet the next ID, and refuses a name
    that is taken. *)
#[export] Instance launcher : FleetLauncher Sim.Cloud := λ cloud request,
  if bool_decide (create_Name request ∈ (λ d, droplet_Name d.1) <$> cloud)
  then (cloud, inl "name is taken"%string)
  else
    let id := len cloud + 1 in
    (cloud ++ [({| droplet_ID := id; droplet_Name := create_Name request |},
                create_Tags request)],
     inr id).

(** A stand-in for the script: its parameters, one per line. *)
#[export] Instance script : UserDataScript := λ mainServerIP scanID workerID domains,
  scanID +:+ newline +:+ workerID +:+ newline +:+ mainServerIP +:+ newline
  +:+ join_fields domains.

(** A stand-in for the RFC 3339 text of a time: its seconds in decimal. *)
#[export] Instance seconds : TimeFormat := λ t, pretty t.

Definition result (host : string) : ScanResult.t :=
  {| ScanResult.Host := host; ScanResult.Template := "tech-detect";
     ScanResult.Severity := "info"; ScanResult.Match := "nginx";
     ScanResult.Timestamp := 1700000000;
     ScanResult.WorkerID := "3f2b8c1e-worker-0" |}.

Definition message (text : string) : WebSocketMessage.t :=
  {| WebSocketMessage.Type_ := text; WebSocketMessage.Data := StringData text |}.

Definition heartbeat : Heartbeat :=
  {| hb_Progress := 40; hb_CurrentDomain := "d3.com"; hb_Message := "scanning" |}.

(** What a direct call of [StartScan] gives for the request. *)
Definition planned (req : ScanRequest.t)
    : Orchestrator Sim.Cloud * ScanRequest.t * list WorkerTask * error :=
  default (New Sim.cloud "192.0.2.1", req, [], None)
          (StartScan (New Sim.cloud "192.0.2.1") req "").

(** What the handler gives for the request. *)
Definition submitted : Handler Sim.Cloud * Response * list WorkerTask :=
  default (Sim.handler, JSON 500 [], [])
          (@Handler_StartScan Sim.Cloud Sim.trim
             Sim.handler (inr Sim.request) Sim.scan_id "").

(** The request with an ID of its own, of three bytes. *)
Definition short_request : ScanRequest.t :=
  {| ScanRequest.ID := "abc"; ScanRequest.Domains := ten_domains;
     ScanRequest.Droplets := 2; ScanRequest.Status := "" |}.

(** A handler for the scan just started, no droplet of which is ready. *)
Definition fresh : Handler Sim.Cloud :=
  {| orchestrator := Sim.started; wsManager := wsManager Sim.handler |}.

(** The handler with two results ingested. *)
Definition with_results : Handler Sim.Cloud :=
  {| orchestrator :=
       AddResult (AddResult Sim.orch Sim.scan_id (result "d0.com")) Sim.scan_id
         (result "d1.com");
     wsManager := wsManager Sim.handler |}.

(** The manager after [n] messages were published to the scan. *)
Definition published (n : nat) : WebSocketManager :=
  default (wsManager Sim.handler)
          (BroadcastAll (wsManager Sim.handler) Sim.scan_id (replicate n (message "tick"))).

(** The manager after the only client of the scan left. *)
Definition left_alone : WebSocketManager :=
  default (wsManager Sim.handler)
          (UnregisterClient (wsManager Sim.handler) Sim.scan_id 7%nat).

(** The handler with the queue of the scan full. *)
Definition full : Handler Sim.Cloud :=
  {| orchestrator := Sim.orch; wsManager := published 100 |}.

End SimRun.

(** ** Proof automation *)

(** Linear arithmetic over [int] bounds, quotients and remainders. *)
Ltac int_lia :=
  unfold Int.in_range, Int.min_int, Int.max_int in *;
  Z.to_euclidean_division_equations; lia.

(** Case analysis on a node count known to lie between 1 and 5. *)
Ltac small_cases o :=
  let x := fresh "x" in
  let E := fresh "E" in
  let H := fresh in
  remember o as x eqn:E in *;
  assert (x = 1 ∨ x = 2 ∨ x = 3 ∨ x = 4 ∨ x = 5) as H by lia;
  destruct H as [->|[->|[->|[->| ->]]]].

(** Steps of the [option] monad. *)
Ltac step := cbn [mbind option_bind].

(** * Properties *)

(** ** Go's [int] *)

Lemma wrap_id z : Int.in_range z → Int.wrap z = z.
Proof.
  unfold Int.in_range, Int.min_int, Int.max_int, Int.wrap. intros Hz.
  rewrite Z.mod_small; lia.
Qed.

Lemma wrap_in_range z : Int.in_range (Int.wrap z).
Proof.
  unfold Int.in_range, Int.min_int, Int.max_int, Int.wrap.
  pose proof (Z.mod_pos_bound (z + 2 ^ 63) (2 ^ 64)). lia.
Qed.

Lemma wrap_add_sub a b c : Int.sub (Int.add a b) c = Int.wrap (a + b - c).
Proof.
  unfold Int.sub, Int.add, Int.wrap.
  f_equal.
  replace ((a + b + 2 ^ 63) `mod` 2 ^ 64 - 2 ^ 63 - c + 2 ^ 63)
    with ((a + b + 2 ^ 63) `mod` 2 ^ 64 + - c) by lia.
  rewrite Zplus_mod_idemp_l. f_equal; lia.
Qed.

Lemma div_nonneg_pos a b :
  0 ≤ a ≤ Int.max_int → 0 < b →
  Int.div a b = Some (a `quot` b) ∧ 0 ≤ a `quot` b ≤ a.
Proof.
  intros Ha Hb. unfold Int.div.
  destruct (Z.eqb_spec b 0) as [->|_]; [lia|].
  assert (0 ≤ a `quot` b ≤ a) as Hq.
  { split; [apply Z.quot_pos; lia|].
    destruct (Z.eq_dec a 0) as [->|]; [by rewrite Z.quot_0_l by lia|].
    destruct (Z.eq_dec b 1) as [->|]; [by rewrite Z.quot_1_r|].
    apply Z.lt_le_incl, Z.quot_lt; lia. }
  split; [|done]. f_equal. apply wrap_id.
  unfold Int.in_range, Int.min_int, Int.max_int in *. lia.
Qed.

Lemma div_nonneg_neg a b :
  0 ≤ a ≤ Int.max_int → b < 0 →
  ∃ q, Int.div a b = Some q ∧ - a ≤ q ≤ 0.
Proof.
  intros Ha Hb. unfold Int.div.
  destruct (Z.eqb_spec b 0) as [->|_]; [lia|].
  assert (- a ≤ a `quot` b ≤ 0) as Hq.
  { replace b with (- - b) by lia. rewrite Z.quot_opp_r by lia.
    destruct (div_nonneg_pos a (- b)) as [_ ?]; [done|lia|lia]. }
  eexists; split; [|exact Hq]. f_equal. apply wrap_id.
  unfold Int.in_range, Int.min_int, Int.max_int in *. lia.
Qed.

(** ** Distribution planner *)


Lemma clamp_range r : 1 ≤ clamp r ≤ 5.
Proof. unfold clamp. repeat case_match; lia. Qed.

Lemma calculateOptimalDroplets_default total r :
  0 < total ≤ Int.max_int →
  ∃ n, calculateOptimalDroplets NewScanOptimizer total r = Some n
       ∧ 1 ≤ n ≤ Int.max_int
       ∧ (total ≤ Int.max_int - 499 →
          n ≤ 5 ∧ (total ≤ 2500 → total `quot` n ≤ 500)).
Proof.
  intros Ht. unfold calculateOptimalDroplets. cbn [NewScanOptimizer MaxDomainsPerDroplet MinDomainsPerDroplet MaxDroplets MinDroplets].
  fold (clamp r). pose proof (clamp_range r) as Hc. generalize dependent (clamp r). intros o1 Ho1.
  destruct (div_nonneg_pos total o1) as [-> Hq1]; [lia..|]. cbn [mbind option_bind].
  remember (total `quot` o1) as q1 eqn:Eq1.
  (* the node count after the check against the maximum per node *)
  assert (∃ o2, (if 500 <? q1
     then Int.div (Int.sub (Int.add total 500) 1) 500
      ≫= λ optimalDroplets : Z,
           Some (if 5 <? optimalDroplets then 5 else optimalDroplets)
     else Some o1) = Some o2 ∧
     ((1 ≤ o2 ≤ 5 ∧ (total ≤ 2500 → total `quot` o2 ≤ 500)) ∨
      (o2 < 0 ∧ 50 < total ∧ Int.max_int - 499 < total))) as (o2 & -> & Ho2).
  { destruct (Z.ltb_spec 500 q1) as [Hhi|Hhi].
    - clear Eq1. rewrite wrap_add_sub. unfold Int.div. cbn [Z.eqb mbind option_bind].
      rewrite (wrap_id (_ `quot` 500)) by (pose proof (wrap_in_range (total + 500 - 1)); int_lia).
      eexists; split; [done|].
      destruct (Z_le_gt_dec total (Int.max_int - 499)) as [Hsmall|Hbig].
      + left. rewrite wrap_id by int_lia.
        destruct (Z.ltb_spec 5 ((total + 500 - 1) `quot` 500)).
        * split; [lia|]. intros. int_lia.
        * split; [int_lia|]. intros _.
          assert (total ≤ 500 * ((total + 500 - 1) `quot` 500)) by int_lia.
          small_cases ((total + 500 - 1) `quot` 500); int_lia.
      + right. 
        assert (Int.wrap (total + 500 - 1) = total + 499 - 2 ^ 64) as ->.
        { unfold Int.wrap. int_lia. }
        assert ((total + 499 - 2 ^ 64) `quot` 500 < 0) by int_lia.
        destruct (Z.ltb_spec 5 ((total + 499 - 2 ^ 64) `quot` 500)); int_lia.
    - eexists; split; [done|]. left. split; [lia|]. intros; lia. }
  clear Eq1.
  cbn [mbind option_bind].
  destruct (Z.ltb_spec 50 total) as [Hlo|Hlo].
  - destruct Ho2 as [[Ho2 Hper]|(Hneg & _ & Hbig)].
    + destruct (div_nonneg_pos total o2) as [-> Hq2]; [lia..|]. cbn [mbind option_bind].
      destruct (Z.ltb_spec (total `quot` o2) 50) as [Hfew|Hfew].
      * destruct (div_nonneg_pos total 50) as [-> Hq3]; [lia..|]. cbn [mbind option_bind].
        eexists; split; [done|].
        assert (1 ≤ total `quot` 50) by int_lia.
        destruct (Z.ltb_spec (total `quot` 50) 1); [lia|].
        split; [lia|]. intros _.
        assert (total < 250) by (small_cases o2; int_lia).
        clear Hq2 Hfew Hper.
        assert (total `quot` 50 ≤ 5) by int_lia.
        split; [lia|]. intros _. small_cases (total `quot` 50); int_lia.
      * eexists; split; [done|]. split; [int_lia|]. intros _. split; [lia|done].
    + destruct (div_nonneg_neg total o2) as (q & -> & Hq); [lia..|]. cbn [mbind option_bind].
      destruct (Z.ltb_spec q 50); [|lia].
      destruct (div_nonneg_pos total 50) as [-> Hq3]; [lia..|]. cbn [mbind option_bind].
      eexists; split; [done|].
      assert (1 ≤ total `quot` 50) by int_lia.
      destruct (Z.ltb_spec (total `quot` 50) 1); [lia|].
      split; [lia|]. intros; lia.
  - destruct Ho2 as [[Ho2 Hper]|?]; [|lia].
    eexists; split; [done|]. split; [int_lia|]. intros _. split; [lia|done].
Qed.


Lemma slice_Some {A} (s : list A) lo hi :
  0 ≤ lo → lo ≤ hi → hi ≤ len s →
  slice s lo hi = Some (take (Z.to_nat (hi - lo)) (drop (Z.to_nat lo) s)).
Proof. intros. unfold slice. by rewrite bool_decide_eq_true_2. Qed.

Section createChunks_loop.
Variables (domains : list string) (n base extra : Z).
Hypothesis Hlen : len domains ≤ Int.max_int.
Hypothesis Hn : 1 ≤ n ≤ Int.max_int.
Hypothesis Htotal : len domains = n * base + extra.
Hypothesis Hbase : 0 ≤ base.
Hypothesis Hextra : 0 ≤ extra < n.

#[local] Abbreviation total := (len domains).
#[local] Abbreviation start := (chunk_start base extra).

Lemma chunk_start_step i :
  0 ≤ i < n →
  start (i + 1) = start i + base + (if i <? extra then 1 else 0)
  ∧ 0 ≤ start i ∧ start (i + 1) ≤ total.
Proof.
  intros Hi. unfold chunk_start.
  assert (0 ≤ i * base) by nia.
  assert (0 ≤ (n - (i + 1)) * base) by nia.
  destruct (Z.ltb_spec i extra); lia.
Qed.

Lemma createChunks_loop_spec k i :
  0 ≤ i → i + Z.of_nat k = n →
  ∃ chunks,
    createChunks_loop domains total base extra k i (start i) = Some chunks
    ∧ concat chunks = drop (Z.to_nat (start i)) domains
    ∧ length chunks = k
    ∧ ∀ j chunk, chunks !! j = Some chunk →
        len chunk = base + (if i + Z.of_nat j <? extra then 1 else 0).
Proof.
  revert i. induction k as [|k IH]; intros i Hi Hik.
  - exists []. cbn. repeat split; [|done].
    assert (i = n) as -> by lia.
    rewrite drop_ge; [done|]. unfold chunk_start, len in *. lia.
  - destruct (chunk_start_step i) as (Hstep & H0 & Hle); [lia|].
    destruct (IH (i + 1)) as (rest & Hrest & Hcat & Hlenr & Hsz); [lia..|].
    set (sz := base + (if i <? extra then 1 else 0)) in *.
    assert (0 ≤ sz) as Hszr by (unfold sz; destruct (Z.ltb_spec i extra); lia).
    assert (Int.max_int = 2 ^ 63 - 1) as Hmax by done.
    exists (take (Z.to_nat sz) (drop (Z.to_nat (start i)) domains) :: rest).
    cbn [createChunks_loop].
    assert ((if i <? extra then Int.add base 1 else base) = sz) as ->.
    { unfold sz, Int.add. destruct (Z.ltb_spec i extra); [|lia].
      apply wrap_id. unfold Int.in_range, Int.min_int in *. lia. }
    assert (Int.add (start i) sz = start (i + 1)) as ->.
    { unfold Int.add. rewrite wrap_id; [lia|].
      unfold Int.in_range, Int.min_int in *. lia. }
    assert (Int.add i 1 = i + 1) as ->.
    { unfold Int.add. apply wrap_id. unfold Int.in_range, Int.min_int. lia. }
    destruct (Z.ltb_spec total (start (i + 1))); [lia|].
    rewrite slice_Some by lia. step. rewrite Hrest. step.
    replace (start (i + 1) - start i) with sz by lia.
    split; [done|]. split; [|split].
    + cbn [concat]. rewrite Hcat.
      replace (Z.to_nat (start (i + 1)))
        with (Z.to_nat (start i) + Z.to_nat sz)%nat by lia.
      rewrite <- drop_drop. apply take_drop.
    + cbn. by rewrite Hlenr.
    + intros [|j] chunk Hj; cbn in Hj.
      * injection Hj as <-. unfold len in *. rewrite length_take, length_drop.
        replace (i + Z.of_nat 0) with i by lia. fold sz. lia.
      * rewrite (Hsz j chunk Hj).
        by replace (i + Z.of_nat (S j)) with (i + 1 + Z.of_nat j) by lia.
Qed.

End createChunks_loop.

Lemma createChunks_spec so domains n :
  len domains ≤ Int.max_int → 1 ≤ n ≤ Int.max_int →
  ∃ chunks,
    createChunks so domains n = Some chunks
    ∧ concat chunks = domains
    ∧ len chunks = n
    ∧ ∀ j chunk, chunks !! j = Some chunk →
        len chunk = len domains `quot` n
                    + (if Z.of_nat j <? len domains `rem` n then 1 else 0).
Proof.
  intros Hlen Hn.
  assert (0 ≤ len domains) as Hpos by (unfold len; lia).
  pose proof (Z.quot_rem' (len domains) n) as Htotal.
  pose proof (Z.quot_pos (len domains) n Hpos ltac:(lia)) as Hbase.
  pose proof (Z.rem_bound_pos (len domains) n Hpos ltac:(lia)) as Hextra.
  destruct (createChunks_loop_spec domains n _ _ Hlen Hn Htotal Hbase Hextra (Z.to_nat n) 0)
    as (chunks & Hloop & Hcat & Hl & Hsz); [lia..|].
  exists chunks. unfold createChunks.
  destruct (div_nonneg_pos (len domains) n) as [-> _]; [lia..|].
  unfold Int.rem. destruct (Z.eqb_spec n 0); [lia|].
  destruct (Z.ltb_spec n 0); [lia|]. step.
  replace (chunk_start (len domains `quot` n) (len domains `rem` n) 0) with 0 in *
    by (unfold chunk_start; lia).
  split; [done|]. split; [by rewrite Hcat|]. split; [unfold len; lia|].
  intros j chunk Hj. by rewrite (Hsz j chunk Hj).
Qed.


Lemma length_concat_sum {A} (ls : list (list A)) :
  length (concat ls) = sum_list_with length ls.
Proof. induction ls as [|l ls IH]; cbn; [done|]. by rewrite length_app, IH. Qed.

Lemma concat_lookup_slice {A} (ls : list (list A)) i l :
  ls !! i = Some l →
  l = take (length l) (drop (sum_list_with length (take i ls)) (concat ls)).
Proof.
  intros Hi. rewrite <- (take_drop_middle ls i l Hi) at 2.
  rewrite concat_app, <- length_concat_sum, drop_app_length. cbn [concat].
  by rewrite take_app_length.
Qed.

Lemma OptimizeDistribution_nonempty domains r :
  domains ≠ [] → len domains ≤ Int.max_int →
  ∃ n chunks,
    calculateOptimalDroplets NewScanOptimizer (len domains) r = Some n
    ∧ createChunks NewScanOptimizer domains n = Some chunks
    ∧ OptimizeDistribution NewScanOptimizer domains r = Some (n, chunks)
    ∧ 1 ≤ n ≤ Int.max_int
    ∧ concat chunks = domains
    ∧ len chunks = n
    ∧ (∀ j chunk, chunks !! j = Some chunk →
         len chunk = len domains `quot` n
                     + (if Z.of_nat j <? len domains `rem` n then 1 else 0))
    ∧ (len domains ≤ Int.max_int - 499 →
         n ≤ 5 ∧ (len domains ≤ 2500 → len domains `quot` n ≤ 500)).
Proof.
  intros Hne Hlen.
  assert (0 < len domains) as Hpos by (destruct domains; [done|unfold len; cbn; lia]).
  destruct (calculateOptimalDroplets_default (len domains) r) as (n & Hn & Hrange & Hsmall);
    [lia|].
  destruct (createChunks_spec NewScanOptimizer domains n Hlen Hrange)
    as (chunks & Hchunks & Hcat & Hl & Hsz).
  exists n, chunks. unfold OptimizeDistribution.
  destruct (Z.eqb_spec (len domains) 0); [lia|].
  rewrite Hn. cbn [mbind option_bind]. rewrite Hchunks. done.
Qed.

(** C1. For every domain list whose length is an [int], the empty one
    included, and every requested node count, the planner returns a chunk
    list whose concatenation is the input: each chunk is the slice of the
    input that starts where the chunks before it end, the sizes add up to
    the length of the input, and the number of chunks is the node count;
    for the empty list it returns 0 nodes and no chunk. *)
Theorem OptimizeDistribution_partition (domains : list string) (requestedDroplets : Z) :
  len domains ≤ Int.max_int →
  ∃ n chunks,
    OptimizeDistribution NewScanOptimizer domains requestedDroplets = Some (n, chunks)
    ∧ concat chunks = domains
    ∧ len chunks = n
    ∧ sum_list_with length chunks = length domains
    ∧ (∀ i chunk, chunks !! i = Some chunk →
         chunk = take (length chunk)
                      (drop (sum_list_with length (take i chunks)) domains))
    ∧ (domains = [] → n = 0 ∧ chunks = []).
Proof.
  intros Hlen. destruct (decide (domains = [])) as [->|Hne].
  - exists 0, []. done.
  - destruct (OptimizeDistribution_nonempty domains requestedDroplets Hne Hlen)
      as (n & chunks & _ & _ & Hplan & _ & Hcat & Hl & _).
    exists n, chunks. split; [done|]. split; [done|]. split; [done|].
    split; [by rewrite <- length_concat_sum, Hcat|].
    split; [|done]. intros i chunk Hi. rewrite <- Hcat.
    by apply concat_lookup_slice.
Qed.

Lemma OptimizeDistribution_partition_witness :
  ∃ n chunks,
    OptimizeDistribution NewScanOptimizer ["a.com"; "b.com"; "c.com"]%string 2
      = Some (n, chunks)
    ∧ concat chunks = ["a.com"; "b.com"; "c.com"]%string
    ∧ len chunks = n
    ∧ sum_list_with length chunks = 3%nat
    ∧ (∀ i chunk, chunks !! i = Some chunk →
         chunk = take (length chunk)
                      (drop (sum_list_with length (take i chunks))
                            ["a.com"; "b.com"; "c.com"]%string))
    ∧ (["a.com"; "b.com"; "c.com"]%string = [] → n = 0 ∧ chunks = []).
Proof.
  apply (OptimizeDistribution_partition ["a.com"; "b.com"; "c.com"]%string 2).
  vm_compute. discriminate.
Defined.

(** C3, as stated: 3000 domains with one node requested are dealt to 5
    nodes in chunks of 600, above the 500 allowed per node. *)
Lemma plan_exceeds_max_per_node :
  ¬ plan_within_bounds NewScanOptimizer (replicate 3000 "d"%string) 1.
Proof.
  intros (n & chunks & Hplan & _ & Hall).
  assert (OptimizeDistribution NewScanOptimizer (replicate 3000 "d"%string) 1
          = Some (5, replicate 5 (replicate 600 "d"%string))) as Hrun
    by (vm_compute; reflexivity).
  rewrite Hrun in Hplan. injection Hplan as <- <-.
  apply Forall_inv in Hall. vm_compute in Hall. destruct Hall as [_ Hall]. by apply Hall.
Qed.

(** C3, as the code has it. For every non-empty domain list (of a length
    that leaves room for the rounding-up addition) and every requested
    node count, the node count returned is between [MinDroplets] and
    [MaxDroplets]; every chunk has a size of at least 0, and when the list
    has at most [MaxDomainsPerDroplet * MaxDroplets] domains, every chunk
    that receives no extra domain (those from index [len domains % n] on)
    has at most [MaxDomainsPerDroplet] domains. *)
Theorem plan_bounds (domains : list string) (requestedDroplets : Z) :
  domains ≠ [] → len domains ≤ Int.max_int - 499 →
  ∃ n chunks,
    OptimizeDistribution NewScanOptimizer domains requestedDroplets = Some (n, chunks)
    ∧ MinDroplets NewScanOptimizer ≤ n ≤ MaxDroplets NewScanOptimizer
    ∧ Forall (λ chunk, 0 ≤ len chunk) chunks
    ∧ (len domains ≤ MaxDomainsPerDroplet NewScanOptimizer * MaxDroplets NewScanOptimizer →
       ∀ i chunk, chunks !! i = Some chunk → len domains `rem` n ≤ Z.of_nat i →
         len chunk ≤ MaxDomainsPerDroplet NewScanOptimizer).
Proof.
  intros Hne Hlen.
  destruct (OptimizeDistribution_nonempty domains requestedDroplets Hne)
    as (n & chunks & _ & _ & Hplan & Hn & _ & _ & Hsz & Hsmall);
    [unfold Int.max_int in *; lia|].
  destruct (Hsmall Hlen) as [Hn5 Hper]. cbn [NewScanOptimizer MinDroplets MaxDroplets MaxDomainsPerDroplet].
  exists n, chunks. split; [done|]. split; [lia|]. split.
  - apply Forall_forall. intros chunk _. unfold len. lia.
  - intros H2500 i chunk Hi Hrem. rewrite (Hsz i chunk Hi).
    destruct (Z.ltb_spec (Z.of_nat i) (len domains `rem` n)); lia.
Qed.

(** C4, as stated: ten domains with five nodes requested are not planned
    as one node with one chunk. *)
Lemma plan_10_domains_is_not_one_chunk :
  OptimizeDistribution NewScanOptimizer ten_domains 5 ≠ Some (1, [ten_domains]).
Proof. vm_compute. discriminate. Qed.

(** C4, as the code has it. Ten domains with five nodes requested, the
    minimum per node being 50: the node count is lowered only when there
    are more domains than that minimum, so the planner returns 5 nodes
    and five chunks of two domains, in order. *)
Theorem plan_10_domains (domains : list string) :
  length domains = 10%nat →
  MinDomainsPerDroplet NewScanOptimizer = 50
  ∧ ∃ chunks,
      OptimizeDistribution NewScanOptimizer domains 5 = Some (5, chunks)
      ∧ concat chunks = domains
      ∧ length <$> chunks = [2; 2; 2; 2; 2]%nat.
Proof.
  intros Hlen. split; [done|].
  do 11 (destruct domains as [|? domains]; try discriminate Hlen).
  eexists. split; [vm_compute; reflexivity|]. done.
Qed.

Lemma plan_10_domains_witness :
  MinDomainsPerDroplet NewScanOptimizer = 50
  ∧ ∃ chunks,
      OptimizeDistribution NewScanOptimizer ten_domains 5 = Some (5, chunks)
      ∧ concat chunks = ten_domains
      ∧ length <$> chunks = [2; 2; 2; 2; 2]%nat.
Proof. apply (plan_10_domains ten_domains). reflexivity. Defined.

(** C10. The planner never divides by zero: for a non-empty domain list
    and any requested node count, zero and negative ones included,
    [calculateOptimalDroplets] returns a count of at least [MinDroplets],
    which is at least 1, so the division and the remainder by it in
    [createChunks] are defined and [createChunks] returns; for the empty
    list [OptimizeDistribution] returns before any division, whatever the
    bounds of the optimizer. *)
Theorem planner_never_divides_by_zero (domains : list string) (requestedDroplets : Z) :
  len domains ≤ Int.max_int →
  (domains ≠ [] →
     ∃ n, calculateOptimalDroplets NewScanOptimizer (len domains) requestedDroplets = Some n
          ∧ 1 ≤ MinDroplets NewScanOptimizer ≤ n
          ∧ is_Some (Int.div (len domains) n)
          ∧ is_Some (Int.rem (len domains) n)
          ∧ is_Some (createChunks NewScanOptimizer domains n))
  ∧ (∀ so, OptimizeDistribution so [] requestedDroplets = Some (0, []))
  ∧ is_Some (OptimizeDistribution NewScanOptimizer domains requestedDroplets).
Proof.
  intros Hlen. split; [|split].
  - intros Hne.
    destruct (OptimizeDistribution_nonempty domains requestedDroplets Hne Hlen)
      as (n & chunks & Hn & Hchunks & _ & Hrange & _).
    exists n. split; [done|]. split; [cbn; lia|].
    unfold Int.div, Int.rem. destruct (Z.eqb_spec n 0); [lia|].
    rewrite Hchunks. eauto.
  - done.
  - destruct (decide (domains = [])) as [->|Hne]; [by eexists|].
    destruct (OptimizeDistribution_nonempty domains requestedDroplets Hne Hlen)
      as (n & chunks & _ & _ & -> & _). eauto.
Qed.

(** ** Status store *)

Lemma fold_left_Progress workers acc :
  fold_left (λ total worker, PrimFloat.add total (WorkerStatus.Progress worker)) workers acc
  = fold_left PrimFloat.add (WorkerStatus.Progress <$> workers) acc.
Proof. revert acc. induction workers as [|w ws IH]; intros acc; cbn; [done|apply IH]. Qed.

Lemma mean_workers w ws :
  PrimFloat.div (totalProgress (w :: ws)) (F64.of_int (len (w :: ws)))
  = mean (WorkerStatus.Progress <$> w :: ws).
Proof.
  unfold totalProgress. rewrite fold_left_Progress. unfold mean, len.
  cbn [fmap list_fmap]. by rewrite !length_cons, length_fmap.
Qed.

Lemma UpdateWorkerProgress_worker_length workers workerID progress currentDomain :
  length (UpdateWorkerProgress_worker workers workerID progress currentDomain)
  = length workers.
Proof.
  induction workers as [|w ws IH]; cbn; [done|].
  destruct (decide (WorkerStatus.ID w = workerID)); cbn; [done|by rewrite IH].
Qed.

Lemma UpdateWorkerProgress_worker_absent workers workerID progress currentDomain :
  (∀ worker, worker ∈ workers → WorkerStatus.ID worker ≠ workerID) →
  UpdateWorkerProgress_worker workers workerID progress currentDomain = workers.
Proof.
  induction workers as [|w ws IH]; intros Habs; cbn; [done|].
  destruct (decide (WorkerStatus.ID w = workerID)) as [He|_].
  - destruct (Habs w); [left|done].
  - rewrite IH; [done|]. intros w' Hw'. apply Habs. by right.
Qed.

Section status_store.
Context {Cloud : Type} `{!FleetProvider Cloud}.
Implicit Types (o : Orchestrator Cloud) (scan : ScanStatus.t).

Lemma UpdateWorkerProgress_absent o scanID workerID progress currentDomain :
  activeScans o !! scanID = None →
  UpdateWorkerProgress o scanID workerID progress currentDomain = o.
Proof. intros Habs. unfold UpdateWorkerProgress. by rewrite Habs. Qed.

Lemma UpdateWorkerProgress_other o scanID workerID progress currentDomain id :
  id ≠ scanID →
  activeScans (UpdateWorkerProgress o scanID workerID progress currentDomain) !! id
  = activeScans o !! id.
Proof.
  intros Hne. unfold UpdateWorkerProgress.
  destruct (activeScans o !! scanID); [|done]. cbn. by rewrite lookup_insert_ne.
Qed.

(** The scan after a progress update: the workers after the first loop,
    the mean of their progress when there is one, and nothing else
    changed. *)
Lemma UpdateWorkerProgress_present o scanID workerID progress currentDomain scan :
  activeScans o !! scanID = Some scan →
  let workers :=
    UpdateWorkerProgress_worker (ScanStatus.ActiveDroplets scan)
      workerID progress currentDomain in
  ∃ scan',
    activeScans (UpdateWorkerProgress o scanID workerID progress currentDomain) !! scanID
    = Some scan'
    ∧ scan' = ScanStatus.set_Progress (ScanStatus.Progress scan')
                (ScanStatus.set_ActiveDroplets workers scan)
    ∧ (workers ≠ [] →
       ScanStatus.Progress scan' = mean (WorkerStatus.Progress <$> workers))
    ∧ (workers = [] → ScanStatus.Progress scan' = ScanStatus.Progress scan).
Proof.
  intros Hscan workers. unfold UpdateWorkerProgress. rewrite Hscan. fold workers.
  destruct workers as [|w ws] eqn:Hw.
  - eexists. cbn. rewrite lookup_insert_eq. by destruct scan.
  - destruct (Z.ltb_spec 0 (len (w :: ws))) as [_|Hle];
      [|unfold len in Hle; cbn in Hle; lia].
    eexists. cbn [activeScans set_activeScans]. rewrite lookup_insert_eq.
    split; [done|]. rewrite mean_workers. by destruct scan.
Qed.

Lemma reachable_idle_scans_at_zero o : reachable o → idle_scans_at_zero o.
Proof.
  induction 1 as [client ip|o req uuid o' req' tasks err _ IH Hstart
                 |o scanID workerID ip totalDomains now _ IH
                 |o scanID workerID progress currentDomain _ IH
                 |o scanID result _ IH
                 |o scanID status _ IH Hstatus
                 |o scanID _ IH]; intros id scan Hid Hnone.
  - cbn in Hid. by rewrite lookup_empty in Hid.
  - unfold StartScan in Hstart.
    destruct (OptimizeDistribution _ _ _) as [[n chunks]|]; [|done].
    cbn in Hstart. injection Hstart as <- _ _ _. cbn in Hid.
    apply lookup_insert_Some in Hid as [[_ <-]|[_ Hid]]; [done|by eapply IH].
  - unfold waitForWorker_ready in Hid.
    destruct (activeScans o !! scanID) as [scan0|] eqn:Hscan; [|by eapply IH].
    cbn in Hid. apply lookup_insert_Some in Hid as [[_ <-]|[_ Hid]]; [|by eapply IH].
    cbn in Hnone. by destruct (ScanStatus.ActiveDroplets scan0).
  - destruct (decide (id = scanID)) as [->|Hne].
    + destruct (activeScans o !! scanID) as [scan0|] eqn:Hscan.
      * destruct (UpdateWorkerProgress_present o scanID workerID progress
                    currentDomain scan0 Hscan) as (scan' & Hscan' & Heq & _ & Hzero).
        rewrite Hscan' in Hid. injection Hid as ->.
        rewrite Heq in Hnone. cbn in Hnone. rewrite (Hzero Hnone).
        apply (IH scanID scan0 Hscan).
        apply (f_equal length) in Hnone.
        rewrite UpdateWorkerProgress_worker_length in Hnone.
        by destruct (ScanStatus.ActiveDroplets scan0).
      * rewrite UpdateWorkerProgress_absent in Hid by done. by eapply IH.
    + rewrite UpdateWorkerProgress_other in Hid by done. by eapply IH.
  - unfold AddResult in Hid.
    destruct (activeScans o !! scanID) as [scan0|] eqn:Hscan; [|by eapply IH].
    cbn in Hid. apply lookup_insert_Some in Hid as [[_ <-]|[_ Hid]]; [|by eapply IH].
    cbn in *. by eapply IH.
  - cbn in Hid. apply lookup_insert_Some in Hid as [[_ <-]|[_ Hid]]; [|by eapply IH].
    cbn in *. by eapply IH.
  - unfold CleanupScan in Hid.
    destruct (activeScans o !! scanID) as [scan0|] eqn:Hscan; [|by eapply IH].
    cbn in Hid. apply lookup_delete_Some in Hid as [_ Hid]. by eapply IH.
Qed.

(** C2. After [UpdateWorkerProgress] on a scan of the registry, whatever
    the state, the progress of the scan is the arithmetic mean of the
    progress of the workers it then has, when it has any. When it has
    none the call assigns nothing: the progress stays what it was, which
    is 0 in any state a run reaches. *)
Theorem UpdateWorkerProgress_mean o scanID workerID progress currentDomain scan :
  activeScans o !! scanID = Some scan →
  ∃ scan',
    activeScans (UpdateWorkerProgress o scanID workerID progress currentDomain) !! scanID
    = Some scan'
    ∧ (ScanStatus.ActiveDroplets scan' ≠ [] →
       ScanStatus.Progress scan'
       = mean (WorkerStatus.Progress <$> ScanStatus.ActiveDroplets scan'))
    ∧ (ScanStatus.ActiveDroplets scan' = [] →
       ScanStatus.Progress scan' = ScanStatus.Progress scan
       ∧ (reachable o → ScanStatus.Progress scan' = 0%float))
    ∧ (reachable o →
       ScanStatus.Progress scan'
       = mean (WorkerStatus.Progress <$> ScanStatus.ActiveDroplets scan')).
Proof.
  intros Hscan.
  destruct (UpdateWorkerProgress_present o scanID workerID progress currentDomain
              scan Hscan) as (scan' & Hscan' & Heq & Hmean & Hnone).
  exists scan'. split; [done|].
  assert (ScanStatus.ActiveDroplets scan'
          = UpdateWorkerProgress_worker (ScanStatus.ActiveDroplets scan)
              workerID progress currentDomain) as Hworkers by (by rewrite Heq).
  assert (reachable o → ScanStatus.ActiveDroplets scan' = [] →
          ScanStatus.Progress scan' = 0%float) as Hzero.
  { intros Hreach.
    apply (reachable_idle_scans_at_zero _
             (reachable_UpdateWorkerProgress o scanID workerID progress
                currentDomain Hreach) scanID scan' Hscan'). }
  split; [|split].
  - intros Hsome. rewrite Hworkers. apply Hmean. by rewrite <- Hworkers.
  - intros Hempty. split; [|by intros Hreach; apply Hzero].
    apply Hnone. by rewrite <- Hworkers.
  - intros Hreach. destruct (ScanStatus.ActiveDroplets scan') as [|w ws] eqn:Hw.
    + by apply Hzero.
    + rewrite Hworkers. apply Hmean. by rewrite <- Hworkers.
Qed.

(** C9. [UpdateWorkerProgress] for a scan that is not in the registry
    changes nothing; for a scan of the registry and a worker ID none of
    its workers has, the workers and every other field of the scan stay
    as they are, and the progress of the scan is again set to the mean
    over its workers (there being no assignment when it has none). *)
Theorem UpdateWorkerProgress_unknown o scanID workerID progress currentDomain :
  (activeScans o !! scanID = None →
     UpdateWorkerProgress o scanID workerID progress currentDomain = o)
  ∧ (∀ scan,
       activeScans o !! scanID = Some scan →
       (∀ worker, worker ∈ ScanStatus.ActiveDroplets scan →
                  WorkerStatus.ID worker ≠ workerID) →
       ∃ scan',
         activeScans (UpdateWorkerProgress o scanID workerID progress currentDomain)
           !! scanID = Some scan'
         ∧ ScanStatus.ActiveDroplets scan' = ScanStatus.ActiveDroplets scan
         ∧ scan' = ScanStatus.set_Progress (ScanStatus.Progress scan') scan
         ∧ (ScanStatus.ActiveDroplets scan ≠ [] →
            ScanStatus.Progress scan'
            = mean (WorkerStatus.Progress <$> ScanStatus.ActiveDroplets scan))
         ∧ (ScanStatus.ActiveDroplets scan = [] → scan' = scan)).
Proof.
  split; [apply UpdateWorkerProgress_absent|].
  intros scan Hscan Habs.
  destruct (UpdateWorkerProgress_present o scanID workerID progress currentDomain
              scan Hscan) as (scan' & Hscan' & Heq & Hmean & Hzero).
  rewrite UpdateWorkerProgress_worker_absent in * by done.
  exists scan'. split; [done|].
  assert (ScanStatus.set_ActiveDroplets (ScanStatus.ActiveDroplets scan) scan = scan)
    as Hid by (by destruct scan).
  rewrite Hid in Heq.
  split; [by rewrite Heq|]. split; [done|]. split; [done|].
  intros Hnone. rewrite Heq, (Hzero Hnone). by destruct scan.
Qed.

(** C5. [CleanupScan] returns no error and leaves no state of the scan in
    the registry; on a scan that is not in the registry it changes
    nothing, so that a second call after a first one is a no-op. *)
Theorem CleanupScan_idempotent o scanID :
  (CleanupScan o scanID).2 = None
  ∧ activeScans (CleanupScan o scanID).1 !! scanID = None
  ∧ (activeScans o !! scanID = None → CleanupScan o scanID = (o, None))
  ∧ CleanupScan (CleanupScan o scanID).1 scanID = ((CleanupScan o scanID).1, None).
Proof.
  assert (∀ o', activeScans o' !! scanID = None → CleanupScan o' scanID = (o', None))
    as Habsent by (intros o' Hnone; unfold CleanupScan; by rewrite Hnone).
  assert (activeScans (CleanupScan o scanID).1 !! scanID = None) as Hgone.
  { unfold CleanupScan. destruct (activeScans o !! scanID) eqn:Hscan; cbn; [|done].
    apply lookup_delete_eq. }
  split; [|split; [done|split; [apply Habsent|by apply Habsent]]].
  unfold CleanupScan. by destruct (activeScans o !! scanID).
Qed.

End status_store.

(** ** Event fanout *)

Lemma RegisterClient_inv wsm scanID conn :
  wsm_inv wsm → wsm_inv (RegisterClient wsm scanID conn).
Proof.
  intros [Hopen Hinj Hcl]. unfold RegisterClient.
  destruct (clients wsm !! scanID) as [conns|] eqn:Hconns; cbn.
  - split; cbn; [done|done|].
    intros id Hid. apply Hcl. rewrite lookup_alter in Hid.
    case_decide; subst; [by rewrite Hconns|done].
  - split; cbn.
    + intros id a Ha. apply lookup_insert_Some in Ha as [[<- <-]|[Hne Ha]].
      * split; [lia|]. eexists. by rewrite lookup_insert_eq.
      * destruct (Hopen id a Ha) as [Hlt Hch]. split; [lia|].
        rewrite lookup_insert_ne by lia. done.
    + intros id1 id2 a H1 H2.
      apply lookup_insert_Some in H1 as [[<- <-]|[Hne1 H1]];
        apply lookup_insert_Some in H2 as [[<- E]|[Hne2 H2]]; try done.
      * destruct (Hopen id2 _ H2) as [Hlt _]. lia.
      * subst a. destruct (Hopen id1 _ H1) as [Hlt _]. lia.
      * by eapply Hinj.
    + intros id Hid. rewrite lookup_alter in Hid.
      destruct (decide (id = scanID)) as [->|Hne].
      * rewrite lookup_insert_eq. eauto.
      * rewrite lookup_insert_ne by done. apply Hcl.
        rewrite decide_False in Hid by done.
        by rewrite lookup_insert_ne in Hid.
Qed.

Lemma UnregisterClient_inv wsm scanID conn wsm' :
  wsm_inv wsm → UnregisterClient wsm scanID conn = Some wsm' → wsm_inv wsm'.
Proof.
  intros [Hopen Hinj Hcl]. unfold UnregisterClient.
  destruct (clients wsm !! scanID) as [conns|] eqn:Hconns; [|by intros [= <-]].
  destruct (decide (conn ∈ conns)); [|by intros [= <-]].
  destruct (decide (size (conns ∖ {[conn]}) = 0%nat)).
  - unfold close. destruct (broadcast wsm !! scanID) as [a|] eqn:Ha; [|done]. step.
    destruct (chans wsm !! a) as [ch|] eqn:Hch; [|done]. step.
    destruct (chan_closed ch); [done|]. step. intros [= <-]. split; cbn.
    + intros id a' Ha'. apply lookup_delete_Some in Ha' as [Hne Ha'].
      destruct (Hopen id a' Ha') as [Hlt Hch']. split; [done|].
      rewrite lookup_insert_ne; [done|]. intros ->. apply Hne.
      eapply Hinj; eassumption.
    + intros id1 id2 a' H1 H2.
      apply lookup_delete_Some in H1 as [_ H1].
      apply lookup_delete_Some in H2 as [_ H2]. by eapply Hinj.
    + intros id Hid. destruct (decide (id = scanID)) as [->|Hne].
      * rewrite lookup_delete_eq in Hid. by destruct Hid.
      * rewrite lookup_delete_ne in Hid by done.
        rewrite lookup_delete_ne by done. by apply Hcl.
  - intros [= <-]. split; cbn; [done|done|].
    intros id Hid. apply Hcl. destruct (decide (id = scanID)) as [->|Hne].
    + by rewrite Hconns.
    + by rewrite lookup_insert_ne in Hid.
Qed.

Lemma BroadcastToScan_inv wsm scanID message wsm' :
  wsm_inv wsm → BroadcastToScan wsm scanID message = Some wsm' → wsm_inv wsm'.
Proof.
  intros [Hopen Hinj Hcl]. unfold BroadcastToScan.
  destruct (broadcast wsm !! scanID) as [a|] eqn:Ha; [|by intros [= <-]].
  destruct (chans wsm !! a) as [ch|] eqn:Hch; [|by intros [= <-]].
  destruct (chan_closed ch); [done|].
  destruct (len (chan_buf ch) <? chan_cap); [|by intros [= <-]].
  intros [= <-]. split; cbn; [|done|done].
  intros id a' Ha'. destruct (Hopen id a' Ha') as [Hlt Hch']. split; [done|].
  destruct (decide (a' = a)) as [->|Hne].
  - rewrite lookup_insert_eq. eauto.
  - by rewrite lookup_insert_ne.
Qed.

Lemma chan_receive_inv wsm a message wsm' :
  wsm_inv wsm → chan_receive wsm a = Some (message, wsm') → wsm_inv wsm'.
Proof.
  intros [Hopen Hinj Hcl]. unfold chan_receive.
  destruct (chans wsm !! a) as [ch|] eqn:Hch; [|done]. step.
  destruct (chan_buf ch) as [|m rest]; [done|].
  intros [= _ <-]. split; cbn; [|done|done].
  intros id a' Ha'. destruct (Hopen id a' Ha') as [Hlt (ch' & Hch' & Hclosed)].
  split; [done|]. destruct (decide (a' = a)) as [->|Hne].
  - rewrite lookup_insert_eq. eexists. split; [done|]. cbn. congruence.
  - rewrite lookup_insert_ne by done. eauto.
Qed.

Lemma wsm_reachable_inv wsm : wsm_reachable wsm → wsm_inv wsm.
Proof.
  induction 1 as [|wsm scanID conn _ IH|wsm scanID conn wsm' _ IH Hun
                 |wsm scanID message wsm' _ IH Hbc|wsm a message wsm' _ IH Hrecv].
  - split; cbn; intros *; rewrite ?lookup_empty; try done.
  - by apply RegisterClient_inv.
  - by eapply UnregisterClient_inv.
  - by eapply BroadcastToScan_inv.
  - by eapply chan_receive_inv.
Qed.

Lemma BroadcastToScan_no_queue wsm scanID message :
  broadcast wsm !! scanID = None → BroadcastToScan wsm scanID message = Some wsm.
Proof. intros Hnone. unfold BroadcastToScan. by rewrite Hnone. Qed.

Lemma BroadcastAll_no_queue wsm scanID messages :
  broadcast wsm !! scanID = None → BroadcastAll wsm scanID messages = Some wsm.
Proof.
  intros Hnone. induction messages as [|m ms IH]; cbn; [done|].
  by rewrite BroadcastToScan_no_queue.
Qed.

(** C8. In a state a run reaches, unregistering the only connection of a
    scan removes the clients of the scan and its queue, which it closes;
    every publication to the scan from then on returns normally and
    leaves the manager as it is. *)
Theorem UnregisterClient_last wsm scanID conn :
  wsm_reachable wsm →
  clients wsm !! scanID = Some {[conn]} →
  ∃ wsm' a ch,
    UnregisterClient wsm scanID conn = Some wsm'
    ∧ clients wsm' !! scanID = None
    ∧ broadcast wsm' !! scanID = None
    ∧ broadcast wsm !! scanID = Some a
    ∧ chans wsm' !! a = Some ch ∧ chan_closed ch = true
    ∧ (∀ message, BroadcastToScan wsm' scanID message = Some wsm')
    ∧ (∀ messages, BroadcastAll wsm' scanID messages = Some wsm').
Proof.
  intros Hreach Hconns. destruct (wsm_reachable_inv wsm Hreach) as [Hopen _ Hcl].
  destruct (Hcl scanID) as [a Ha]; [by rewrite Hconns|].
  destruct (Hopen scanID a Ha) as [_ (ch & Hch & Hclosed)].
  unfold UnregisterClient. rewrite Hconns.
  rewrite decide_True by (by apply elem_of_singleton).
  rewrite difference_diag_L, decide_True by apply size_empty.
  unfold close. rewrite Ha. step. rewrite Hch. step. rewrite Hclosed. step.
  eexists _, a, _. split; [done|]. cbn.
  rewrite !lookup_delete_eq, lookup_insert_eq.
  repeat split; try done.
  - intros message. apply BroadcastToScan_no_queue. cbn. apply lookup_delete_eq.
  - intros messages. apply BroadcastAll_no_queue. cbn. apply lookup_delete_eq.
Qed.

(** ** Handlers *)

Lemma OptimizeDistribution_total domains r :
  len domains ≤ Int.max_int →
  is_Some (OptimizeDistribution NewScanOptimizer domains r).
Proof.
  intros Hlen. destruct (decide (domains = [])) as [->|Hne]; [by eexists|].
  destruct (OptimizeDistribution_nonempty domains r Hne Hlen)
    as (n & chunks & _ & _ & -> & _). eauto.
Qed.

Section handler_properties.
Context {Cloud : Type} `{!FleetProvider Cloud} `{!StringsPkg}.
Implicit Types (h : Handler Cloud) (o : Orchestrator Cloud).

Lemma StartScan_ok o req uuid :
  len (ScanRequest.Domains req) ≤ Int.max_int →
  ∃ o' req' tasks,
    StartScan o req uuid = Some (o', req', tasks, None)
    ∧ ScanRequest.ID req'
      = (if decide (ScanRequest.ID req = "") then uuid else ScanRequest.ID req)
    ∧ ScanRequest.Domains req' = ScanRequest.Domains req
    ∧ is_Some (activeScans o' !! ScanRequest.ID req').
Proof.
  intros Hlen. unfold StartScan.
  set (req' := if decide (ScanRequest.ID req = "") then _ else req).
  assert (ScanRequest.Domains req' = ScanRequest.Domains req
          ∧ ScanRequest.Droplets req' = ScanRequest.Droplets req
          ∧ ScanRequest.ID req'
            = (if decide (ScanRequest.ID req = "") then uuid else ScanRequest.ID req))
    as (Hd & Hn & Hi) by (unfold req'; by destruct (decide _)).
  rewrite Hd, Hn.
  destruct (OptimizeDistribution_total (ScanRequest.Domains req)
              (ScanRequest.Droplets req) Hlen) as [[n chunks] ->].
  step. eexists _, req', _. split; [done|]. split; [done|]. split; [done|].
  cbn. rewrite lookup_insert_eq. eauto.
Qed.

Lemma cleanDomains_length domains : len (cleanDomains domains) ≤ len domains.
Proof.
  unfold len. induction domains as [|d ds IH]; cbn; [done|].
  destruct (decide (strings_TrimSpace d ≠ "")); cbn; lia.
Qed.

Lemma cleanDomains_blank domains :
  (∀ d, d ∈ domains → strings_TrimSpace d = "") → cleanDomains domains = [].
Proof.
  induction domains as [|d ds IH]; intros Hblank; cbn; [done|].
  rewrite decide_False by (intros Hne; apply Hne, Hblank; left).
  apply IH. intros d' Hd'. apply Hblank. by right.
Qed.

Lemma cleanDomains_some domains :
  (∃ d, d ∈ domains ∧ strings_TrimSpace d ≠ "") → cleanDomains domains ≠ [].
Proof.
  intros (d & Hd & Hne). induction Hd as [d ds|d d' ds _ IH]; cbn.
  - by rewrite decide_True.
  - destruct (decide (strings_TrimSpace d' ≠ "")); [done|by apply IH].
Qed.

(** C6. A bound request whose domains are all blank once trimmed (an
    empty list among them) is answered with status 400 and an error, the
    handler is left as it was and no provisioning task is started; a
    request with a domain that is not blank is answered with status 200
    and the ID under which the scan is now registered. *)
Theorem Handler_StartScan_validation h req uuid uuid' :
  len (ScanRequest.Domains req) ≤ Int.max_int →
  ((∀ d, d ∈ ScanRequest.Domains req → strings_TrimSpace d = "") →
     ∃ msg,
       Handler_StartScan h (inr req) uuid uuid'
       = Some (h, JSON 400 [("error", JString msg)], []))
  ∧ ((∃ d, d ∈ ScanRequest.Domains req ∧ strings_TrimSpace d ≠ "") →
     ∃ h' tasks,
       let id := if decide (uuid = "") then uuid' else uuid in
       Handler_StartScan h (inr req) uuid uuid'
       = Some (h',
               JSON 200 [("scan_id", JString id);
                         ("message", JString "Scan started successfully");
                         ("domains_count",
                          JInt (len (cleanDomains (ScanRequest.Domains req))))],
               tasks)
       ∧ is_Some (activeScans (orchestrator h') !! id)
       ∧ wsManager h' = wsManager h).
Proof.
  intros Hlen. split.
  - intros Hblank. unfold Handler_StartScan.
    destruct (Z.eqb_spec (len (ScanRequest.Domains req)) 0); [by eexists|].
    rewrite cleanDomains_blank by done. cbn. by eexists.
  - intros Hsome. unfold Handler_StartScan.
    pose proof (cleanDomains_some _ Hsome) as Hclean.
    pose proof (cleanDomains_length (ScanRequest.Domains req)) as Hcl.
    destruct (Z.eqb_spec (len (ScanRequest.Domains req)) 0) as [Hz|_].
    { destruct (cleanDomains (ScanRequest.Domains req)); [done|].
      unfold len in *. cbn in *. lia. }
    destruct (Z.eqb_spec (len (cleanDomains (ScanRequest.Domains req))) 0) as [Hz|_].
    { destruct (cleanDomains (ScanRequest.Domains req)); [done|].
      unfold len in *. cbn in *. lia. }
    set (req1 := {| ScanRequest.ID := uuid;
                    ScanRequest.Domains := cleanDomains (ScanRequest.Domains req);
                    ScanRequest.Droplets := ScanRequest.Droplets req;
                    ScanRequest.Status := ScanRequest.Status req |}).
    destruct (StartScan_ok (orchestrator h) req1 uuid')
      as (o' & req' & tasks & -> & Hid & Hdom & Hreg); [cbn; lia|].
    step. cbn in Hid, Hdom. rewrite Hid in Hreg. rewrite Hid, Hdom.
    eexists _, tasks. cbn. done.
Qed.

(** C7, as the code has it. On a scan whose queue is open and has room:
    [CompleteWorker], when it finds every worker of the scan complete,
    queues one message of type [scan_complete] and schedules the cleanup;
    [ReceiveResults] queues one message of type [new_result];
    [WorkerHeartbeat] on a scan of the registry queues one message of
    type [status_update]. *)
Theorem live_feed_event_types h scanID workerID ch :
  scan_chan (wsManager h) scanID = Some ch →
  chan_closed ch = false →
  len (chan_buf ch) < chan_cap →
  (∀ status,
     GetScanStatus
       (UpdateWorkerProgress (orchestrator h) scanID workerID 100 "completed") scanID
     = Some status →
     allComplete (ScanStatus.ActiveDroplets status) = true →
     completion_event_is "scan_complete" h scanID workerID
     ∧ ∃ h', CompleteWorker h scanID workerID
             = Some (h', JSON 200 [("status", JString "completed")], true))
  ∧ (∀ result now,
       ∃ h', ReceiveResults h scanID workerID (inr result) now
             = Some (h', JSON 200 [("status", JString "received")])
             ∧ queued_types (wsManager h') scanID
               = queued_types (wsManager h) scanID ++ ["new_result"])
  ∧ (∀ heartbeat,
       is_Some (activeScans (orchestrator h) !! scanID) →
       ∃ h', WorkerHeartbeat h scanID workerID (inr heartbeat)
             = Some (h', JSON 200 [("status", JString "updated")])
             ∧ queued_types (wsManager h') scanID
               = queued_types (wsManager h) scanID ++ ["status_update"]).
Proof.
  intros Hch Hopen Hroom.
  assert (∀ message,
            ∃ wsm', BroadcastToScan (wsManager h) scanID message = Some wsm'
                    ∧ queued_types wsm' scanID
                      = queued_types (wsManager h) scanID
                        ++ [WebSocketMessage.Type_ message]) as Hpub.
  { intros message. unfold BroadcastToScan, queued_types, scan_chan in *.
    destruct (broadcast (wsManager h) !! scanID) as [a|] eqn:Ha; [|done].
    cbn in Hch. rewrite Hch, Hopen.
    destruct (Z.ltb_spec (len (chan_buf ch)) chan_cap); [|lia].
    eexists. split; [done|]. cbn. rewrite Ha. cbn. rewrite lookup_insert_eq. cbn.
    by rewrite Hch, fmap_app. }
  split; [|split].
  - intros status Hstatus Hall.
    assert (∃ h', CompleteWorker h scanID workerID
                  = Some (h', JSON 200 [("status", JString "completed")], true)
                  ∧ queued_types (wsManager h') scanID
                    = queued_types (wsManager h) scanID ++ ["scan_complete"])
      as (h' & Hrun & Hq).
    { unfold CompleteWorker. rewrite Hstatus, Hall.
      match goal with
      | |- context [BroadcastToScan _ _ ?m] => destruct (Hpub m) as (wsm' & -> & Hq)
      end.
      step. eexists. split; [done|]. done. }
    split; [|exists h'; exact Hrun].
    intros h'' response Hrun'. rewrite Hrun in Hrun'. by injection Hrun' as <- _.
  - intros result now. unfold ReceiveResults.
    match goal with
    | |- context [BroadcastToScan _ _ ?m] => destruct (Hpub m) as (wsm' & -> & Hq)
    end.
    step. eexists. split; [done|]. done.
  - intros heartbeat [scan Hscan]. unfold WorkerHeartbeat, GetScanStatus.
    destruct (UpdateWorkerProgress_present (orchestrator h) scanID workerID
                (hb_Progress heartbeat) (hb_CurrentDomain heartbeat) scan Hscan)
      as (scan' & -> & _).
    match goal with
    | |- context [BroadcastToScan _ _ ?m] => destruct (Hpub m) as (wsm' & -> & Hq)
    end.
    step. eexists. split; [done|]. done.
Qed.
End handler_properties.

Example sample_completion :
  Sim.completion Sim.handler Sim.scan_id "3f2b8c1e-worker-0"
  = Some (["scan_complete"]%string, true).
Proof. vm_compute. reflexivity. Qed.

(** C7, as stated: the completion event of the sample scan is not of type
    [job_complete]. *)
Lemma completion_event_is_not_job_complete :
  ¬ completion_event_is "job_complete" Sim.handler Sim.scan_id "3f2b8c1e-worker-0".
Proof.
  intros Hclaim. pose proof sample_completion as Hrun. unfold Sim.completion in Hrun.
  destruct (CompleteWorker Sim.handler Sim.scan_id "3f2b8c1e-worker-0")
    as [[[h' response] cleanup]|] eqn:Hcw; [|done].
  injection Hrun as Hq ->. specialize (Hclaim h' response Hcw).
  rewrite Hq in Hclaim. vm_compute in Hclaim. discriminate Hclaim.
Qed.

(** ** The properties on the sample data *)

#[local] Existing Instances Sim.provider Sim.trim.

Example sample_plan_1000 :
  plan_sizes (OptimizeDistribution NewScanOptimizer (replicate 1000 "d"%string) 1)
  = Some (2, [500; 500]%nat).
Proof. vm_compute. reflexivity. Qed.

(** The check against the maximum per node compares the rounded-down
    share: the first chunk can hold one domain more. *)
Example sample_plan_1001 :
  plan_sizes (OptimizeDistribution NewScanOptimizer (replicate 1001 "d"%string) 2)
  = Some (2, [501; 500]%nat).
Proof. vm_compute. reflexivity. Qed.

(** 120 domains over 3 nodes would be 40 per node, below the minimum of
    50: the count is lowered to 2. *)
Example sample_plan_120 :
  plan_sizes (OptimizeDistribution NewScanOptimizer (replicate 120 "d"%string) 3)
  = Some (2, [60; 60]%nat).
Proof. vm_compute. reflexivity. Qed.

(** With all bounds 0 the count computation divides by zero, and the
    empty list is still planned. *)
Example sample_plan_zero_bounds :
  let so := {| MaxDomainsPerDroplet := 0; MinDomainsPerDroplet := 0;
               MaxDroplets := 0; MinDroplets := 0 |} in
  calculateOptimalDroplets so 3 2 = None
  ∧ OptimizeDistribution so [] 2 = Some (0, []).
Proof. vm_compute. done. Qed.

Example sample_progress :
  ScanStatus.Progress <$> activeScans (orchestrator Sim.handler) !! Sim.scan_id
  = Some 50%float.
Proof. vm_compute. reflexivity. Qed.

Example sample_of_int :
  F64.of_int 2 = 2%float ∧ F64.of_int (-7) = (-7)%float
  ∧ F64.of_int (2 ^ 53 + 1) = 9007199254740992%float
  ∧ F64.to_int 2.75 = 2 ∧ F64.to_int (-2.75) = -2.
Proof. vm_compute. done. Qed.

Example sample_unknown_scan :
  UpdateWorkerProgress Sim.orch "no-such-scan" "3f2b8c1e-worker-0" 40 "d3.com" = Sim.orch.
Proof. reflexivity. Qed.

Example sample_unknown_worker :
  (λ scan, (ScanStatus.Progress scan,
            WorkerStatus.Progress <$> ScanStatus.ActiveDroplets scan)) <$>
    activeScans (UpdateWorkerProgress (orchestrator Sim.handler) Sim.scan_id
                   "no-such-worker" 40 "d3.com") !! Sim.scan_id
  = Some (50%float, [0%float; 100%float]).
Proof. vm_compute. reflexivity. Qed.

Example sample_trim :
  cleanDomains ["  a.com "; "   "; ""; "b.com"]%string = ["a.com"; "b.com"]%string.
Proof. vm_compute. reflexivity. Qed.

(** The completion event of the sample scan reaches its subscriber. *)
Example sample_delivery :
  match CompleteWorker Sim.handler Sim.scan_id "3f2b8c1e-worker-0" with
  | Some (h, _, _) =>
      match handleBroadcast_step (λ _, true) (wsManager h) Sim.scan_id 0 with
      | Some (_, sent) => Some (prod_map id WebSocketMessage.Type_ <$> sent)
      | None => None
      end
  | None => None
  end = Some [(7%nat, "scan_complete"%string)].
Proof. vm_compute. reflexivity. Qed.

Example sample_cleanup :
  doClient (CleanupScan Sim.orch Sim.scan_id).1 = []
  ∧ activeScans (CleanupScan Sim.orch Sim.scan_id).1 !! Sim.scan_id = None.
Proof. vm_compute. done. Qed.

Lemma sample_started_reachable : reachable Sim.started.
Proof.
  unfold Sim.started.
  destruct (StartScan (New Sim.cloud "192.0.2.1") Sim.request "")
    as [[[[o req] tasks] err]|] eqn:Hstart; [|apply reachable_New].
  eapply reachable_StartScan; [apply reachable_New|exact Hstart].
Qed.

Lemma sample_orch_reachable : reachable Sim.orch.
Proof. do 2 apply reachable_waitForWorker. apply sample_started_reachable. Qed.

Lemma sample_wsm_reachable : wsm_reachable (wsManager Sim.handler).
Proof. apply wsm_reachable_RegisterClient, wsm_reachable_New. Qed.

Lemma UpdateWorkerProgress_mean_witness :
  ∃ scan,
    activeScans Sim.orch !! Sim.scan_id = Some scan
    ∧ ∃ scan',
        activeScans
          (UpdateWorkerProgress Sim.orch Sim.scan_id "3f2b8c1e-worker-0" 40 "d3.com")
          !! Sim.scan_id = Some scan'
        ∧ (ScanStatus.ActiveDroplets scan' ≠ [] →
           ScanStatus.Progress scan'
           = mean (WorkerStatus.Progress <$> ScanStatus.ActiveDroplets scan'))
        ∧ (ScanStatus.ActiveDroplets scan' = [] →
           ScanStatus.Progress scan' = ScanStatus.Progress scan
           ∧ (reachable Sim.orch → ScanStatus.Progress scan' = 0%float))
        ∧ (reachable Sim.orch →
           ScanStatus.Progress scan'
           = mean (WorkerStatus.Progress <$> ScanStatus.ActiveDroplets scan')).
Proof.
  eexists. split; [vm_compute; reflexivity|].
  apply (UpdateWorkerProgress_mean Sim.orch Sim.scan_id "3f2b8c1e-worker-0" 40 "d3.com").
  vm_compute. reflexivity.
Defined.

Lemma plan_bounds_witness :
  ∃ n chunks,
    OptimizeDistribution NewScanOptimizer ten_domains 7 = Some (n, chunks)
    ∧ MinDroplets NewScanOptimizer ≤ n ≤ MaxDroplets NewScanOptimizer
    ∧ Forall (λ chunk, 0 ≤ len chunk) chunks
    ∧ (len ten_domains
       ≤ MaxDomainsPerDroplet NewScanOptimizer * MaxDroplets NewScanOptimizer →
       ∀ i chunk, chunks !! i = Some chunk → len ten_domains `rem` n ≤ Z.of_nat i →
         len chunk ≤ MaxDomainsPerDroplet NewScanOptimizer).
Proof.
  apply (plan_bounds ten_domains 7); [discriminate|vm_compute; discriminate].
Defined.

Lemma Handler_StartScan_validation_witness :
  let req := {| ScanRequest.ID := ""; ScanRequest.Domains := [" a.com "; "  "]%string;
                ScanRequest.Droplets := 1; ScanRequest.Status := "" |} in
  let h := Sim.handler in
  ((∀ d, d ∈ ScanRequest.Domains req → strings_TrimSpace d = "") →
     ∃ msg,
       Handler_StartScan h (inr req) "5c0e" "9d1f"
       = Some (h, JSON 400 [("error", JString msg)], []))
  ∧ ((∃ d, d ∈ ScanRequest.Domains req ∧ strings_TrimSpace d ≠ "") →
     ∃ h' tasks,
       let id := if decide ("5c0e"%string = "") then "9d1f"%string else "5c0e"%string in
       Handler_StartScan h (inr req) "5c0e" "9d1f"
       = Some (h',
               JSON 200 [("scan_id", JString id);
                         ("message", JString "Scan started successfully");
                         ("domains_count",
                          JInt (len (cleanDomains (ScanRequest.Domains req))))],
               tasks)
       ∧ is_Some (activeScans (orchestrator h') !! id)
       ∧ wsManager h' = wsManager h).
Proof.
  intros req h.
  apply (Handler_StartScan_validation h req "5c0e" "9d1f").
  vm_compute. discriminate.
Defined.

Lemma live_feed_event_types_witness :
  let h := Sim.handler in
  let scanID := Sim.scan_id in
  let workerID := "3f2b8c1e-worker-0"%string in
  (∀ status,
     GetScanStatus
       (UpdateWorkerProgress (orchestrator h) scanID workerID 100 "completed") scanID
     = Some status →
     allComplete (ScanStatus.ActiveDroplets status) = true →
     completion_event_is "scan_complete" h scanID workerID
     ∧ ∃ h', CompleteWorker h scanID workerID
             = Some (h', JSON 200 [("status", JString "completed")], true))
  ∧ (∀ result now,
       ∃ h', ReceiveResults h scanID workerID (inr result) now
             = Some (h', JSON 200 [("status", JString "received")])
             ∧ queued_types (wsManager h') scanID
               = queued_types (wsManager h) scanID ++ ["new_result"])
  ∧ (∀ heartbeat,
       is_Some (activeScans (orchestrator h) !! scanID) →
       ∃ h', WorkerHeartbeat h scanID workerID (inr heartbeat)
             = Some (h', JSON 200 [("status", JString "updated")])
             ∧ queued_types (wsManager h') scanID
               = queued_types (wsManager h) scanID ++ ["status_update"]).
Proof.
  intros h scanID workerID.
  apply (live_feed_event_types h scanID workerID {| chan_buf := []; chan_closed := false |}).
  - vm_compute. reflexivity.
  - reflexivity.
  - vm_compute. reflexivity.
Defined.

Lemma UnregisterClient_last_witness :
  ∃ wsm' a ch,
    UnregisterClient (wsManager Sim.handler) Sim.scan_id 7%nat = Some wsm'
    ∧ clients wsm' !! Sim.scan_id = None
    ∧ broadcast wsm' !! Sim.scan_id = None
    ∧ broadcast (wsManager Sim.handler) !! Sim.scan_id = Some a
    ∧ chans wsm' !! a = Some ch ∧ chan_closed ch = true
    ∧ (∀ message, BroadcastToScan wsm' Sim.scan_id message = Some wsm')
    ∧ (∀ messages, BroadcastAll wsm' Sim.scan_id messages = Some wsm').
Proof.
  apply (UnregisterClient_last (wsManager Sim.handler) Sim.scan_id 7%nat).
  - apply sample_wsm_reachable.
  - vm_compute. reflexivity.
Defined.

Lemma planner_never_divides_by_zero_witness :
  (ten_domains ≠ [] →
     ∃ n, calculateOptimalDroplets NewScanOptimizer (len ten_domains) (-3) = Some n
          ∧ 1 ≤ MinDroplets NewScanOptimizer ≤ n
          ∧ is_Some (Int.div (len ten_domains) n)
          ∧ is_Some (Int.rem (len ten_domains) n)
          ∧ is_Some (createChunks NewScanOptimizer ten_domains n))
  ∧ (∀ so, OptimizeDistribution so [] (-3) = Some (0, []))
  ∧ is_Some (OptimizeDistribution NewScanOptimizer ten_domains (-3)).
Proof.
  apply (planner_never_divides_by_zero ten_domains (-3)). vm_compute. discriminate.
Defined.

(** * Further properties *)

(** ** Distribution planner *)

Lemma calculateOptimalDroplets_planned total r :
  0 < total ≤ Int.max_int - 499 →
  calculateOptimalDroplets NewScanOptimizer total r = Some (planned_count total r)
  ∧ 1 ≤ planned_count total r ≤ 5.
Proof.
  intros Ht. unfold calculateOptimalDroplets, planned_count.
  cbn [NewScanOptimizer MaxDomainsPerDroplet MinDomainsPerDroplet MaxDroplets MinDroplets].
  fold (clamp r). pose proof (clamp_range r) as Hc.
  generalize dependent (clamp r). intros o1 Ho1.
  destruct (div_nonneg_pos total o1) as [-> Hq1]; [int_lia..|]. step.
  assert (1 ≤ (total + 499) `quot` 500 ∧ (total + 499) `quot` 500 ≤ total) as Hup
    by int_lia.
  assert (Int.div (Int.sub (Int.add total 500) 1) 500 = Some ((total + 499) `quot` 500))
    as Hdiv.
  { rewrite wrap_add_sub. replace (total + 500 - 1) with (total + 499) by lia.
    rewrite wrap_id by int_lia.
    by destruct (div_nonneg_pos (total + 499) 500) as [-> _]; [int_lia..|]. }
  set (o2 := if 500 <? total `quot` o1 then Z.min 5 ((total + 499) `quot` 500) else o1).
  assert ((if 500 <? total `quot` o1
           then Int.div (Int.sub (Int.add total 500) 1) 500
                ≫= λ optimalDroplets : Z,
                     Some (if 5 <? optimalDroplets then 5 else optimalDroplets)
           else Some o1) = Some o2 ∧ 1 ≤ o2 ≤ 5) as [-> Ho2].
  { unfold o2. destruct (500 <? total `quot` o1); [|done].
    rewrite Hdiv. step. destruct (Z.ltb_spec 5 ((total + 499) `quot` 500)).
    - by rewrite Z.min_l by lia.
    - rewrite Z.min_r by lia. split; [done|lia]. }
  step. clearbody o2. clear Hq1 Hdiv.
  destruct (Z.ltb_spec 50 total) as [Hlo|Hlo]; cbn [andb]; [|done].
  destruct (div_nonneg_pos total o2) as [-> Hq2]; [int_lia..|]. step.
  destruct (Z.ltb_spec (total `quot` o2) 50) as [Hfew|Hfew]; [|done].
  destruct (div_nonneg_pos total 50) as [-> Hq3]; [int_lia..|]. step.
  assert (total < 250) by (clear Hq2; small_cases o2; int_lia).
  clear Hq2 Hfew Hup.
  assert (1 ≤ total `quot` 50 ≤ 5) by int_lia.
  destruct (Z.ltb_spec (total `quot` 50) 1); [lia|].
  rewrite Z.max_r by lia. done.
Qed.

Lemma OptimizeDistribution_planned domains r :
  domains ≠ [] → len domains ≤ Int.max_int - 499 →
  let n := planned_count (len domains) r in
  1 ≤ n ≤ 5
  ∧ ∃ chunks,
      OptimizeDistribution NewScanOptimizer domains r = Some (n, chunks)
      ∧ concat chunks = domains
      ∧ len chunks = n
      ∧ ∀ j chunk, chunks !! j = Some chunk →
          len chunk = len domains `quot` n
                      + (if Z.of_nat j <? len domains `rem` n then 1 else 0).
Proof.
  intros Hne Hlen n.
  assert (0 < len domains) as Hpos by (destruct domains; [done|unfold len; cbn; lia]).
  destruct (calculateOptimalDroplets_planned (len domains) r) as [Hn Hrange]; [lia|].
  fold n in Hn, Hrange. split; [done|].
  destruct (createChunks_spec NewScanOptimizer domains n) as (chunks & Hchunks & Hspec);
    [int_lia..|].
  exists chunks. split; [|done]. unfold OptimizeDistribution.
  destruct (Z.eqb_spec (len domains) 0); [lia|].
  rewrite Hn. step. by rewrite Hchunks.
Qed.

(** X1. [createChunks] with a node count from 1 up to [make_len_max]
    returns that many chunks, which make up the input in order and are
    balanced: a chunk is never larger than one before it, and at most
    one domain smaller. *)
Theorem createChunks_balanced so (domains : list string) n :
  len domains ≤ Int.max_int → 1 ≤ n ≤ make_len_max →
  ∃ chunks,
    createChunks so domains n = Some chunks
    ∧ len chunks = n
    ∧ concat chunks = domains
    ∧ ∀ i j ci cj,
        chunks !! i = Some ci → chunks !! j = Some cj → (i ≤ j)%nat →
        len cj ≤ len ci ≤ len cj + 1.
Proof.
  intros Hlen Hn.
  assert (1 ≤ n ≤ Int.max_int) as Hint by (unfold make_len_max in Hn; int_lia).
  destruct (createChunks_spec so domains n Hlen Hint) as (chunks & -> & Hcat & Hl & Hsz).
  exists chunks. split; [done|]. split; [done|]. split; [done|].
  intros i j ci cj Hi Hj Hij. rewrite (Hsz i ci Hi), (Hsz j cj Hj).
  destruct (Z.ltb_spec (Z.of_nat i) (len domains `rem` n));
    destruct (Z.ltb_spec (Z.of_nat j) (len domains `rem` n)); lia.
Qed.

Lemma createChunks_balanced_witness :
  ∃ chunks,
    createChunks NewScanOptimizer ten_domains 3 = Some chunks
    ∧ len chunks = 3
    ∧ concat chunks = ten_domains
    ∧ ∀ i j ci cj,
        chunks !! i = Some ci → chunks !! j = Some cj → (i ≤ j)%nat →
        len cj ≤ len ci ≤ len cj + 1.
Proof.
  apply (createChunks_balanced NewScanOptimizer ten_domains 3);
    [vm_compute; discriminate | vm_compute; split; discriminate].
Defined.

(** X2. For a node count of at most [make_len_max], [createChunks]
    panics exactly when the count is not positive: on 0 by the division,
    on a negative count by [make]. *)
Theorem createChunks_panics so (domains : list string) n :
  len domains ≤ Int.max_int → n ≤ make_len_max →
  createChunks so domains n = None ↔ n ≤ 0.
Proof.
  intros Hlen Hn. split.
  - intros Hnone. destruct (Z_le_gt_dec n 0) as [|Hpos]; [done|].
    destruct (createChunks_spec so domains n Hlen) as (chunks & Hsome & _);
      [unfold make_len_max in Hn; int_lia|].
    congruence.
  - intros Hle. unfold createChunks, Int.div, Int.rem.
    destruct (Z.eqb_spec n 0); [done|]. step.
    destruct (Z.ltb_spec n 0); [done|lia].
Qed.

Lemma createChunks_panics_witness :
  createChunks NewScanOptimizer ten_domains 0 = None ↔ 0 ≤ 0.
Proof.
  apply (createChunks_panics NewScanOptimizer ten_domains 0); vm_compute; discriminate.
Defined.

(** X3. A request between 1 and 5 nodes is kept as it is when the share
    of a node (rounded down) is at most 500 and, for more than 50
    domains, at least 50. *)
Theorem requested_count_kept (domains : list string) r :
  domains ≠ [] → len domains ≤ Int.max_int →
  1 ≤ r ≤ 5 →
  len domains `quot` r ≤ 500 →
  len domains ≤ 50 ∨ 50 ≤ len domains `quot` r →
  ∃ chunks, OptimizeDistribution NewScanOptimizer domains r = Some (r, chunks).
Proof.
  intros Hne Hlen Hr Hmax Hmin.
  destruct (OptimizeDistribution_nonempty domains r Hne Hlen)
    as (n & chunks & Hn & _ & Hplan & _).
  assert (n = r) as ->; [|by exists chunks].
  assert (0 < len domains) as Hpos by (destruct domains; [done|unfold len; cbn; lia]).
  revert Hn. unfold calculateOptimalDroplets.
  cbn [NewScanOptimizer MaxDomainsPerDroplet MinDomainsPerDroplet MaxDroplets MinDroplets].
  destruct (Z.ltb_spec 5 r); [lia|]. destruct (Z.ltb_spec r 1); [lia|].
  destruct (div_nonneg_pos (len domains) r) as [-> _]; [lia..|]. step.
  destruct (Z.ltb_spec 500 (len domains `quot` r)); [lia|]. step.
  destruct (Z.ltb_spec 50 (len domains)); [|congruence].
  destruct (div_nonneg_pos (len domains) r) as [-> _]; [lia..|]. step.
  destruct (Z.ltb_spec (len domains `quot` r) 50); [lia|congruence].
Qed.

Lemma requested_count_kept_witness :
  ∃ chunks, OptimizeDistribution NewScanOptimizer ten_domains 3 = Some (3, chunks).
Proof.
  apply (requested_count_kept ten_domains 3); vm_compute;
    first [discriminate | split; discriminate | left; discriminate].
Defined.

(** X4. With more than 2500 domains the planner uses 5 nodes whatever
    count is requested. *)
Theorem many_domains_use_five_nodes (domains : list string) r :
  2500 < len domains → len domains ≤ Int.max_int - 499 →
  ∃ chunks, OptimizeDistribution NewScanOptimizer domains r = Some (5, chunks).
Proof.
  intros Hmany Hlen.
  assert (domains ≠ []) as Hne by (intros ->; unfold len in Hmany; cbn in Hmany; lia).
  destruct (OptimizeDistribution_planned domains r Hne Hlen) as [_ (chunks & Hplan & _)].
  exists chunks. rewrite Hplan. do 2 f_equal.
  unfold planned_count. pose proof (clamp_range r) as Hc.
  generalize dependent (clamp r). intros o1 Ho1.
  assert ((if 500 <? len domains `quot` o1
           then Z.min 5 ((len domains + 499) `quot` 500) else o1) = 5) as ->.
  { destruct (Z.ltb_spec 500 (len domains `quot` o1)) as [Hq|Hq].
    - clear Hq. assert (5 < (len domains + 499) `quot` 500) by int_lia. lia.
    - small_cases o1; int_lia. }
  destruct (Z.ltb_spec 50 (len domains)); [|lia].
  destruct (Z.ltb_spec (len domains `quot` 5) 50); [int_lia|done].
Qed.

Lemma many_domains_use_five_nodes_witness :
  ∃ chunks,
    OptimizeDistribution NewScanOptimizer (replicate 2501 "d"%string) 1 = Some (5, chunks).
Proof.
  apply (many_domains_use_five_nodes (replicate 2501 "d"%string) 1);
    vm_compute; first [reflexivity | discriminate].
Defined.

(** X5. With more than 50 domains every chunk holds at least 50 of them:
    the minimum per node is enforced for every requested count. *)
Theorem chunks_hold_the_minimum (domains : list string) r :
  50 < len domains → len domains ≤ Int.max_int - 499 →
  ∃ n chunks,
    OptimizeDistribution NewScanOptimizer domains r = Some (n, chunks)
    ∧ Forall (λ chunk, MinDomainsPerDroplet NewScanOptimizer ≤ len chunk) chunks.
Proof.
  intros Hmany Hlen.
  assert (domains ≠ []) as Hne by (intros ->; unfold len in Hmany; cbn in Hmany; lia).
  destruct (OptimizeDistribution_planned domains r Hne Hlen)
    as [Hn (chunks & Hplan & _ & _ & Hsz)].
  eexists _, chunks. split; [done|].
  assert (50 ≤ len domains `quot` planned_count (len domains) r) as Hshare.
  { clear Hsz Hplan. revert Hn. unfold planned_count.
    pose proof (clamp_range r) as Hc. generalize dependent (clamp r). intros o1 Ho1.
    set (o2 := if 500 <? len domains `quot` o1 then _ else o1).
    assert (1 ≤ o2 ≤ 5) as Ho2.
    { unfold o2. destruct (500 <? len domains `quot` o1); [|done].
      assert (1 ≤ (len domains + 499) `quot` 500) by int_lia. lia. }
    clearbody o2. destruct (Z.ltb_spec 50 (len domains)); [|lia]. cbn [andb].
    destruct (Z.ltb_spec (len domains `quot` o2) 50) as [Hfew|Hfew]; [|done].
    intros _. assert (len domains < 250) by (small_cases o2; int_lia).
    clear Hfew. assert (1 ≤ len domains `quot` 50 ≤ 5) by int_lia.
    rewrite Z.max_r by lia. small_cases (len domains `quot` 50); int_lia. }
  apply Forall_lookup. intros j chunk Hj. rewrite (Hsz j chunk Hj). cbn.
  destruct (Z.ltb_spec (Z.of_nat j) (len domains `rem` planned_count (len domains) r)); lia.
Qed.

Lemma chunks_hold_the_minimum_witness :
  ∃ n chunks,
    OptimizeDistribution NewScanOptimizer (replicate 120 "d"%string) 5 = Some (n, chunks)
    ∧ Forall (λ chunk, MinDomainsPerDroplet NewScanOptimizer ≤ len chunk) chunks.
Proof.
  apply (chunks_hold_the_minimum (replicate 120 "d"%string) 5);
    vm_compute; first [reflexivity | discriminate].
Defined.

(** X6. With at most 50 domains the clamped request is kept even when it
    exceeds the number of domains: the plan then has more chunks than
    domains, and the chunks past the last domain are empty. *)
Theorem few_domains_leave_empty_chunks (domains : list string) r :
  domains ≠ [] → len domains ≤ 50 →
  ∃ chunks,
    OptimizeDistribution NewScanOptimizer domains r = Some (clamp r, chunks)
    ∧ len chunks = clamp r
    ∧ ∀ i chunk, chunks !! i = Some chunk → len domains ≤ Z.of_nat i → chunk = [].
Proof.
  intros Hne Hfew.
  assert (0 < len domains) as Hpos by (destruct domains; [done|unfold len; cbn; lia]).
  destruct (OptimizeDistribution_planned domains r Hne) as [_ (chunks & Hplan & _ & Hl & Hsz)];
    [int_lia|].
  assert (planned_count (len domains) r = clamp r) as Hn.
  { unfold planned_count. pose proof (clamp_range r) as Hc.
    generalize dependent (clamp r). intros o1 Ho1.
    assert (len domains `quot` o1 ≤ 50) by (small_cases o1; int_lia).
    destruct (Z.ltb_spec 500 (len domains `quot` o1)); [lia|].
    by destruct (Z.ltb_spec 50 (len domains)); [lia|]. }
  rewrite Hn in *. exists chunks. split; [done|]. split; [done|].
  intros i chunk Hi Hge. specialize (Hsz i chunk Hi).
  pose proof (lookup_lt_Some _ _ _ Hi) as Hlt. pose proof (clamp_range r) as Hc.
  assert (len chunk = 0) as Hz.
  { rewrite Hsz. unfold len in Hl. 
    assert (len domains < clamp r) by lia.
    generalize dependent (clamp r). intros n. intros.
    assert (len domains `quot` n = 0 ∧ len domains `rem` n = len domains) as [-> ->]
      by (clear Hsz; small_cases n; int_lia).
    destruct (Z.ltb_spec (Z.of_nat i) (len domains)); lia. }
  destruct chunk; [done|]. unfold len in Hz. cbn in Hz. lia.
Qed.

Lemma few_domains_leave_empty_chunks_witness :
  ∃ chunks,
    OptimizeDistribution NewScanOptimizer ["a.com"; "b.com"]%string 4
    = Some (clamp 4, chunks)
    ∧ len chunks = clamp 4
    ∧ ∀ i chunk, chunks !! i = Some chunk →
        len ["a.com"; "b.com"]%string ≤ Z.of_nat i → chunk = [].
Proof.
  apply (few_domains_leave_empty_chunks ["a.com"; "b.com"]%string 4);
    [discriminate | vm_compute; discriminate].
Defined.

(** ** Orchestrator *)

Lemma imap_task_domains_gen (id : string) (g : nat → Z) (chunks : list (list string)) :
  task_domains <$>
    imap (λ i chunk, {| task_scanID := id; task_index := g i;
                        task_domains := chunk |}) chunks
  = chunks.
Proof.
  revert g. induction chunks as [|c cs IH]; intros g; cbn; [done|].
  f_equal. apply (IH (g ∘ S)).
Qed.

Lemma imap_task_index_gen (id : string) (k : nat) (chunks : list (list string)) :
  task_index <$>
    imap (λ i chunk, {| task_scanID := id; task_index := Z.of_nat (k + i);
                        task_domains := chunk |}) chunks
  = Z.of_nat <$> seq k (length chunks).
Proof.
  revert k. induction chunks as [|c cs IH]; intros k; cbn; [done|].
  rewrite Nat.add_0_r. f_equal. rewrite <- IH. f_equal. apply imap_ext.
  intros i x _. cbn. do 2 f_equal. lia.
Qed.

Section orchestrator_more.
Context {Cloud : Type} `{!FleetProvider Cloud}.
Implicit Types (o : Orchestrator Cloud) (scan : ScanStatus.t).

(** X7. [StartScan] on a request whose domain list has an [int] length
    returns no error and registers, under the ID of the request (the
    fresh one when it had none), a scan in state [starting] with progress
    0, no worker and no result; the other scans and the provider are
    untouched. The tasks it starts carry that ID and the indices 0, 1,
    ... in order, their domains make up the domains of the request, and
    there are at most 5 of them. *)
Theorem StartScan_registers o req uuid :
  len (ScanRequest.Domains req) ≤ Int.max_int - 499 →
  ∃ o' req' tasks,
    StartScan o req uuid = Some (o', req', tasks, None)
    ∧ ScanRequest.ID req'
      = (if decide (ScanRequest.ID req = "") then uuid else ScanRequest.ID req)
    ∧ activeScans o' !! ScanRequest.ID req'
      = Some {| ScanStatus.ID := ScanRequest.ID req'; ScanStatus.Progress := 0;
                ScanStatus.ActiveDroplets := []; ScanStatus.Results := [];
                ScanStatus.TotalDomains := len (ScanRequest.Domains req);
                ScanStatus.ScannedDomains := 0;
                ScanStatus.Status := "starting" |}
    ∧ (∀ id, id ≠ ScanRequest.ID req' → activeScans o' !! id = activeScans o !! id)
    ∧ doClient o' = doClient o
    ∧ concat (task_domains <$> tasks) = ScanRequest.Domains req
    ∧ Forall (λ task, task_scanID task = ScanRequest.ID req') tasks
    ∧ task_index <$> tasks = Z.of_nat <$> seq 0 (length tasks)
    ∧ len tasks ≤ 5.
Proof.
  intros Hlen. unfold StartScan.
  set (req' := if decide (ScanRequest.ID req = "") then _ else req).
  assert (ScanRequest.Domains req' = ScanRequest.Domains req
          ∧ ScanRequest.Droplets req' = ScanRequest.Droplets req
          ∧ ScanRequest.ID req'
            = (if decide (ScanRequest.ID req = "") then uuid else ScanRequest.ID req))
    as (Hd & Hn & Hi) by (unfold req'; by destruct (decide _)).
  rewrite Hd, Hn.
  assert (∃ n chunks,
            OptimizeDistribution NewScanOptimizer (ScanRequest.Domains req)
              (ScanRequest.Droplets req) = Some (n, chunks)
            ∧ concat chunks = ScanRequest.Domains req ∧ len chunks ≤ 5)
    as (n & chunks & -> & Hcat & Hfive).
  { destruct (decide (ScanRequest.Domains req = [])) as [->|Hne].
    - exists 0, []. done.
    - destruct (OptimizeDistribution_planned _ (ScanRequest.Droplets req) Hne Hlen)
        as [Hr (chunks & Hplan & Hcat & Hl & _)].
      eexists _, chunks. split; [done|]. split; [done|lia]. }
  step. eexists _, req', _. split; [done|]. split; [done|]. cbn.
  rewrite lookup_insert_eq. split; [done|].
  split; [by intros id Hne; rewrite lookup_insert_ne|]. split; [done|].
  rewrite (imap_task_domains_gen _ Z.of_nat). split; [done|]. split; [|split].
  - apply Forall_forall. intros task Htask.
    apply list_elem_of_lookup in Htask as [i Htask].
    rewrite list_lookup_imap in Htask.
    destruct (chunks !! i); cbn in Htask; [|done]. by injection Htask as <-.
  - rewrite length_imap. apply (imap_task_index_gen _ 0).
  - unfold len in *. by rewrite length_imap.
Qed.

End orchestrator_more.

Lemma StartScan_registers_witness :
  ∃ o' req' tasks,
    StartScan (New Sim.cloud "192.0.2.1") Sim.request "" = Some (o', req', tasks, None)
    ∧ ScanRequest.ID req'
      = (if decide (ScanRequest.ID Sim.request = "") then ""
         else ScanRequest.ID Sim.request)
    ∧ activeScans o' !! ScanRequest.ID req'
      = Some {| ScanStatus.ID := ScanRequest.ID req'; ScanStatus.Progress := 0;
                ScanStatus.ActiveDroplets := []; ScanStatus.Results := [];
                ScanStatus.TotalDomains := len (ScanRequest.Domains Sim.request);
                ScanStatus.ScannedDomains := 0;
                ScanStatus.Status := "starting" |}
    ∧ (∀ id, id ≠ ScanRequest.ID req' →
         activeScans o' !! id = activeScans (New Sim.cloud "192.0.2.1") !! id)
    ∧ doClient o' = doClient (New Sim.cloud "192.0.2.1")
    ∧ concat (task_domains <$> tasks) = ScanRequest.Domains Sim.request
    ∧ Forall (λ task, task_scanID task = ScanRequest.ID req') tasks
    ∧ task_index <$> tasks = Z.of_nat <$> seq 0 (length tasks)
    ∧ len tasks ≤ 5.
Proof.
  apply (StartScan_registers (New Sim.cloud "192.0.2.1") Sim.request "").
  vm_compute. discriminate.
Defined.

Lemma wrap_succ a : Int.add (Int.wrap a) 1 = Int.wrap (a + 1).
Proof.
  unfold Int.add, Int.wrap. f_equal.
  replace ((a + 2 ^ 63) `mod` 2 ^ 64 - 2 ^ 63 + 1 + 2 ^ 63)
    with ((a + 2 ^ 63) `mod` 2 ^ 64 + 1) by lia.
  rewrite Zplus_mod_idemp_l. f_equal. lia.
Qed.

Lemma wrap_add_wrap a b : Int.wrap (Int.wrap a + b) = Int.wrap (a + b).
Proof.
  unfold Int.wrap. f_equal.
  replace ((a + 2 ^ 63) `mod` 2 ^ 64 - 2 ^ 63 + b + 2 ^ 63)
    with ((a + 2 ^ 63) `mod` 2 ^ 64 + b) by lia.
  rewrite Zplus_mod_idemp_l. f_equal. lia.
Qed.

Lemma UpdateWorkerProgress_worker_identity workers workerID progress currentDomain :
  worker_identity <$> UpdateWorkerProgress_worker workers workerID progress currentDomain
  = worker_identity <$> workers.
Proof.
  induction workers as [|w ws IH]; cbn; [done|].
  destruct (decide (WorkerStatus.ID w = workerID)); cbn; [done|by rewrite IH].
Qed.

Section registry.
Context {Cloud : Type} `{!FleetProvider Cloud}.
Implicit Types (o : Orchestrator Cloud) (scan : ScanStatus.t).

Lemma AddResult_present o scanID result scan :
  activeScans o !! scanID = Some scan →
  activeScans (AddResult o scanID result) !! scanID
  = Some {| ScanStatus.ID := ScanStatus.ID scan;
            ScanStatus.Progress := ScanStatus.Progress scan;
            ScanStatus.ActiveDroplets := ScanStatus.ActiveDroplets scan;
            ScanStatus.Results := ScanStatus.Results scan ++ [result];
            ScanStatus.TotalDomains := ScanStatus.TotalDomains scan;
            ScanStatus.ScannedDomains := Int.add (ScanStatus.ScannedDomains scan) 1;
            ScanStatus.Status := ScanStatus.Status scan |}.
Proof. intros Hscan. unfold AddResult. rewrite Hscan. cbn. apply lookup_insert_eq. Qed.

Lemma AddResult_other o scanID result id :
  id ≠ scanID → activeScans (AddResult o scanID result) !! id = activeScans o !! id.
Proof.
  intros Hne. unfold AddResult. destruct (activeScans o !! scanID); [|done].
  cbn. by rewrite lookup_insert_ne.
Qed.

Lemma AddResult_absent o scanID result :
  activeScans o !! scanID = None → AddResult o scanID result = o.
Proof. intros Hnone. unfold AddResult. by rewrite Hnone. Qed.

(** X8. Results ingested one after the other for a scan of the registry
    are appended to its results in their order, and its counter of
    scanned domains grows by their number (as an [int]); nothing else of
    the scan changes. For a scan that is not in the registry they are
    dropped. *)
Theorem AddResult_sequence o scanID (results : list ScanResult.t) :
  (activeScans o !! scanID = None →
     foldl (λ o result, AddResult o scanID result) o results = o)
  ∧ (∀ scan,
       activeScans o !! scanID = Some scan →
       activeScans (foldl (λ o result, AddResult o scanID result) o results) !! scanID
       = Some {| ScanStatus.ID := ScanStatus.ID scan;
                 ScanStatus.Progress := ScanStatus.Progress scan;
                 ScanStatus.ActiveDroplets := ScanStatus.ActiveDroplets scan;
                 ScanStatus.Results := ScanStatus.Results scan ++ results;
                 ScanStatus.TotalDomains := ScanStatus.TotalDomains scan;
                 ScanStatus.ScannedDomains :=
                   (if results is [] then ScanStatus.ScannedDomains scan
                    else Int.wrap (ScanStatus.ScannedDomains scan + len results));
                 ScanStatus.Status := ScanStatus.Status scan |}).
Proof.
  split.
  - intros Hnone. induction results as [|r rs IH]; cbn; [done|].
    by rewrite AddResult_absent.
  - revert o. induction results as [|r rs IH]; intros o scan Hscan; cbn.
    + rewrite Hscan, app_nil_r. by destruct scan.
    + rewrite (IH _ _ (AddResult_present o scanID r scan Hscan)). cbn.
      rewrite <- app_assoc. cbn. do 2 f_equal.
      destruct rs as [|r' rs]; unfold Int.add.
      * done.
      * rewrite wrap_add_wrap. f_equal. unfold len. cbn [length]. lia.
Qed.

Lemma UpdateWorkerProgress_fields o scanID workerID progress currentDomain scan :
  activeScans o !! scanID = Some scan →
  ∃ scan',
    activeScans (UpdateWorkerProgress o scanID workerID progress currentDomain) !! scanID
    = Some scan'
    ∧ ScanStatus.ID scan' = ScanStatus.ID scan
    ∧ ScanStatus.Results scan' = ScanStatus.Results scan
    ∧ ScanStatus.TotalDomains scan' = ScanStatus.TotalDomains scan
    ∧ ScanStatus.ScannedDomains scan' = ScanStatus.ScannedDomains scan
    ∧ ScanStatus.Status scan' = ScanStatus.Status scan
    ∧ worker_identity <$> ScanStatus.ActiveDroplets scan'
      = worker_identity <$> ScanStatus.ActiveDroplets scan.
Proof.
  intros Hscan.
  destruct (UpdateWorkerProgress_present o scanID workerID progress currentDomain
              scan Hscan) as (scan' & Hscan' & Heq & _).
  exists scan'. split; [done|]. rewrite Heq. cbn.
  by rewrite UpdateWorkerProgress_worker_identity.
Qed.

(** X9. In every state a run reaches, a scan is registered under its own
    ID, its status is [starting] or [completed] (never [running] or
    [failed]), its counter of scanned domains is the number of results
    ingested (as an [int]), and every worker still has the status
    [starting] and the empty log it was registered with. *)
Theorem reachable_scan_wf o id scan :
  reachable o → activeScans o !! id = Some scan → scan_wf id scan.
Proof.
  intros Hreach. revert id scan.
  induction Hreach as [client ip|o req uuid o' req' tasks err _ IH Hstart
                 |o scanID workerID ip totalDomains now _ IH
                 |o scanID workerID progress currentDomain _ IH
                 |o scanID result _ IH
                 |o scanID status _ IH Hstatus
                 |o scanID _ IH]; intros id scan Hid.
  - cbn in Hid. by rewrite lookup_empty in Hid.
  - unfold StartScan in Hstart.
    destruct (OptimizeDistribution _ _ _) as [[n chunks]|]; [|done].
    cbn in Hstart. injection Hstart as <- _ _ _. cbn in Hid.
    apply lookup_insert_Some in Hid as [[<- <-]|[_ Hid]]; [|by apply IH].
    split; cbn; [done|by left|unfold len; lia|done|done].
  - unfold waitForWorker_ready in Hid.
    destruct (activeScans o !! scanID) as [scan0|] eqn:Hscan; [|by apply IH].
    cbn in Hid. apply lookup_insert_Some in Hid as [[<- <-]|[_ Hid]]; [|by apply IH].
    destruct (IH _ _ Hscan) as [? ? ? ? Hw]. split; cbn; [done..|].
    apply Forall_app. split; [done|]. by apply Forall_singleton.
  - destruct (decide (id = scanID)) as [->|Hne].
    + destruct (activeScans o !! scanID) as [scan0|] eqn:Hscan.
      * destruct (UpdateWorkerProgress_fields o scanID workerID progress
                    currentDomain scan0 Hscan)
          as (scan' & Hscan' & Hi & Hr & Ht & Hs & Hst & Hw).
        rewrite Hscan' in Hid. injection Hid as ->.
        destruct (IH _ _ Hscan) as [? ? ? ? Hw0].
        split; [congruence|by rewrite Hst|congruence|congruence|].
        assert (Forall (λ i, i.2 = "starting" ∧ i.1.1.2 = [])
                  (worker_identity <$> ScanStatus.ActiveDroplets scan0)) as Hid0.
        { apply Forall_fmap. eapply Forall_impl; [exact Hw0|]. by intros w [? ?]. }
        rewrite <- Hw in Hid0. apply Forall_fmap in Hid0.
        eapply Forall_impl; [exact Hid0|]. by intros w [? ?].
      * rewrite UpdateWorkerProgress_absent in Hid by done. by apply IH.
    + rewrite UpdateWorkerProgress_other in Hid by done. by apply IH.
  - destruct (decide (id = scanID)) as [->|Hne].
    + destruct (activeScans o !! scanID) as [scan0|] eqn:Hscan.
      * rewrite (AddResult_present _ _ _ _ Hscan) in Hid. injection Hid as <-.
        destruct (IH _ _ Hscan) as [? ? ? Hcount ?]. split; cbn; [done..| |done].
        rewrite Hcount, wrap_succ. f_equal. unfold len. rewrite length_app. cbn. lia.
      * rewrite AddResult_absent in Hid by done. by apply IH.
    + rewrite AddResult_other in Hid by done. by apply IH.
  - cbn in Hid. apply lookup_insert_Some in Hid as [[<- <-]|[_ Hid]]; [|by apply IH].
    destruct (IH _ _ Hstatus) as [? ? ? ? ?]. split; cbn; [done|by right|done..].
  - unfold CleanupScan in Hid.
    destruct (activeScans o !! scanID) as [scan0|] eqn:Hscan; [|by apply IH].
    cbn in Hid. apply lookup_delete_Some in Hid as [_ Hid]. by apply IH.
Qed.

(** X10. Between [StartScan] and [CleanupScan] the state of a scan only
    grows: after any number of worker registrations, progress updates,
    result ingestions and completions, a scan of the registry is still
    there with the same ID and total, its earlier results first in their
    order, and its earlier workers first with their ID, address, total,
    log, creation time and status; and no scan appears. *)
Theorem scan_state_append_only o o' id :
  rtc scan_step o o' →
  (activeScans o !! id = None → activeScans o' !! id = None)
  ∧ (∀ scan,
       activeScans o !! id = Some scan →
       ∃ scan', activeScans o' !! id = Some scan' ∧ scan_extends scan scan').
Proof.
  intros Hsteps.
  assert (∀ o1 o2, scan_step o1 o2 →
            (activeScans o1 !! id = None → activeScans o2 !! id = None)
            ∧ (∀ scan, activeScans o1 !! id = Some scan →
                 ∃ scan', activeScans o2 !! id = Some scan' ∧ scan_extends scan scan'))
    as Hone.
  { intros o1 o2 Hstep.
    assert (∀ scan, scan_extends scan scan) as Hrefl by (by intros scan).
    destruct Hstep as [o1 scanID workerID ip totalDomains now
                      |o1 scanID workerID progress currentDomain
                      |o1 scanID result|o1 scanID status Hstatus].
    - unfold waitForWorker_ready.
      destruct (activeScans o1 !! scanID) as [scan0|] eqn:Hscan; [|by eauto].
      cbn. destruct (decide (id = scanID)) as [->|Hne].
      + rewrite lookup_insert_eq. split; [congruence|].
        intros scan Hs. rewrite Hscan in Hs. injection Hs as <-.
        eexists. split; [done|].
        split; [done|]. split; [done|]. split; [done|]. cbn.
        rewrite fmap_app. by apply prefix_app_r.
      + rewrite lookup_insert_ne by done. eauto.
    - destruct (decide (id = scanID)) as [->|Hne].
      + split.
        * intros Hnone. by rewrite UpdateWorkerProgress_absent.
        * intros scan Hscan.
          destruct (UpdateWorkerProgress_fields o1 scanID workerID progress
                      currentDomain scan Hscan)
            as (scan' & Hscan' & Hi & Hr & Ht & _ & _ & Hw).
          exists scan'. split; [done|].
          split; [done|]. split; [done|]. by rewrite Hr, Hw.
      + rewrite UpdateWorkerProgress_other by done. eauto.
    - destruct (decide (id = scanID)) as [->|Hne].
      + split.
        * intros Hnone. by rewrite AddResult_absent.
        * intros scan Hscan. rewrite (AddResult_present _ _ _ _ Hscan).
          eexists. split; [done|]. split; [done|]. split; [done|]. cbn.
          split; [by apply prefix_app_r|done].
      + rewrite AddResult_other by done. eauto.
    - cbn. destruct (decide (id = scanID)) as [->|Hne].
      + rewrite lookup_insert_eq. split; [congruence|].
        intros scan Hscan. rewrite Hstatus in Hscan. injection Hscan as <-.
        eexists. split; [done|]. by split.
      + rewrite lookup_insert_ne by done. eauto. }
  induction Hsteps as [o|o1 o2 o3 Hstep _ IH].
  - split; [done|]. intros scan Hscan. exists scan. by split.
  - destruct (Hone _ _ Hstep) as [Hnone Hsome]. destruct IH as [IHnone IHsome].
    split; [by auto|]. intros scan Hscan.
    destruct (Hsome scan Hscan) as (scan1 & Hscan1 & (Hi1 & Ht1 & Hr1 & Hw1)).
    destruct (IHsome scan1 Hscan1) as (scan2 & Hscan2 & (Hi2 & Ht2 & Hr2 & Hw2)).
    exists scan2. split; [done|].
    split; [congruence|]. split; [congruence|].
    split; etrans; eassumption.
Qed.

(** X11. [CleanupScan] leaves the other scans and the server address as
    they are. When the scan has no registered worker, or the provider
    fails to list the droplets of the scan, it asks for no deletion: the
    provider is left as it is, and the scan is removed all the same. *)
Theorem CleanupScan_frame o scanID :
  (∀ id, id ≠ scanID →
     activeScans (CleanupScan o scanID).1 !! id = activeScans o !! id)
  ∧ mainServerIP (CleanupScan o scanID).1 = mainServerIP o
  ∧ ((∀ scan, activeScans o !! scanID = Some scan → ScanStatus.ActiveDroplets scan = [])
     ∨ Droplets_ListByTag (doClient o) scanID = None →
     doClient (CleanupScan o scanID).1 = doClient o).
Proof.
  unfold CleanupScan. destruct (activeScans o !! scanID) as [scan|] eqn:Hscan; cbn.
  - split; [by intros id Hne; rewrite lookup_delete_ne|]. split; [done|].
    intros [Hnone|Herr].
    + by rewrite (Hnone scan eq_refl).
    + induction (ScanStatus.ActiveDroplets scan) as [|w ws IH]; cbn; [done|].
      unfold CleanupScan_worker at 2. by rewrite Herr.
  - done.
Qed.

(** X12. Teardown is final: once [CleanupScan] has run, the scan is
    reported as not found, and a worker becoming ready, a progress update
    or a result for it leaves the orchestrator as it is. *)
Theorem CleanupScan_final o scanID workerID ip totalDomains now progress
    currentDomain result :
  let o' := (CleanupScan o scanID).1 in
  GetScanStatus o' scanID = None
  ∧ waitForWorker_ready o' scanID workerID ip totalDomains now = o'
  ∧ UpdateWorkerProgress o' scanID workerID progress currentDomain = o'
  ∧ AddResult o' scanID result = o'.
Proof.
  intros o'.
  assert (activeScans o' !! scanID = None) as Hgone.
  { unfold o', CleanupScan. destruct (activeScans o !! scanID) eqn:Hscan; cbn; [|done].
    apply lookup_delete_eq. }
  split; [done|].
  unfold waitForWorker_ready, UpdateWorkerProgress, AddResult. by rewrite Hgone.
Qed.

End registry.

(** ** Worker provisioning *)



Lemma string_to_length s hi prefix :
  string_to s hi = Some prefix → String.length prefix = hi.
Proof.
  unfold string_to. destruct (decide _) as [Hle|]; [|done]. intros [= <-].
  revert hi Hle. induction s as [|c s IH]; intros [|hi] Hle; cbn in *; try done; try lia.
  f_equal. apply IH. lia.
Qed.

Section provisioning_properties.
Context {Cloud : Type} `{!FleetLauncher Cloud} `{!UserDataScript}.
Implicit Types (o : Orchestrator Cloud).

(** [createAndStartWorker] on a scan ID shorter than 8 bytes, and on a
    longer one: the droplet it asks for, what it returns and starts. *)
Lemma createAndStartWorker_outcome o scanID index domains :
  ((String.length scanID < 8)%nat → createAndStartWorker o scanID index domains = None)
  ∧ ((8 ≤ String.length scanID)%nat →
     ∃ prefix request,
       string_to scanID 8 = Some prefix
       ∧ String.length prefix = 8%nat
       ∧ create_Name request = worker_name prefix index
       ∧ create_Tags request = ["nuclei-worker"; scanID]
       ∧ (create_Region request, create_Size request, create_Image request)
         = ("nyc3", "s-1vcpu-1gb", "ubuntu-20-04-x64")
       ∧ ∃ o' err waiter,
           createAndStartWorker o scanID index domains = Some (o', err, waiter)
           ∧ activeScans o' = activeScans o
           ∧ doClient o' = (Droplets_Create (doClient o) request).1
           ∧ match (Droplets_Create (doClient o) request).2 with
             | inl e => err = Some ("failed to create droplet: " +:+ e) ∧ waiter = None
             | inr dropletID =>
                 err = None
                 ∧ waiter = Some {| wait_scanID := scanID;
                                    wait_workerID := worker_name prefix index;
                                    wait_dropletID := dropletID;
                                    wait_totalDomains := len domains |}
             end).
Proof.
  split.
  - intros Hshort. unfold createAndStartWorker, string_to.
    by rewrite decide_False by lia.
  - intros Hlong. unfold createAndStartWorker.
    destruct (string_to scanID 8) as [prefix|] eqn:Hprefix;
      [|unfold string_to in Hprefix; by rewrite decide_True in Hprefix by lia].
    step.
    exists prefix,
      {| create_Name := worker_name prefix index; create_Region := "nyc3";
         create_Size := "s-1vcpu-1gb"; create_Image := "ubuntu-20-04-x64";
         create_UserData :=
           generateUserData (mainServerIP o) scanID (worker_name prefix index) domains;
         create_Tags := ["nuclei-worker"; scanID] |}.
    split; [done|].
    split; [by eapply string_to_length|].
    split; [reflexivity|]. split; [reflexivity|]. split; [reflexivity|].
    destruct (Droplets_Create _ _) as [client [e|dropletID]]; cbn;
      eexists _, _, _; (split; [reflexivity|]); cbn; done.
Qed.

End provisioning_properties.

Lemma worker_name_injective prefix (i j : Z) :
  worker_name prefix i = worker_name prefix j → i = j.
Proof.
  unfold worker_name. intros Heq.
  apply (inj (String.app prefix)) in Heq.
  apply (inj (String.app "-worker-")) in Heq.
  by apply (inj pretty) in Heq.
Qed.

(** X14. The tasks [StartScan] starts get pairwise different worker
    names, whatever the prefix of the scan ID they share: no two workers
    of one [StartScan] are registered under the same ID. *)
Theorem worker_names_distinct {Cloud : Type} (o : Orchestrator Cloud) req uuid
    o' req' tasks err prefix :
  StartScan o req uuid = Some (o', req', tasks, err) →
  NoDup ((λ task, worker_name prefix (task_index task)) <$> tasks).
Proof.
  unfold StartScan. destruct (OptimizeDistribution _ _ _) as [[n chunks]|]; [|done].
  cbn. intros [= _ _ <- _].
  rewrite (list_fmap_compose task_index (worker_name prefix)).
  rewrite (imap_task_index_gen _ 0).
  apply NoDup_fmap_2; [intros i j; apply worker_name_injective|].
  apply NoDup_fmap_2; [apply _|apply NoDup_seq].
Qed.

(** ** From a request to its droplets *)

Lemma StartScan_tasks {Cloud : Type} (o : Orchestrator Cloud) req uuid o' req' tasks err :
  StartScan o req uuid = Some (o', req', tasks, err) →
  ScanRequest.ID req'
    = (if decide (ScanRequest.ID req = "") then uuid else ScanRequest.ID req)
  ∧ Forall (λ task, task_scanID task = ScanRequest.ID req') tasks
  ∧ ∃ n chunks,
      OptimizeDistribution NewScanOptimizer (ScanRequest.Domains req)
        (ScanRequest.Droplets req) = Some (n, chunks)
      ∧ length tasks = length chunks.
Proof.
  unfold StartScan.
  set (req1 := if decide (ScanRequest.ID req = "") then _ else req).
  assert (ScanRequest.Domains req1 = ScanRequest.Domains req
          ∧ ScanRequest.Droplets req1 = ScanRequest.Droplets req
          ∧ ScanRequest.ID req1
            = (if decide (ScanRequest.ID req = "") then uuid else ScanRequest.ID req))
    as (Hd & Hn & Hi) by (unfold req1; by destruct (decide _)).
  rewrite Hd, Hn.
  destruct (OptimizeDistribution _ _ _) as [[n chunks]|]; [|done].
  cbn. intros [= _ <- <- _]. split; [done|]. split.
  - apply Forall_forall. intros task Htask.
    apply list_elem_of_lookup in Htask as [i Htask].
    rewrite list_lookup_imap in Htask.
    destruct (chunks !! i); cbn in Htask; [|done]. by injection Htask as <-.
  - exists n, chunks. split; [done|]. by rewrite length_imap.
Qed.

Section provisioning_composition.
Context {Cloud : Type} `{!StringsPkg} `{!FleetLauncher Cloud} `{!UserDataScript}.
Implicit Types (o : Orchestrator Cloud) (h : Handler Cloud).

(** X15. Every task a request to the handler starts asks the provider
    for a droplet and returns: the scan ID the handler assigns has the 8
    bytes [createAndStartWorker] takes off it. The task leaves the
    registry as it is; it waits for a droplet exactly when it returns no
    error, and then for a worker of that scan, named after the first 8
    bytes of the scan ID and the index of the task, with the number of
    domains of its chunk as total. *)
Theorem submitted_scan_is_provisioned h req uuid uuid' h' response tasks :
  Handler_StartScan h (inr req) uuid uuid' = Some (h', response, tasks) →
  (8 ≤ String.length uuid)%nat →
  ∃ prefix,
    string_to uuid 8 = Some prefix
    ∧ Forall
        (λ task, ∀ o,
           ∃ o' err waiter,
             createAndStartWorker o (task_scanID task) (task_index task)
               (task_domains task) = Some (o', err, waiter)
             ∧ activeScans o' = activeScans o
             ∧ (err = None ↔ is_Some waiter)
             ∧ ∀ w, waiter = Some w →
                 wait_scanID w = uuid
                 ∧ wait_workerID w = worker_name prefix (task_index task)
                 ∧ wait_totalDomains w = len (task_domains task))
        tasks.
Proof.
  intros Hstart Hlong.
  destruct (string_to uuid 8) as [prefix|] eqn:Hprefix;
    [|unfold string_to in Hprefix; by rewrite decide_True in Hprefix by lia].
  exists prefix. split; [done|].
  assert (Forall (λ task, task_scanID task = uuid) tasks) as Hids.
  { unfold Handler_StartScan in Hstart.
    destruct (len (ScanRequest.Domains req) =? 0); [by injection Hstart as _ _ <-|].
    destruct (len (cleanDomains (ScanRequest.Domains req)) =? 0);
      [by injection Hstart as _ _ <-|].
    destruct (StartScan _ _ _) as [[[[o1 req1] tasks1] err1]|] eqn:Hscan; [|done].
    apply StartScan_tasks in Hscan as (Hid & Hall & _). cbn in Hid.
    rewrite decide_False in Hid by (intros ->; cbn in Hlong; lia).
    rewrite Hid in Hall. cbn in Hstart.
    by destruct err1; injection Hstart as _ _ <-. }
  eapply Forall_impl; [exact Hids|]. intros task Hid o. rewrite Hid.
  destruct (createAndStartWorker_outcome o uuid (task_index task) (task_domains task))
    as [_ Hrun].
  destruct (Hrun Hlong) as (prefix' & request & Hprefix' & _ & _ & _ & _ & Hout).
  rewrite Hprefix in Hprefix'. injection Hprefix' as <-.
  destruct Hout as (o' & err & waiter & Hcall & Hscans & _ & Hcases).
  exists o', err, waiter. split; [done|]. split; [done|].
  destruct (Droplets_Create (doClient o) request).2 as [e|dropletID].
  - destruct Hcases as [-> ->]. split; [|done].
    split; [done|]. by intros [? ?].
  - destruct Hcases as [-> ->]. split; [by split; [eexists|]|].
    by intros w [= <-].
Qed.

(** X16. A direct call of [StartScan] with a request that brings its own
    ID, shorter than 8 bytes, and at least one domain starts tasks that
    all panic, in whatever state they run: the ID is kept as it is, and
    [createAndStartWorker] slices 8 bytes off it. *)
Theorem short_scan_id_panics o req uuid o' req' tasks err :
  StartScan o req uuid = Some (o', req', tasks, err) →
  ScanRequest.ID req ≠ "" →
  (String.length (ScanRequest.ID req) < 8)%nat →
  ScanRequest.Domains req ≠ [] →
  len (ScanRequest.Domains req) ≤ Int.max_int →
  tasks ≠ [] ∧ Forall (λ task, ∀ o'', run_task o'' task = None) tasks.
Proof.
  intros Hscan Hid Hshort Hne Hlen.
  apply StartScan_tasks in Hscan as (Hid' & Hall & n & chunks & Hplan & Hlength).
  rewrite decide_False in Hid' by done. split.
  - destruct (OptimizeDistribution_nonempty _ (ScanRequest.Droplets req) Hne Hlen)
      as (n' & chunks' & _ & _ & Hplan' & Hn & _ & Hl & _).
    rewrite Hplan in Hplan'. injection Hplan' as <- <-.
    intros ->. unfold len in Hl. cbn in Hlength. lia.
  - eapply Forall_impl; [exact Hall|]. intros task Htask o''.
    unfold run_task. rewrite Htask, Hid'.
    destruct (createAndStartWorker_outcome o'' (ScanRequest.ID req) (task_index task)
                (task_domains task)) as [-> _]; done.
Qed.

End provisioning_composition.

(** ** Event fanout, continued *)

Lemma wsm_reachable_paired wsm : wsm_reachable wsm → wsm_paired wsm.
Proof.
  induction 1 as [|wsm scanID conn _ IH|wsm scanID conn wsm' _ IH Hun
                 |wsm scanID message wsm' _ IH Hbc|wsm a message wsm' _ IH Hrecv];
    intros id Hid.
  - cbn in Hid. rewrite lookup_empty in Hid. by destruct Hid.
  - unfold RegisterClient in *.
    destruct (clients wsm !! scanID) as [conns0|] eqn:Hconns; cbn in *.
    + destruct (decide (id = scanID)) as [->|Hne].
      * rewrite lookup_alter_eq, Hconns. by eexists.
      * rewrite lookup_alter_ne by congruence. by apply IH.
    + destruct (decide (id = scanID)) as [->|Hne].
      * rewrite lookup_alter_eq, lookup_insert_eq. by eexists.
      * rewrite lookup_alter_ne, lookup_insert_ne by congruence.
        rewrite lookup_insert_ne in Hid by congruence. by apply IH.
  - unfold UnregisterClient in Hun.
    destruct (clients wsm !! scanID) as [conns0|] eqn:Hconns;
      [|injection Hun as <-; by apply IH].
    destruct (decide (conn ∈ conns0)); [|injection Hun as <-; by apply IH].
    destruct (decide (size (conns0 ∖ {[conn]}) = 0%nat)) as [|Hsize].
    + destruct (close _ _); [|done]. injection Hun as <-. cbn in *.
      destruct (decide (id = scanID)) as [->|Hne].
      * rewrite lookup_delete_eq in Hid. by destruct Hid.
      * rewrite lookup_delete_ne in Hid by congruence.
        rewrite lookup_delete_ne by congruence. by apply IH.
    + injection Hun as <-. cbn in *. destruct (decide (id = scanID)) as [->|Hne].
      * rewrite lookup_insert_eq. by eexists.
      * rewrite lookup_insert_ne by congruence. by apply IH.
  - unfold BroadcastToScan in Hbc.
    destruct (broadcast wsm !! scanID) as [a|]; [|injection Hbc as <-; by apply IH].
    destruct (chans wsm !! a) as [ch|]; [|injection Hbc as <-; by apply IH].
    destruct (chan_closed ch); [done|].
    destruct (len (chan_buf ch) <? chan_cap); injection Hbc as <-; by apply IH.
  - unfold chan_receive in Hrecv. destruct (chans wsm !! a) as [ch|]; [|done].
    cbn in Hrecv. destruct (chan_buf ch); [done|]. injection Hrecv as _ <-.
    by apply IH.
Qed.

Lemma wsm_reachable_open_mapped wsm : wsm_reachable wsm → wsm_open_mapped wsm.
Proof.
  induction 1 as [|wsm scanID conn Hreach IH|wsm scanID conn wsm' Hreach IH Hun
                 |wsm scanID message wsm' Hreach IH Hbc
                 |wsm b message wsm' Hreach IH Hrecv];
    intros a ch Ha Hopen.
  - cbn in Ha. by rewrite lookup_empty in Ha.
  - unfold RegisterClient in *.
    destruct (clients wsm !! scanID) as [conns|] eqn:Hconns; cbn in *;
      [by eapply IH|].
    apply lookup_insert_Some in Ha as [[<- _]|[Hne Ha]].
    + exists scanID. by rewrite lookup_insert_eq.
    + destruct (IH a ch Ha Hopen) as [id Hid]. exists id.
      rewrite lookup_insert_ne; [done|]. intros ->.
      destruct (wsm_reachable_paired wsm Hreach id) as [? ?]; [by eexists|congruence].
  - unfold UnregisterClient in Hun.
    destruct (clients wsm !! scanID) as [conns|]; [|injection Hun as <-; by eapply IH].
    destruct (decide (conn ∈ conns)); [|injection Hun as <-; by eapply IH].
    destruct (decide (size (conns ∖ {[conn]}) = 0%nat));
      [|injection Hun as <-; by eapply IH].
    unfold close in Hun. destruct (broadcast wsm !! scanID) as [b|] eqn:Hb; [|done].
    cbn in Hun. destruct (chans wsm !! b) as [chb|] eqn:Hchb; [|done]. cbn in Hun.
    destruct (chan_closed chb); [done|]. injection Hun as <-. cbn in *.
    apply lookup_insert_Some in Ha as [[_ <-]|[Hne Ha]]; [done|].
    destruct (IH a ch Ha Hopen) as [id Hid]. exists id.
    rewrite lookup_delete_ne; [done|]. intros ->. congruence.
  - unfold BroadcastToScan in Hbc.
    destruct (broadcast wsm !! scanID) as [b|] eqn:Hb; [|injection Hbc as <-; by eapply IH].
    destruct (chans wsm !! b) as [chb|] eqn:Hchb; [|injection Hbc as <-; by eapply IH].
    destruct (chan_closed chb); [done|].
    destruct (len (chan_buf chb) <? chan_cap); [|injection Hbc as <-; by eapply IH].
    injection Hbc as <-. cbn in *.
    apply lookup_insert_Some in Ha as [[<- _]|[Hne Ha]]; [by exists scanID|by eapply IH].
  - unfold chan_receive in Hrecv.
    destruct (chans wsm !! b) as [chb|] eqn:Hchb; [|done]. cbn in Hrecv.
    destruct (chan_buf chb); [done|]. injection Hrecv as _ <-. cbn in *.
    apply lookup_insert_Some in Ha as [[<- <-]|[Hne Ha]]; [|by eapply IH].
    cbn in Hopen. by eapply IH.
Qed.

Lemma wsm_step_reachable wsm wsm' :
  wsm_reachable wsm → wsm_step wsm wsm' → wsm_reachable wsm'.
Proof.
  intros Hreach Hstep.
  destruct Hstep as [wsm scanID conn|wsm scanID conn wsm' Hun
                    |wsm a message wsm' Hsel|wsm a message wsm' Hrecv].
  - by apply wsm_reachable_RegisterClient.
  - by eapply wsm_reachable_UnregisterClient.
  - unfold BroadcastToScan_select in Hsel.
    destruct (chans wsm !! a) as [ch|] eqn:Hch; [|by injection Hsel as <-].
    destruct (chan_closed ch) eqn:Hclosed; [done|].
    destruct (wsm_reachable_open_mapped wsm Hreach a ch Hch Hclosed) as [id Hid].
    apply (wsm_reachable_BroadcastToScan wsm id message); [done|].
    unfold BroadcastToScan. by rewrite Hid, Hch, Hclosed.
  - by eapply wsm_reachable_receive.
Qed.

Lemma wsm_step_channel wsm wsm' scanID a :
  wsm_reachable wsm → wsm_step wsm wsm' →
  broadcast wsm !! scanID = Some a ∨ chan_retired wsm a →
  broadcast wsm' !! scanID = Some a ∨ chan_retired wsm' a.
Proof.
  intros Hreach Hstep Hchan.
  destruct (wsm_reachable_inv wsm Hreach) as [Hopen Hinj _].
  pose proof (wsm_reachable_paired wsm Hreach) as Hpaired.
  destruct Hstep as [wsm id conn|wsm id conn wsm' Hun
                    |wsm b message wsm' Hsel|wsm b message wsm' Hrecv].
  - unfold RegisterClient, chan_retired.
    destruct (clients wsm !! id) as [conns|] eqn:Hconns; cbn; [done|].
    destruct Hchan as [Hmap|(Hlt & (ch & Hch & Hclosed) & Hfree)].
    + left. rewrite lookup_insert_ne; [done|]. intros ->.
      destruct (Hpaired scanID) as [? ?]; [by eexists|congruence].
    + right. split; [lia|]. split.
      * exists ch. by rewrite lookup_insert_ne by lia.
      * intros id'. destruct (decide (id' = id)) as [->|Hne].
        -- rewrite lookup_insert_eq. intros [= Heq]. lia.
        -- rewrite lookup_insert_ne by done. apply Hfree.
  - unfold UnregisterClient in Hun.
    destruct (clients wsm !! id) as [conns|]; [|by injection Hun as <-].
    destruct (decide (conn ∈ conns)); [|by injection Hun as <-].
    destruct (decide (size (conns ∖ {[conn]}) = 0%nat));
      [|injection Hun as <-; unfold chan_retired; by cbn].
    unfold close in Hun. destruct (broadcast wsm !! id) as [b|] eqn:Hb; [|done].
    cbn in Hun. destruct (chans wsm !! b) as [chb|] eqn:Hchb; [|done]. cbn in Hun.
    destruct (chan_closed chb) eqn:Hclb; [done|]. injection Hun as <-.
    unfold chan_retired. cbn.
    destruct Hchan as [Hmap|(Hlt & (ch & Hch & Hclosed) & Hfree)].
    + destruct (decide (id = scanID)) as [->|Hne].
      * right. assert (b = a) as -> by congruence.
        split; [by apply (Hopen scanID a)|]. split.
        -- eexists. by rewrite lookup_insert_eq.
        -- intros id'. destruct (decide (id' = scanID)) as [->|Hne].
           ++ by rewrite lookup_delete_eq.
           ++ rewrite lookup_delete_ne by done. intros Hid'.
              by apply Hne, (Hinj id' scanID a).
      * left. by rewrite lookup_delete_ne.
    + right. split; [done|]. split.
      * exists ch. rewrite lookup_insert_ne; [done|]. intros ->. by apply (Hfree id).
      * intros id'. destruct (decide (id' = id)) as [->|Hne].
        -- by rewrite lookup_delete_eq.
        -- rewrite lookup_delete_ne by done. apply Hfree.
  - unfold BroadcastToScan_select in Hsel.
    destruct (chans wsm !! b) as [chb|] eqn:Hchb; [|by injection Hsel as <-].
    destruct (chan_closed chb) eqn:Hclb; [done|].
    destruct (len (chan_buf chb) <? chan_cap); [|by injection Hsel as <-].
    injection Hsel as <-. unfold chan_retired. cbn.
    destruct Hchan as [Hmap|(Hlt & (ch & Hch & Hclosed) & Hfree)]; [by left|right].
    split; [done|]. split; [|done].
    exists ch. rewrite lookup_insert_ne; [done|]. intros ->. congruence.
  - unfold chan_receive in Hrecv.
    destruct (chans wsm !! b) as [chb|] eqn:Hchb; [|done]. cbn in Hrecv.
    destruct (chan_buf chb); [done|]. injection Hrecv as _ <-.
    unfold chan_retired. cbn.
    destruct Hchan as [Hmap|(Hlt & (ch & Hch & Hclosed) & Hfree)]; [by left|right].
    split; [done|]. split; [|done].
    destruct (decide (b = a)) as [->|Hne].
    + eexists. rewrite lookup_insert_eq. split; [done|]. cbn. congruence.
    + exists ch. by rewrite lookup_insert_ne.
Qed.

(** X17. [BroadcastToScan] reads the channel of the scan under the read
    lock and sends on it after the lock is released. In a run from a
    state a run reaches, with any calls between the read and the send,
    the send panics exactly when the channel read is no longer the queue
    of the scan, that is when the last client of the scan was
    unregistered in between (the channel is closed then); with no call in
    between it never panics. When the queue of the scan is still what was
    read, the send does what [BroadcastToScan] as one step does.
    [UnregisterClient], which holds the lock for its whole body, never
    panics in such a run: it closes no nil or closed channel. *)
Theorem BroadcastToScan_race wsm0 wsm scanID message :
  wsm_reachable wsm0 →
  rtc wsm_step wsm0 wsm →
  let channel := BroadcastToScan_read wsm0 scanID in
  (BroadcastToScan_select wsm channel message = None
   ↔ ∃ a, channel = Some a ∧ broadcast wsm !! scanID ≠ Some a)
  ∧ is_Some (BroadcastToScan_select wsm0 channel message)
  ∧ (broadcast wsm !! scanID = channel →
     BroadcastToScan_select wsm channel message = BroadcastToScan wsm scanID message)
  ∧ ∀ id conn, is_Some (UnregisterClient wsm id conn).
Proof.
  intros Hreach0 Hrun channel.
  assert (wsm_reachable wsm
          ∧ ∀ a, channel = Some a →
                 broadcast wsm !! scanID = Some a ∨ chan_retired wsm a) as [Hreach Hchan].
  { apply (rtc_ind_r (R := wsm_step)
             (λ w, wsm_reachable w
                   ∧ ∀ a, channel = Some a →
                          broadcast w !! scanID = Some a ∨ chan_retired w a) wsm0);
      [|clear wsm Hrun; intros wsm1 wsm2 _ Hstep [IHreach IHchan]|exact Hrun].
    - split; [done|]. intros a Ha. by left.
    - split; [by eapply wsm_step_reachable|].
      intros a Ha. eapply wsm_step_channel; [done..|]. by apply IHchan. }
  destruct (wsm_reachable_inv wsm Hreach) as [Hopen _ Hcl].
  destruct (wsm_reachable_inv wsm0 Hreach0) as [Hopen0 _ _].
  split; [|split; [|split]].
  - split.
    + intros Hpanic. unfold BroadcastToScan_select in Hpanic.
      destruct channel as [a|] eqn:Hread; [|done].
      exists a. split; [done|]. intros Hmap.
      destruct (Hopen scanID a Hmap) as [_ (ch & Hch & Hclosed)].
      rewrite Hch, Hclosed in Hpanic. by destruct (len (chan_buf ch) <? chan_cap).
    + intros (a & -> & Hmap).
      destruct (Hchan a eq_refl) as [?|(_ & (ch & Hch & Hclosed) & _)]; [done|].
      unfold BroadcastToScan_select. by rewrite Hch, Hclosed.
  - unfold BroadcastToScan_select, channel, BroadcastToScan_read.
    destruct (broadcast wsm0 !! scanID) as [a|] eqn:Ha; [|by eexists].
    destruct (Hopen0 scanID a Ha) as [_ (ch & -> & ->)].
    destruct (len (chan_buf ch) <? chan_cap); by eexists.
  - intros <-. reflexivity.
  - intros id conn. unfold UnregisterClient.
    destruct (clients wsm !! id) as [conns|] eqn:Hconns; [|by eexists].
    destruct (decide (conn ∈ conns)); [|by eexists].
    destruct (decide (size (conns ∖ {[conn]}) = 0%nat)); [|by eexists].
    destruct (Hcl id) as [a Ha]; [by rewrite Hconns|].
    destruct (Hopen id a Ha) as [_ (ch & Hch & Hclosed)].
    unfold close. rewrite Ha. step. rewrite Hch. step. rewrite Hclosed. by eexists.
Qed.

(** X18. In every state a run reaches, no queue holds more than 100
    messages. *)
Theorem wsm_reachable_bounded wsm : wsm_reachable wsm → wsm_bounded wsm.
Proof.
  induction 1 as [|wsm scanID conn _ IH|wsm scanID conn wsm' _ IH Hun
                 |wsm scanID message wsm' _ IH Hbc|wsm a message wsm' _ IH Hrecv];
    intros b chb Hb.
  - cbn in Hb. by rewrite lookup_empty in Hb.
  - unfold RegisterClient in Hb.
    destruct (clients wsm !! scanID); cbn in Hb; [by eapply IH|].
    apply lookup_insert_Some in Hb as [[_ <-]|[_ Hb]]; [done|by eapply IH].
  - unfold UnregisterClient in Hun.
    destruct (clients wsm !! scanID) as [conns|]; [|injection Hun as <-; by eapply IH].
    destruct (decide (conn ∈ conns)); [|injection Hun as <-; by eapply IH].
    destruct (decide (size (conns ∖ {[conn]}) = 0%nat));
      [|injection Hun as <-; by eapply IH].
    unfold close in Hun. destruct (broadcast wsm !! scanID) as [a|]; [|done].
    cbn in Hun. destruct (chans wsm !! a) as [ch|] eqn:Hch; [|done]. cbn in Hun.
    destruct (chan_closed ch); [done|]. injection Hun as <-. cbn in Hb.
    apply lookup_insert_Some in Hb as [[_ <-]|[_ Hb]];
      [cbn; exact (IH _ _ Hch)|by eapply IH].
  - unfold BroadcastToScan in Hbc.
    destruct (broadcast wsm !! scanID) as [a|]; [|injection Hbc as <-; by eapply IH].
    destruct (chans wsm !! a) as [ch|] eqn:Hch; [|injection Hbc as <-; by eapply IH].
    destruct (chan_closed ch); [done|].
    destruct (Z.ltb_spec (len (chan_buf ch)) chan_cap);
      [|injection Hbc as <-; by eapply IH].
    injection Hbc as <-. cbn in Hb.
    apply lookup_insert_Some in Hb as [[_ <-]|[_ Hb]]; [|by eapply IH].
    cbn. unfold len in *. rewrite length_app. cbn. lia.
  - unfold chan_receive in Hrecv.
    destruct (chans wsm !! a) as [ch|] eqn:Hch; [|done]. cbn in Hrecv.
    destruct (chan_buf ch) as [|m rest] eqn:Hbuf; [done|]. injection Hrecv as _ <-.
    cbn in Hb. apply lookup_insert_Some in Hb as [[_ <-]|[_ Hb]]; [|by eapply IH].
    cbn. pose proof (IH a ch Hch) as Hle. rewrite Hbuf in Hle.
    unfold len in *. cbn in Hle. lia.
Qed.

Lemma BroadcastToScan_queue wsm scanID message a ch :
  broadcast wsm !! scanID = Some a →
  chans wsm !! a = Some ch →
  chan_closed ch = false →
  len (chan_buf ch) ≤ chan_cap →
  ∃ wsm',
    BroadcastToScan wsm scanID message = Some wsm'
    ∧ clients wsm' = clients wsm ∧ broadcast wsm' = broadcast wsm
    ∧ next_chan wsm' = next_chan wsm
    ∧ chans wsm'
      = <[a := {| chan_buf := take 100 (chan_buf ch ++ [message]);
                  chan_closed := false |}]> (chans wsm).
Proof.
  intros Ha Hch Hopen Hle. unfold BroadcastToScan. rewrite Ha, Hch, Hopen.
  unfold len, chan_cap in *.
  destruct (Z.ltb_spec (Z.of_nat (length (chan_buf ch))) 100).
  - eexists. split; [done|]. cbn. repeat split.
    rewrite take_ge; [done|]. rewrite length_app. cbn. lia.
  - exists wsm. repeat split.
    rewrite take_app_le by lia. rewrite take_ge by lia.
    destruct ch as [buf closed]. cbn in *. subst closed.
    by rewrite insert_id.
Qed.

Lemma BroadcastAll_chans wsm scanID messages a ch :
  broadcast wsm !! scanID = Some a →
  chans wsm !! a = Some ch →
  chan_closed ch = false →
  len (chan_buf ch) ≤ chan_cap →
  ∃ wsm',
    BroadcastAll wsm scanID messages = Some wsm'
    ∧ clients wsm' = clients wsm ∧ broadcast wsm' = broadcast wsm
    ∧ chans wsm'
      = <[a := {| chan_buf := take 100 (chan_buf ch ++ messages);
                  chan_closed := false |}]> (chans wsm).
Proof.
  revert wsm ch. induction messages as [|m ms IH]; intros wsm ch Ha Hch Hopen Hle.
  - exists wsm. cbn. repeat split. rewrite app_nil_r, take_ge by (unfold len, chan_cap in *; lia).
    destruct ch as [buf closed]. cbn in *. subst closed. by rewrite insert_id.
  - destruct (BroadcastToScan_queue wsm scanID m a ch Ha Hch Hopen Hle)
      as (wsm1 & Hpub & Hc1 & Hb1 & _ & Hch1).
    cbn [BroadcastAll]. rewrite Hpub. step.
    destruct (IH wsm1 {| chan_buf := take 100 (chan_buf ch ++ [m]); chan_closed := false |})
      as (wsm' & Hall & Hc & Hb & Hchs).
    + by rewrite Hb1.
    + by rewrite Hch1, lookup_insert_eq.
    + done.
    + cbn. unfold len, chan_cap. rewrite length_take. lia.
    + exists wsm'. split; [done|]. split; [congruence|]. split; [congruence|].
      rewrite Hchs, Hch1, insert_insert_eq. cbn. do 2 f_equal.
      unfold len, chan_cap in Hle.
      destruct (decide (length (chan_buf ch) < 100)%nat).
      * rewrite (take_ge (chan_buf ch ++ [m])) by (rewrite length_app; cbn; lia).
        by rewrite <- app_assoc.
      * rewrite (take_app_le (chan_buf ch) [m]) by lia.
        rewrite (take_ge (chan_buf ch)) by lia.
        by rewrite !take_app_le by lia.
Qed.

(** X19. Publishing a sequence of messages to a scan whose queue is open
    leaves in the queue the first 100 of the messages it held followed by
    the new ones, in their order: the messages for which there is no room
    are dropped, the queue stays open, and the clients of all scans and
    the queues of the other scans stay as they are. *)
Theorem BroadcastAll_lossy_fifo wsm scanID messages ch :
  scan_chan wsm scanID = Some ch →
  chan_closed ch = false →
  len (chan_buf ch) ≤ chan_cap →
  ∃ wsm',
    BroadcastAll wsm scanID messages = Some wsm'
    ∧ scan_chan wsm' scanID
      = Some {| chan_buf := take 100 (chan_buf ch ++ messages); chan_closed := false |}
    ∧ clients wsm' = clients wsm
    ∧ broadcast wsm' = broadcast wsm
    ∧ ∀ b, broadcast wsm !! scanID ≠ Some b → chans wsm' !! b = chans wsm !! b.
Proof.
  unfold scan_chan. intros Hch Hopen Hle.
  destruct (broadcast wsm !! scanID) as [a|] eqn:Ha; [|done]. cbn in Hch.
  destruct (BroadcastAll_chans wsm scanID messages a ch Ha Hch Hopen Hle)
    as (wsm' & Hall & Hc & Hb & Hchs).
  exists wsm'. split; [done|]. rewrite Hb, Ha, Hchs. cbn.
  rewrite lookup_insert_eq. repeat split; [done|].
  intros b Hb'. rewrite lookup_insert_ne; [done|congruence].
Qed.

Lemma receive_all_take wsm a k ch :
  chans wsm !! a = Some ch →
  receive_all wsm a k
  = (take k (chan_buf ch),
     {| clients := clients wsm; broadcast := broadcast wsm;
        chans := <[a := {| chan_buf := drop k (chan_buf ch);
                           chan_closed := chan_closed ch |}]> (chans wsm);
        next_chan := next_chan wsm |}).
Proof.
  revert wsm ch. induction k as [|k IH]; intros wsm ch Hch; cbn [receive_all].
  - cbn. rewrite insert_id; [by destruct wsm|]. by destruct ch.
  - unfold chan_receive. rewrite Hch. step.
    destruct (chan_buf ch) as [|m rest] eqn:Hbuf.
    + cbn. rewrite insert_id; [by destruct wsm|]. rewrite Hch. f_equal.
      destruct ch. cbn in *. by subst.
    + erewrite IH by (cbn; apply lookup_insert_eq). cbn.
      by rewrite insert_insert_eq.
Qed.

(** X20. Delivery is first in, first out: after a sequence of messages
    is published to an open queue, the dispatcher receives the messages
    the queue held, then the new ones, in their order, as far as the
    capacity of 100 went. *)
Theorem publish_then_receive wsm scanID messages a ch k :
  broadcast wsm !! scanID = Some a →
  chans wsm !! a = Some ch →
  chan_closed ch = false →
  len (chan_buf ch) ≤ chan_cap →
  ∃ wsm',
    BroadcastAll wsm scanID messages = Some wsm'
    ∧ (receive_all wsm' a k).1 = take k (take 100 (chan_buf ch ++ messages)).
Proof.
  intros Ha Hch Hopen Hle.
  destruct (BroadcastAll_chans wsm scanID messages a ch Ha Hch Hopen Hle)
    as (wsm' & Hall & _ & _ & Hchs).
  exists wsm'. split; [done|].
  erewrite receive_all_take by (rewrite Hchs; apply lookup_insert_eq). done.
Qed.

Lemma wsm_reachable_nonempty wsm : wsm_reachable wsm → wsm_nonempty wsm.
Proof.
  induction 1 as [|wsm scanID conn _ IH|wsm scanID conn wsm' _ IH Hun
                 |wsm scanID message wsm' _ IH Hbc|wsm a message wsm' _ IH Hrecv];
    intros id conns Hid.
  - cbn in Hid. by rewrite lookup_empty in Hid.
  - unfold RegisterClient in Hid.
    destruct (clients wsm !! scanID) as [conns0|] eqn:Hconns; cbn in Hid.
    + rewrite lookup_alter in Hid. case_decide; [|by eapply IH].
      subst id. rewrite Hconns in Hid. injection Hid as <-. set_solver.
    + rewrite lookup_alter in Hid. case_decide.
      * subst id. rewrite lookup_insert_eq in Hid. injection Hid as <-. set_solver.
      * rewrite lookup_insert_ne in Hid by done. by eapply IH.
  - unfold UnregisterClient in Hun.
    destruct (clients wsm !! scanID) as [conns0|]; [|injection Hun as <-; by eapply IH].
    destruct (decide (conn ∈ conns0)); [|injection Hun as <-; by eapply IH].
    destruct (decide (size (conns0 ∖ {[conn]}) = 0%nat)) as [|Hsize].
    + destruct (close _ _); [|done]. injection Hun as <-. cbn in Hid.
      apply lookup_delete_Some in Hid as [_ Hid]. by eapply IH.
    + injection Hun as <-. cbn in Hid.
      apply lookup_insert_Some in Hid as [[_ <-]|[_ Hid]]; [|by eapply IH].
      intros Hempty. apply Hsize. rewrite Hempty. apply size_empty.
  - unfold BroadcastToScan in Hbc.
    destruct (broadcast wsm !! scanID) as [a|]; [|injection Hbc as <-; by eapply IH].
    destruct (chans wsm !! a) as [ch|]; [|injection Hbc as <-; by eapply IH].
    destruct (chan_closed ch); [done|].
    destruct (len (chan_buf ch) <? chan_cap); injection Hbc as <-; by eapply IH.
  - unfold chan_receive in Hrecv. destruct (chans wsm !! a) as [ch|]; [|done].
    cbn in Hrecv. destruct (chan_buf ch); [done|]. injection Hrecv as _ <-.
    by eapply IH.
Qed.

(** X21. [RegisterClient] makes the connection a client of the scan and
    keeps the clients the scan had. The first client of a scan gets it a
    new, empty and open queue; a later one shares the queue there is,
    with the messages it holds. Other scans are untouched, and
    registering a connection again changes nothing. *)
Theorem RegisterClient_subscribes wsm scanID conn :
  let wsm' := RegisterClient wsm scanID conn in
  clients wsm' !! scanID
    = Some ({[conn]} ∪ default ∅ (clients wsm !! scanID))
  ∧ (∀ id, id ≠ scanID →
       clients wsm' !! id = clients wsm !! id
       ∧ broadcast wsm' !! id = broadcast wsm !! id)
  ∧ (is_Some (clients wsm !! scanID) →
       broadcast wsm' = broadcast wsm ∧ chans wsm' = chans wsm)
  ∧ (clients wsm !! scanID = None →
       broadcast wsm' !! scanID = Some (next_chan wsm)
       ∧ chans wsm' !! next_chan wsm = Some {| chan_buf := []; chan_closed := false |})
  ∧ RegisterClient wsm' scanID conn = wsm'.
Proof.
  intros wsm'. unfold wsm', RegisterClient.
  destruct (clients wsm !! scanID) as [conns|] eqn:Hconns; cbn.
  - rewrite lookup_alter, decide_True, Hconns by done. cbn.
    split; [done|].
    split; [intros id Hne; rewrite lookup_alter_ne by congruence; done|].
    split; [done|]. split; [done|].
    f_equal. apply map_eq. intros id. destruct (decide (id = scanID)) as [->|Hne].
    + rewrite !lookup_alter_eq, Hconns. cbn. f_equal.
      by rewrite (assoc_L (∪)), union_idemp_L.
    + by rewrite !lookup_alter_ne by congruence.
  - rewrite lookup_alter, decide_True, !lookup_insert_eq by done. cbn.
    split; [done|].
    split; [intros id Hne;
            rewrite lookup_alter_ne, !lookup_insert_ne by congruence; done|].
    split; [by intros [? ?]|]. split; [done|].
    f_equal. apply map_eq. intros id. destruct (decide (id = scanID)) as [->|Hne].
    + rewrite !lookup_alter_eq, lookup_insert_eq. cbn. f_equal.
      by rewrite (assoc_L (∪)), union_idemp_L.
    + by rewrite !lookup_alter_ne by congruence.
Qed.

(** X22. [UnregisterClient] changes nothing for a scan without clients
    or a connection that is not a client of the scan. When the
    connection is a client and not the last one, only it is removed: the
    other clients stay, and so does the queue with its messages. *)
Theorem UnregisterClient_keeps_queue wsm scanID conn :
  (conn ∉ default ∅ (clients wsm !! scanID) →
     UnregisterClient wsm scanID conn = Some wsm)
  ∧ (∀ conns,
       clients wsm !! scanID = Some conns → conn ∈ conns → conns ∖ {[conn]} ≠ ∅ →
       UnregisterClient wsm scanID conn
       = Some {| clients := <[scanID := conns ∖ {[conn]}]> (clients wsm);
                 broadcast := broadcast wsm; chans := chans wsm;
                 next_chan := next_chan wsm |}).
Proof.
  unfold UnregisterClient. split.
  - destruct (clients wsm !! scanID) as [conns|]; cbn; [|done].
    intros Hnot. by rewrite decide_False.
  - intros conns -> Hin Hne. rewrite decide_True by done.
    rewrite decide_False; [done|]. intros Hsize. by apply size_empty_inv, leibniz_equiv in Hsize.
Qed.

(** The loop of [handleBroadcast_step] over the clients. *)
Lemma dispatch_all_ok (write_ok : Conn → bool) (wsm : WebSocketManager)
    (scanID : string) (message : WebSocketMessage.t) (conns : list Conn)
    (sent : list (Conn * WebSocketMessage.t)) :
  Forall (λ conn, write_ok conn = true) conns →
  foldl
    (λ acc conn,
       '(wsm, sent) ← acc;
       if write_ok conn then Some (wsm, sent ++ [(conn, message)])
       else wsm ← UnregisterClient wsm scanID conn; Some (wsm, sent))
    (Some (wsm, sent)) conns
  = Some (wsm, sent ++ ((λ conn, (conn, message)) <$> conns)).
Proof.
  intros Hok. revert sent. induction Hok as [|conn conns Hconn _ IH]; intros sent; cbn.
  - by rewrite app_nil_r.
  - rewrite Hconn, IH. by rewrite <- app_assoc.
Qed.

(** X23. A turn of the dispatcher in which every write succeeds takes
    the oldest message off the queue and writes it once to each client
    the scan has, to no one else, and changes nothing else. *)
Theorem handleBroadcast_step_delivers (write_ok : Conn → bool) wsm scanID a ch
    message rest :
  chans wsm !! a = Some ch →
  chan_buf ch = message :: rest →
  (∀ conn, conn ∈ default ∅ (clients wsm !! scanID) → write_ok conn = true) →
  ∃ sent,
    handleBroadcast_step write_ok wsm scanID a
    = Some ({| clients := clients wsm; broadcast := broadcast wsm;
               chans := <[a := {| chan_buf := rest; chan_closed := chan_closed ch |}]>
                          (chans wsm);
               next_chan := next_chan wsm |}, sent)
    ∧ sent.*2 = replicate (length sent) message
    ∧ NoDup sent.*1
    ∧ ∀ conn, conn ∈ sent.*1 ↔ conn ∈ default ∅ (clients wsm !! scanID).
Proof.
  intros Hch Hbuf Hok. unfold handleBroadcast_step, chan_receive.
  rewrite Hch. step. rewrite Hbuf. step. cbn [clients].
  set (conns := default ∅ (clients wsm !! scanID)) in *.
  rewrite dispatch_all_ok
    by (apply Forall_forall; intros conn Hconn; apply Hok; by apply elem_of_elements).
  eexists. split; [done|]. cbn.
  assert (∀ l : list Conn,
            ((λ conn, (conn, message)) <$> l).*1 = l
            ∧ ((λ conn, (conn, message)) <$> l).*2
              = replicate (length ((λ conn, (conn, message)) <$> l)) message) as Hmap.
  { induction l as [|c l [IH1 IH2]]; cbn; [done|]. by rewrite IH1, IH2 at 1. }
  destruct (Hmap (elements conns)) as [-> ->].
  split; [done|]. split; [apply NoDup_elements|]. intros conn. apply elem_of_elements.
Qed.

(** [UnregisterClient] of a client, in a state a run reaches. *)
Lemma UnregisterClient_member wsm scanID conn conns :
  wsm_reachable wsm →
  clients wsm !! scanID = Some conns → conn ∈ conns →
  ∃ wsm',
    UnregisterClient wsm scanID conn = Some wsm'
    ∧ (∀ id, id ≠ scanID → clients wsm' !! id = clients wsm !! id)
    ∧ (conns ∖ {[conn]} = ∅ →
       clients wsm' !! scanID = None ∧ broadcast wsm' !! scanID = None)
    ∧ (conns ∖ {[conn]} ≠ ∅ → clients wsm' !! scanID = Some (conns ∖ {[conn]})).
Proof.
  intros Hreach Hconns Hin. destruct (wsm_reachable_inv wsm Hreach) as [Hopen _ Hcl].
  unfold UnregisterClient. rewrite Hconns, decide_True by done.
  destruct (decide (size (conns ∖ {[conn]}) = 0%nat)) as [Hsize|Hsize].
  - destruct (Hcl scanID) as [a Ha]; [by rewrite Hconns|].
    destruct (Hopen scanID a Ha) as [_ (ch & Hch & Hclosed)].
    unfold close. rewrite Ha. step. rewrite Hch. step. rewrite Hclosed. step.
    eexists. split; [done|]. cbn.
    split; [intros id Hne; by rewrite lookup_delete_ne by congruence|].
    rewrite !lookup_delete_eq. split; [done|].
    intros Hne. destruct Hne. by apply leibniz_equiv, size_empty_inv.
  - eexists. split; [done|]. cbn.
    split; [intros id Hne; by rewrite lookup_insert_ne by congruence|].
    rewrite lookup_insert_eq. split; [|done].
    intros Hempty. destruct Hsize. rewrite Hempty. apply size_empty.
Qed.

Lemma dispatch_loop (write_ok : Conn → bool) (scanID : string)
    (message : WebSocketMessage.t) (conns : gset Conn) (l : list Conn) :
  NoDup l → (∀ c, c ∈ l → c ∈ conns) →
  ∀ (wsm : WebSocketManager) (sent : list (Conn * WebSocketMessage.t)),
    wsm_reachable wsm →
    match clients wsm !! scanID with
    | Some alive => ∀ c, c ∈ alive ↔ c ∈ conns ∧ (c ∈ l ∨ write_ok c = true)
    | None => ∀ c, c ∈ conns → (c ∉ l) ∧ write_ok c = false
    end →
    (clients wsm !! scanID = None → broadcast wsm !! scanID = None) →
    ∃ wsm',
      foldl
        (λ acc conn,
           '(wsm, sent) ← acc;
           if write_ok conn then Some (wsm, sent ++ [(conn, message)])
           else wsm ← UnregisterClient wsm scanID conn; Some (wsm, sent))
        (Some (wsm, sent)) l
      = Some (wsm', sent ++ ((λ c, (c, message)) <$> filter (λ c, write_ok c = true) l))
      ∧ match clients wsm' !! scanID with
        | Some alive => ∀ c, c ∈ alive ↔ c ∈ conns ∧ write_ok c = true
        | None => ∀ c, c ∈ conns → write_ok c = false
        end
      ∧ (clients wsm' !! scanID = None → broadcast wsm' !! scanID = None)
      ∧ ∀ id, id ≠ scanID → clients wsm' !! id = clients wsm !! id.
Proof.
  intros Hnd. induction Hnd as [|c l Hc Hnd IH]; intros Hsub wsm sent Hreach Halive Hq.
  - exists wsm. cbn. rewrite app_nil_r. split; [done|]. split; [|done].
    destruct (clients wsm !! scanID) as [alive|].
    + intros c. rewrite Halive. split; [|by intros [? ?]; auto].
      intros [? [Hin|?]]; [by apply not_elem_of_nil in Hin|done].
    + intros c Hin. by apply Halive.
  - assert (c ∈ conns) as Hcin by (apply Hsub; left).
    destruct (clients wsm !! scanID) as [alive|] eqn:Hclients;
      [|destruct (Halive c Hcin) as [Hnot _]; destruct Hnot; left].
    cbn [foldl]. step. destruct (write_ok c) eqn:Hok.
    + destruct (IH (λ c' Hc', Hsub c' (list_elem_of_further _ _ _ Hc'))
                  wsm (sent ++ [(c, message)]) Hreach) as (wsm' & Hrun & Hrest).
      * rewrite Hclients. intros c'. rewrite Halive. split.
        -- intros [? [Hin|?]]; [|by auto]. apply elem_of_cons in Hin as [->|?]; auto.
        -- intros [? [?|?]]; (split; [done|]); [left; by right|by right].
      * intros Hnone. congruence.
      * exists wsm'. rewrite Hrun. rewrite filter_cons_True by done. cbn.
        rewrite <- app_assoc. done.
    + assert (c ∈ alive) as Hcalive by (apply Halive; split; [done|left; left]).
      destruct (UnregisterClient_member wsm scanID c alive Hreach Hclients Hcalive)
        as (wsm1 & Hun & Hother & Hlast & Hmore).
      rewrite Hun. step.
      destruct (IH (λ c' Hc', Hsub c' (list_elem_of_further _ _ _ Hc'))
                  wsm1 sent) as (wsm' & Hrun & Ha' & Hq' & Hother').
      * by eapply wsm_reachable_UnregisterClient.
      * destruct (decide (alive ∖ {[c]} = ∅)) as [Hempty|Hne].
        -- destruct (Hlast Hempty) as [-> _]. intros c' Hc'.
           assert (c' ∉ alive ∖ {[c]}) as Hnot by (rewrite Hempty; apply not_elem_of_empty).
           rewrite elem_of_difference, elem_of_singleton, Halive in Hnot.
           split.
           ++ intros Hin. apply Hnot. split; [split; [done|left; by right]|].
              intros ->. done.
           ++ destruct (write_ok c') eqn:Hok'; [|done]. destruct Hnot.
              split; [split; [done|by right]|]. intros ->. congruence.
        -- rewrite (Hmore Hne). intros c'.
           rewrite elem_of_difference, elem_of_singleton, Halive. split.
           ++ intros [[? [Hin|?]] Hneq]; (split; [done|]); [|by right].
              apply elem_of_cons in Hin as [->|?]; [done|by left].
           ++ intros [? [Hin|Hok']]; (split; [split; [done|]|]).
              ** left. by right.
              ** intros ->. done.
              ** by right.
              ** intros ->. congruence.
      * destruct (decide (alive ∖ {[c]} = ∅)) as [Hempty|Hne].
        -- by destruct (Hlast Hempty).
        -- rewrite (Hmore Hne). done.
      * exists wsm'. rewrite Hrun.
        rewrite filter_cons_False by (rewrite Hok; done).
        split; [done|]. split; [done|]. split; [done|].
        intros id Hid. rewrite Hother' by done. by apply Hother.
Qed.

(** X24. The membership of a scan heals itself: in a state a run
    reaches, a turn of the dispatcher writes the oldest message to the
    clients on which the write succeeds, once each, and unregisters the
    others; the clients left are exactly the former; when none is left
    the scan has no client set and no queue any more. The clients of the
    other scans are untouched. *)
Theorem handleBroadcast_step_heals (write_ok : Conn → bool) wsm scanID a ch
    message rest conns :
  wsm_reachable wsm →
  chans wsm !! a = Some ch →
  chan_buf ch = message :: rest →
  clients wsm !! scanID = Some conns →
  ∃ wsm' sent,
    handleBroadcast_step write_ok wsm scanID a = Some (wsm', sent)
    ∧ sent.*2 = replicate (length sent) message
    ∧ NoDup sent.*1
    ∧ (∀ conn, conn ∈ sent.*1 ↔ conn ∈ conns ∧ write_ok conn = true)
    ∧ match clients wsm' !! scanID with
      | Some alive => ∀ conn, conn ∈ alive ↔ conn ∈ conns ∧ write_ok conn = true
      | None =>
          (∀ conn, conn ∈ conns → write_ok conn = false)
          ∧ broadcast wsm' !! scanID = None
      end
    ∧ ∀ id, id ≠ scanID → clients wsm' !! id = clients wsm !! id.
Proof.
  intros Hreach Hch Hbuf Hconns.
  assert (chan_receive wsm a
          = Some (message,
                  {| clients := clients wsm; broadcast := broadcast wsm;
                     chans := <[a := {| chan_buf := rest; chan_closed := chan_closed ch |}]>
                                (chans wsm);
                     next_chan := next_chan wsm |})) as Hrecv
    by (unfold chan_receive; rewrite Hch; step; by rewrite Hbuf).
  pose proof (wsm_reachable_receive _ _ _ _ Hreach Hrecv) as Hreach1.
  unfold handleBroadcast_step. rewrite Hrecv. step. cbn [clients]. rewrite Hconns. cbn.
  match goal with
  | |- context [foldl _ (Some (?w, [])) _] =>
      destruct (dispatch_loop write_ok scanID message conns (elements conns)
                  (NoDup_elements conns)
                  (λ c Hc, proj1 (elem_of_elements conns c) Hc) w [] Hreach1)
        as (wsm' & Hrun & Halive & Hq & Hother)
  end.
  - cbn. rewrite Hconns. intros c. rewrite elem_of_elements.
    split; [intros ?; split; [done|by left]|by intros [? _]].
  - cbn. by rewrite Hconns.
  - exists wsm'. eexists. split; [exact Hrun|]. cbn.
    assert (∀ l : list Conn,
              ((λ conn, (conn, message)) <$> l).*1 = l
              ∧ ((λ conn, (conn, message)) <$> l).*2
                = replicate (length ((λ conn, (conn, message)) <$> l)) message) as Hmap.
    { induction l as [|c l [IH1 IH2]]; cbn; [done|]. by rewrite IH1, IH2 at 1. }
    destruct (Hmap (filter (λ c, write_ok c = true) (elements conns))) as [-> ->].
    split; [done|]. split; [apply NoDup_filter, NoDup_elements|].
    split; [intros conn; rewrite list_elem_of_filter, elem_of_elements;
            split; intros [? ?]; by split|].
    split; [|done].
    destruct (clients wsm' !! scanID); [done|]. split; [done|by apply Hq].
Qed.

(** ** Handlers, continued *)

Section callbacks.
Context {Cloud : Type} `{!StringsPkg}.
Implicit Types (h : Handler Cloud).

Lemma Handler_eta h : {| orchestrator := orchestrator h; wsManager := wsManager h |} = h.
Proof. by destruct h. Qed.

(** X25. The callbacks of a worker for a scan that is not registered are
    acknowledged with status 200 all the same, and store nothing: a
    heartbeat and a completion leave the handler as it is (nothing is
    published, no cleanup is scheduled), and a result leaves the
    orchestrator as it is; when no client subscribed to that ID either,
    the result is lost without a trace. *)
Theorem callbacks_for_unknown_scan h scanID workerID heartbeat result now :
  activeScans (orchestrator h) !! scanID = None →
  WorkerHeartbeat h scanID workerID (inr heartbeat)
    = Some (h, JSON 200 [("status", JString "updated")])
  ∧ CompleteWorker h scanID workerID
    = Some (h, JSON 200 [("status", JString "completed")], false)
  ∧ (∀ h' response,
       ReceiveResults h scanID workerID (inr result) now = Some (h', response) →
       orchestrator h' = orchestrator h
       ∧ response = JSON 200 [("status", JString "received")])
  ∧ (broadcast (wsManager h) !! scanID = None →
     ReceiveResults h scanID workerID (inr result) now
     = Some (h, JSON 200 [("status", JString "received")])).
Proof.
  intros Hnone.
  assert (∀ p d, UpdateWorkerProgress (orchestrator h) scanID workerID p d
                 = orchestrator h) as Hupd
    by (intros p d; unfold UpdateWorkerProgress; by rewrite Hnone).
  assert (∀ r, AddResult (orchestrator h) scanID r = orchestrator h) as Hadd
    by (intros r; unfold AddResult; by rewrite Hnone).
  split; [|split; [|split]].
  - unfold WorkerHeartbeat. rewrite Hupd. unfold GetScanStatus. rewrite Hnone.
    step. by rewrite Handler_eta.
  - unfold CompleteWorker. rewrite Hupd. unfold GetScanStatus. rewrite Hnone.
    step. by rewrite Handler_eta.
  - intros h' response. unfold ReceiveResults. rewrite Hadd.
    destruct (BroadcastToScan _ _ _); [|done]. step. by intros [= <- <-].
  - intros Hq. unfold ReceiveResults. rewrite Hadd.
    rewrite BroadcastToScan_no_queue by done. step. by rewrite Handler_eta.
Qed.

(** X26. A completion callback for a registered scan that has no worker
    yet (none of its droplets was seen ready) finds every worker complete:
    the scan is marked [completed] and its cleanup is scheduled. *)
Theorem CompleteWorker_without_workers h scanID workerID scan wsm :
  activeScans (orchestrator h) !! scanID = Some scan →
  ScanStatus.ActiveDroplets scan = [] →
  BroadcastToScan (wsManager h) scanID
    {| WebSocketMessage.Type_ := "scan_complete";
       WebSocketMessage.Data := StatusData (ScanStatus.set_Status "completed" scan) |}
  = Some wsm →
  CompleteWorker h scanID workerID
  = Some ({| orchestrator :=
               set_activeScans
                 (<[scanID := ScanStatus.set_Status "completed" scan]>
                    (activeScans (orchestrator h))) (orchestrator h);
             wsManager := wsm |},
          JSON 200 [("status", JString "completed")], true).
Proof.
  intros Hscan Hnone Hpub. destruct scan as [sid p ws rs td sd st].
  cbn in Hnone. subst ws.
  unfold CompleteWorker, UpdateWorkerProgress, GetScanStatus.
  rewrite Hscan. unfold ScanStatus.set_Status, ScanStatus.set_ActiveDroplets in *.
  cbn in *. rewrite lookup_insert_eq. unfold len. cbn.
  change (0 <? Z.of_nat 0) with false. cbn. rewrite Hpub. step.
  by rewrite insert_insert_eq.
Qed.

(** X27. A result that arrives while the queue of its scan is full is
    handed to [AddResult] and acknowledged with status 200, and not
    published: the websocket manager stays as it is. *)
Theorem ReceiveResults_full_queue h scanID workerID result now ch :
  scan_chan (wsManager h) scanID = Some ch →
  chan_closed ch = false →
  chan_cap ≤ len (chan_buf ch) →
  ReceiveResults h scanID workerID (inr result) now
  = Some ({| orchestrator :=
               AddResult (orchestrator h) scanID
                 {| ScanResult.Host := ScanResult.Host result;
                    ScanResult.Template := ScanResult.Template result;
                    ScanResult.Severity := ScanResult.Severity result;
                    ScanResult.Match := ScanResult.Match result;
                    ScanResult.Timestamp := now;
                    ScanResult.WorkerID := workerID |};
             wsManager := wsManager h |},
          JSON 200 [("status", JString "received")]).
Proof.
  unfold scan_chan. intros Hch Hopen Hfull.
  unfold ReceiveResults, BroadcastToScan.
  destruct (broadcast (wsManager h) !! scanID) as [a|]; [|done]. cbn in Hch.
  rewrite Hch, Hopen. by destruct (Z.ltb_spec (len (chan_buf ch)) chan_cap); [lia|].
Qed.

(** X28. Submission and status query compose: the ID a successful
    [StartScan] request answers with is at once known to the status
    query, which shows the scan in state [starting], with progress 0, no
    worker, no result, and as many domains as were left after trimming. *)
Theorem submitted_scan_is_visible h req uuid uuid' h' tasks id :
  Handler_StartScan h (inr req) uuid uuid'
  = Some (h',
          JSON 200 [("scan_id", JString id);
                    ("message", JString "Scan started successfully");
                    ("domains_count",
                     JInt (len (cleanDomains (ScanRequest.Domains req))))],
          tasks) →
  Handler_GetScanStatus h' id
  = JSONStatus 200
      {| ScanStatus.ID := id; ScanStatus.Progress := 0;
         ScanStatus.ActiveDroplets := []; ScanStatus.Results := [];
         ScanStatus.TotalDomains := len (cleanDomains (ScanRequest.Domains req));
         ScanStatus.ScannedDomains := 0; ScanStatus.Status := "starting" |}.
Proof.
  unfold Handler_StartScan.
  destruct (len (ScanRequest.Domains req) =? 0); [done|].
  destruct (len (cleanDomains (ScanRequest.Domains req)) =? 0); [done|].
  unfold StartScan. cbn.
  set (req1 := if decide (uuid = "") then _ else _).
  destruct (OptimizeDistribution _ _ _) as [[n chunks]|]; [|done]. cbn.
  intros [= <- <- _]. unfold Handler_GetScanStatus, GetScanStatus. cbn.
  rewrite lookup_insert_eq. do 2 f_equal. unfold req1. by destruct (decide _).
Qed.

End callbacks.

(** ** Result export *)

Lemma string_app_assoc (s t u : string) : (s +:+ t) +:+ u = s +:+ (t +:+ u).
Proof.
  induction s as [|c s IH]; [done|].
  change (String c ((s +:+ t) +:+ u) = String c (s +:+ (t +:+ u))). by rewrite IH.
Qed.

Lemma string_app_nil_r (s : string) : s +:+ "" = s.
Proof.
  induction s as [|c s IH]; [done|].
  change (String c (s +:+ "") = String c s). by rewrite IH.
Qed.

Lemma split_on_free sep s : free_of sep s → split_on sep s = [s].
Proof.
  induction s as [|c s IH]; [done|]. intros [Hne Hfree].
  cbn [split_on]. rewrite IH by done. by rewrite decide_False.
Qed.

Lemma split_on_nonempty sep s : split_on sep s ≠ [].
Proof.
  induction s as [|c s IH]; cbn; [done|].
  destruct (split_on sep s); [done|]. by case_decide.
Qed.

Lemma split_on_app sep s t :
  free_of sep s → split_on sep (s +:+ String sep t) = s :: split_on sep t.
Proof.
  induction s as [|c s IH].
  - intros _. change (split_on sep (String sep t) = "" :: split_on sep t).
    cbn [split_on]. pose proof (split_on_nonempty sep t) as Hne.
    destruct (split_on sep t) as [|f fs]; [done|]. by rewrite decide_True.
  - intros [Hne Hfree].
    change (split_on sep (String c (s +:+ String sep t))
            = String c s :: split_on sep t).
    cbn [split_on]. rewrite IH by done. by rewrite decide_False.
Qed.

Lemma free_of_app c s t : free_of c s → free_of c t → free_of c (s +:+ t).
Proof.
  induction s as [|c' s IH]; [done|]. intros [Hne Hs] Ht.
  change (c' ≠ c ∧ free_of c (s +:+ t)). split; [done|by apply IH].
Qed.

Lemma join_fields_cons f f' fs :
  join_fields (f :: f' :: fs)
  = f +:+ String (Ascii.ascii_of_nat 44) (join_fields (f' :: fs)).
Proof. reflexivity. Qed.

Lemma split_on_join fields :
  fields ≠ [] → Forall (free_of (Ascii.ascii_of_nat 44)) fields →
  split_on (Ascii.ascii_of_nat 44) (join_fields fields) = fields.
Proof.
  intros Hne Hfree. induction Hfree as [|f fs Hf Hfs IH]; [done|].
  destruct fs as [|f' fs].
  - by apply split_on_free.
  - rewrite join_fields_cons, split_on_app by done. by rewrite IH.
Qed.

Lemma free_of_join fields :
  Forall (free_of (Ascii.ascii_of_nat 10)) fields →
  free_of (Ascii.ascii_of_nat 10) (join_fields fields).
Proof.
  induction 1 as [|f fs Hf Hfs IH]; [done|].
  destruct fs as [|f' fs]; [done|]. rewrite join_fields_cons.
  apply free_of_app; [done|]. split; [done|apply IH].
Qed.

Lemma split_on_lines (lines : list (list string)) :
  Forall (Forall (free_of (Ascii.ascii_of_nat 10))) lines →
  split_on (Ascii.ascii_of_nat 10)
    (foldr (λ fields rest, join_fields fields +:+ newline +:+ rest) "" lines)
  = (join_fields <$> lines) ++ [""].
Proof.
  induction 1 as [|fs fss Hfs _ IH]; [done|]. cbn [foldr fmap list_fmap app].
  change (newline +:+ ?r) with (String (Ascii.ascii_of_nat 10) r).
  rewrite split_on_app by (by apply free_of_join). by rewrite IH.
Qed.

Section export_properties.
Context {Cloud : Type} `{!TimeFormat}.
Implicit Types (h : Handler Cloud).

Lemma csv_row_join result : csv_row result = join_fields (csv_fields result) +:+ newline.
Proof. unfold csv_row, csv_fields. cbn [join_fields]. by rewrite !string_app_assoc. Qed.

Lemma csv_body results body :
  fold_left (λ body result, body +:+ csv_row result) results body
  = body +:+ foldr (λ fields rest, join_fields fields +:+ newline +:+ rest) ""
               (csv_fields <$> results).
Proof.
  revert body. induction results as [|r rs IH]; intros body;
    cbn [fold_left fmap list_fmap foldr].
  - by rewrite string_app_nil_r.
  - by rewrite IH, csv_row_join, !string_app_assoc.
Qed.

(** X29. The CSV export can be read back: for a registered scan and an
    [Accept] header that mentions [text/csv], [GetResults] answers with
    status 200 and a text which, when no field of a result (its formatted
    time included) contains a comma or a newline, splits at its newlines
    and commas into the header line followed by the six fields of every
    result, in the order of ingestion. Nothing is quoted, so the
    condition is needed. *)
Theorem GetResults_csv_reads_back h scanID accept status :
  GetScanStatus (orchestrator h) scanID = Some status →
  strings_Contains accept "text/csv" = true →
  Forall (λ result,
            Forall (λ field, free_of (Ascii.ascii_of_nat 44) field
                             ∧ free_of (Ascii.ascii_of_nat 10) field)
                   (csv_fields result))
         (ScanStatus.Results status) →
  ∃ headers body,
    GetResults h scanID accept = ResultsCSV 200 headers body
    ∧ csv_read body = csv_header :: (csv_fields <$> ScanStatus.Results status).
Proof.
  intros Hstatus Haccept Hclean. unfold GetResults. rewrite Hstatus, Haccept.
  eexists _, _. split; [done|]. rewrite csv_body. unfold csv_read.
  rewrite string_app_assoc.
  change (split_on (Ascii.ascii_of_nat 44) <$>
            removelast
              (split_on (Ascii.ascii_of_nat 10)
                 (foldr (λ fields rest, join_fields fields +:+ newline +:+ rest) ""
                    (csv_header :: (csv_fields <$> ScanStatus.Results status))))
          = csv_header :: (csv_fields <$> ScanStatus.Results status)).
  assert (Forall (λ fields, fields ≠ []
                            ∧ Forall (free_of (Ascii.ascii_of_nat 44)) fields
                            ∧ Forall (free_of (Ascii.ascii_of_nat 10)) fields)
            (csv_header :: (csv_fields <$> ScanStatus.Results status))) as Hall.
  { constructor.
    - split; [done|]. split; repeat constructor; cbn; repeat split; done.
    - apply Forall_fmap. eapply Forall_impl; [exact Hclean|].
      intros r Hr. cbn. split; [done|].
      split; (eapply Forall_impl; [exact Hr|]); by intros f [? ?]. }
  rewrite split_on_lines
    by (eapply Forall_impl; [exact Hall|]; by intros fs (_ & _ & ?)).
  rewrite removelast_last.
  induction Hall as [|fs fss (Hne & Hcomma & _) _ IH]; [done|].
  cbn [fmap list_fmap]. f_equal; [by apply split_on_join|apply IH].
Qed.

End export_properties.

(** ** Live connection *)

Lemma HandleWebSocket_read_types incoming :
  WebSocketMessage.Type_ <$> concat (HandleWebSocket_read <$> incoming)
  = replicate
      (length (filter (λ msg, WebSocketMessage.Type_ msg = "ping") incoming))
      "pong"%string.
Proof.
  induction incoming as [|m ms IH]; [done|]. cbn [fmap list_fmap concat].
  rewrite fmap_app, IH. unfold HandleWebSocket_read at 1.
  destruct (decide (WebSocketMessage.Type_ m = "ping")) as [Hping|Hother].
  - by rewrite filter_cons_True.
  - by rewrite filter_cons_False.
Qed.

(** X30. A connection from its upgrade to the read error that ends it,
    in a state a run reaches and for a connection that is not yet a
    client of the scan: first the status of the scan is written when the
    scan is registered (nothing when it is not, the connection being
    accepted all the same), then one [pong] for every [ping] read; when
    it ends the clients and the queue entries of all scans are as they
    were before it, and the orchestrator is untouched. *)
Theorem HandleWebSocket_session {Cloud : Type} (h : Handler Cloud) scanID conn incoming :
  wsm_reachable (wsManager h) →
  conn ∉ default ∅ (clients (wsManager h) !! scanID) →
  ∃ h' written,
    HandleWebSocket h scanID (Some conn) incoming = Some (h', written)
    ∧ orchestrator h' = orchestrator h
    ∧ clients (wsManager h') = clients (wsManager h)
    ∧ broadcast (wsManager h') = broadcast (wsManager h)
    ∧ WebSocketMessage.Type_ <$> written
      = (if activeScans (orchestrator h) !! scanID is Some _
         then ["status_update"] else [])
        ++ replicate
             (length (filter (λ msg, WebSocketMessage.Type_ msg = "ping") incoming))
             "pong"%string.
Proof.
  intros Hreach Hnew.
  pose proof (wsm_reachable_nonempty _ Hreach) as Hnonempty.
  pose proof (wsm_reachable_paired _ Hreach) as Hpaired.
  assert (∃ wsm',
            UnregisterClient (RegisterClient (wsManager h) scanID conn) scanID conn
            = Some wsm'
            ∧ clients wsm' = clients (wsManager h)
            ∧ broadcast wsm' = broadcast (wsManager h)) as (wsm' & Hun & Hc & Hb).
  { unfold RegisterClient, UnregisterClient.
    destruct (clients (wsManager h) !! scanID) as [conns|] eqn:Hconns;
      cbn [clients broadcast chans next_chan].
    - cbn in Hnew. rewrite lookup_alter_eq, Hconns. cbn.
      rewrite decide_True by (apply elem_of_union_l; by apply elem_of_singleton).
      assert (({[conn]} ∪ conns) ∖ {[conn]} = conns) as ->.
      { apply set_eq. intros c. rewrite elem_of_difference, elem_of_union, !elem_of_singleton.
        split; [by intros [[->|?] ?]|]. intros Hc. split; [by right|by intros ->]. }
      rewrite decide_False.
      2:{ intros Hsize. apply (Hnonempty scanID conns Hconns).
          by apply leibniz_equiv, size_empty_inv. }
      eexists. split; [done|]. cbn. split; [|done].
      apply map_eq. intros id. destruct (decide (id = scanID)) as [->|Hne].
      + by rewrite lookup_insert_eq.
      + by rewrite lookup_insert_ne, lookup_alter_ne by congruence.
    - rewrite lookup_alter_eq, lookup_insert_eq. cbn.
      rewrite decide_True by (apply elem_of_union_l; by apply elem_of_singleton).
      assert (({[conn]} ∪ ∅) ∖ {[conn]} = (∅ : gset Conn)) as ->.
      { apply set_eq. intros c. rewrite elem_of_difference, elem_of_union, !elem_of_singleton.
        split; [intros [[->|Hc] ?]; [done|by apply not_elem_of_empty in Hc]|].
        intros Hc. by apply not_elem_of_empty in Hc. }
      rewrite decide_True by apply size_empty.
      unfold close. rewrite lookup_insert_eq. step. rewrite lookup_insert_eq. step.
      eexists. split; [done|]. cbn.
      assert (broadcast (wsManager h) !! scanID = None) as Hnoq.
      { destruct (broadcast (wsManager h) !! scanID) eqn:Hq; [|done].
        destruct (Hpaired scanID) as [? ?]; [by eexists|congruence]. }
      split; apply map_eq; intros id; destruct (decide (id = scanID)) as [->|Hne].
      + by rewrite lookup_delete_eq.
      + by rewrite lookup_delete_ne, lookup_alter_ne, lookup_insert_ne by congruence.
      + by rewrite lookup_delete_eq.
      + by rewrite lookup_delete_ne, lookup_insert_ne by congruence. }
  unfold HandleWebSocket, HandleWebSocket_open, HandleWebSocket_close.
  cbn [wsManager orchestrator]. rewrite Hun. step.
  eexists _, _. split; [done|]. cbn. split; [done|]. split; [done|]. split; [done|].
  rewrite fmap_app, HandleWebSocket_read_types. unfold GetScanStatus.
  by destruct (activeScans (orchestrator h) !! scanID).
Qed.

(** ** The further properties on the simulated run *)

#[local] Existing Instances Sim.provider Sim.trim SimRun.launcher SimRun.script
  SimRun.seconds.

Lemma reachable_scan_wf_witness :
  ∃ scan, activeScans Sim.orch !! Sim.scan_id = Some scan ∧ scan_wf Sim.scan_id scan.
Proof.
  eexists. split; [vm_compute; reflexivity|].
  apply (reachable_scan_wf Sim.orch).
  - apply sample_orch_reachable.
  - vm_compute. reflexivity.
Defined.

Lemma scan_state_append_only_witness :
  (activeScans Sim.started !! Sim.scan_id = None →
   activeScans Sim.orch !! Sim.scan_id = None)
  ∧ (∀ scan,
       activeScans Sim.started !! Sim.scan_id = Some scan →
       ∃ scan', activeScans Sim.orch !! Sim.scan_id = Some scan'
                ∧ scan_extends scan scan').
Proof.
  apply (scan_state_append_only Sim.started Sim.orch Sim.scan_id).
  unfold Sim.orch.
  eapply rtc_l; [apply scan_step_ready|]. apply rtc_once, scan_step_ready.
Defined.


Lemma submitted_scan_is_provisioned_witness :
  ∃ prefix,
    string_to Sim.scan_id 8 = Some prefix
    ∧ Forall
        (λ task, ∀ o : Orchestrator Sim.Cloud,
           ∃ o' err waiter,
             createAndStartWorker o (task_scanID task) (task_index task)
               (task_domains task) = Some (o', err, waiter)
             ∧ activeScans o' = activeScans o
             ∧ (err = None ↔ is_Some waiter)
             ∧ ∀ w, waiter = Some w →
                 wait_scanID w = Sim.scan_id
                 ∧ wait_workerID w = worker_name prefix (task_index task)
                 ∧ wait_totalDomains w = len (task_domains task))
        SimRun.submitted.2.
Proof.
  apply (submitted_scan_is_provisioned Sim.handler Sim.request Sim.scan_id ""
           SimRun.submitted.1.1 SimRun.submitted.1.2 SimRun.submitted.2).
  - vm_compute. reflexivity.
  - vm_compute. lia.
Defined.

Lemma worker_names_distinct_witness :
  NoDup ((λ task, worker_name "3f2b8c1e" (task_index task))
           <$> (SimRun.planned Sim.request).1.2).
Proof.
  apply (worker_names_distinct (New Sim.cloud "192.0.2.1") Sim.request ""
           (SimRun.planned Sim.request).1.1.1 (SimRun.planned Sim.request).1.1.2
           (SimRun.planned Sim.request).1.2 (SimRun.planned Sim.request).2).
  vm_compute. reflexivity.
Defined.

Lemma short_scan_id_panics_witness :
  (SimRun.planned SimRun.short_request).1.2 ≠ []
  ∧ Forall (λ task, ∀ o'' : Orchestrator Sim.Cloud, run_task o'' task = None)
           (SimRun.planned SimRun.short_request).1.2.
Proof.
  apply (short_scan_id_panics (New Sim.cloud "192.0.2.1") SimRun.short_request ""
           (SimRun.planned SimRun.short_request).1.1.1
           (SimRun.planned SimRun.short_request).1.1.2
           (SimRun.planned SimRun.short_request).1.2
           (SimRun.planned SimRun.short_request).2).
  - vm_compute. reflexivity.
  - discriminate.
  - vm_compute. lia.
  - discriminate.
  - vm_compute. discriminate.
Defined.

Lemma callbacks_for_unknown_scan_witness :
  let h := Sim.handler in
  let result := SimRun.result "d0.com" in
  WorkerHeartbeat h "70a1" "70a1-worker-0" (inr SimRun.heartbeat)
    = Some (h, JSON 200 [("status", JString "updated")])
  ∧ CompleteWorker h "70a1" "70a1-worker-0"
    = Some (h, JSON 200 [("status", JString "completed")], false)
  ∧ (∀ h' response,
       ReceiveResults h "70a1" "70a1-worker-0" (inr result) 1700000050
       = Some (h', response) →
       orchestrator h' = orchestrator h
       ∧ response = JSON 200 [("status", JString "received")])
  ∧ (broadcast (wsManager h) !! "70a1"%string = None →
     ReceiveResults h "70a1" "70a1-worker-0" (inr result) 1700000050
     = Some (h, JSON 200 [("status", JString "received")])).
Proof.
  apply (callbacks_for_unknown_scan Sim.handler "70a1" "70a1-worker-0").
  vm_compute. reflexivity.
Defined.

Lemma CompleteWorker_without_workers_witness :
  ∃ scan wsm,
    activeScans Sim.started !! Sim.scan_id = Some scan
    ∧ CompleteWorker SimRun.fresh Sim.scan_id "3f2b8c1e-worker-0"
      = Some ({| orchestrator :=
                   set_activeScans
                     (<[Sim.scan_id := ScanStatus.set_Status "completed" scan]>
                        (activeScans Sim.started)) Sim.started;
                 wsManager := wsm |},
              JSON 200 [("status", JString "completed")], true).
Proof.
  eexists _, _. split; [vm_compute; reflexivity|].
  apply (CompleteWorker_without_workers SimRun.fresh Sim.scan_id "3f2b8c1e-worker-0").
  - vm_compute. reflexivity.
  - reflexivity.
  - vm_compute. reflexivity.
Defined.

Lemma ReceiveResults_full_queue_witness :
  let result := SimRun.result "d0.com" in
  ReceiveResults SimRun.full Sim.scan_id "3f2b8c1e-worker-0" (inr result) 1700000050
  = Some ({| orchestrator :=
               AddResult Sim.orch Sim.scan_id
                 {| ScanResult.Host := ScanResult.Host result;
                    ScanResult.Template := ScanResult.Template result;
                    ScanResult.Severity := ScanResult.Severity result;
                    ScanResult.Match := ScanResult.Match result;
                    ScanResult.Timestamp := 1700000050;
                    ScanResult.WorkerID := "3f2b8c1e-worker-0" |};
             wsManager := SimRun.published 100 |},
          JSON 200 [("status", JString "received")]).
Proof.
  apply (ReceiveResults_full_queue SimRun.full Sim.scan_id "3f2b8c1e-worker-0"
           (SimRun.result "d0.com") 1700000050
           {| chan_buf := replicate 100 (SimRun.message "tick"); chan_closed := false |}).
  - vm_compute. reflexivity.
  - reflexivity.
  - vm_compute. discriminate.
Defined.

Lemma submitted_scan_is_visible_witness :
  Handler_GetScanStatus SimRun.submitted.1.1 Sim.scan_id
  = JSONStatus 200
      {| ScanStatus.ID := Sim.scan_id; ScanStatus.Progress := 0;
         ScanStatus.ActiveDroplets := []; ScanStatus.Results := [];
         ScanStatus.TotalDomains := len (cleanDomains (ScanRequest.Domains Sim.request));
         ScanStatus.ScannedDomains := 0; ScanStatus.Status := "starting" |}.
Proof.
  apply (submitted_scan_is_visible Sim.handler Sim.request Sim.scan_id ""
           SimRun.submitted.1.1 SimRun.submitted.2 Sim.scan_id).
  vm_compute. reflexivity.
Defined.

Lemma GetResults_csv_reads_back_witness :
  ∃ status,
    GetScanStatus (orchestrator SimRun.with_results) Sim.scan_id = Some status
    ∧ ScanStatus.Results status = [SimRun.result "d0.com"; SimRun.result "d1.com"]
    ∧ ∃ headers body,
        GetResults SimRun.with_results Sim.scan_id "application/json, text/csv"
        = ResultsCSV 200 headers body
        ∧ csv_read body = csv_header :: (csv_fields <$> ScanStatus.Results status).
Proof.
  eexists. split; [vm_compute; reflexivity|]. split; [reflexivity|].
  apply (GetResults_csv_reads_back SimRun.with_results Sim.scan_id
           "application/json, text/csv").
  - vm_compute. reflexivity.
  - vm_compute. reflexivity.
  - vm_compute. repeat constructor; discriminate.
Defined.

Lemma HandleWebSocket_session_witness :
  let incoming := [SimRun.message "ping"; SimRun.message "hello"; SimRun.message "ping"] in
  ∃ h' written,
    HandleWebSocket SimRun.fresh Sim.scan_id (Some 8%nat) incoming = Some (h', written)
    ∧ orchestrator h' = orchestrator SimRun.fresh
    ∧ clients (wsManager h') = clients (wsManager SimRun.fresh)
    ∧ broadcast (wsManager h') = broadcast (wsManager SimRun.fresh)
    ∧ WebSocketMessage.Type_ <$> written
      = (if activeScans (orchestrator SimRun.fresh) !! Sim.scan_id is Some _
         then ["status_update"] else [])
        ++ replicate
             (length (filter (λ msg, WebSocketMessage.Type_ msg = "ping") incoming))
             "pong"%string.
Proof.
  apply (HandleWebSocket_session SimRun.fresh Sim.scan_id 8%nat).
  - apply sample_wsm_reachable.
  - apply (bool_decide_unpack _). vm_compute. exact I.
Defined.

Lemma BroadcastToScan_race_witness :
  let wsm0 := wsManager Sim.handler in
  let wsm := SimRun.left_alone in
  let message := SimRun.message "tick" in
  let channel := BroadcastToScan_read wsm0 Sim.scan_id in
  (BroadcastToScan_select wsm channel message = None
   ↔ ∃ a, channel = Some a ∧ broadcast wsm !! Sim.scan_id ≠ Some a)
  ∧ is_Some (BroadcastToScan_select wsm0 channel message)
  ∧ (broadcast wsm !! Sim.scan_id = channel →
     BroadcastToScan_select wsm channel message
     = BroadcastToScan wsm Sim.scan_id message)
  ∧ ∀ id conn, is_Some (UnregisterClient wsm id conn).
Proof.
  apply (BroadcastToScan_race (wsManager Sim.handler) SimRun.left_alone Sim.scan_id
           (SimRun.message "tick")).
  - apply sample_wsm_reachable.
  - apply rtc_once, (wsm_step_UnregisterClient _ Sim.scan_id 7%nat).
    vm_compute. reflexivity.
Defined.

(** The send of a [BroadcastToScan] that read the channel of the scan
    before its only client left panics. *)
Example sample_race :
  BroadcastToScan_select SimRun.left_alone
    (BroadcastToScan_read (wsManager Sim.handler) Sim.scan_id) (SimRun.message "tick")
  = None.
Proof. vm_compute. reflexivity. Qed.

Lemma wsm_reachable_bounded_witness : wsm_bounded (wsManager Sim.handler).
Proof. apply (wsm_reachable_bounded (wsManager Sim.handler)), sample_wsm_reachable. Defined.

Lemma BroadcastAll_lossy_fifo_witness :
  let wsm := SimRun.published 98 in
  let messages := [SimRun.message "a"; SimRun.message "b"; SimRun.message "c"] in
  ∃ wsm',
    BroadcastAll wsm Sim.scan_id messages = Some wsm'
    ∧ scan_chan wsm' Sim.scan_id
      = Some {| chan_buf :=
                  take 100 (replicate 98 (SimRun.message "tick") ++ messages);
                chan_closed := false |}
    ∧ clients wsm' = clients wsm
    ∧ broadcast wsm' = broadcast wsm
    ∧ ∀ b, broadcast wsm !! Sim.scan_id ≠ Some b → chans wsm' !! b = chans wsm !! b.
Proof.
  apply (BroadcastAll_lossy_fifo (SimRun.published 98) Sim.scan_id
           [SimRun.message "a"; SimRun.message "b"; SimRun.message "c"]
           {| chan_buf := replicate 98 (SimRun.message "tick"); chan_closed := false |}).
  - vm_compute. reflexivity.
  - reflexivity.
  - vm_compute. discriminate.
Defined.

Lemma publish_then_receive_witness :
  ∃ wsm',
    BroadcastAll (wsManager Sim.handler) Sim.scan_id
      [SimRun.message "a"; SimRun.message "b"; SimRun.message "c"] = Some wsm'
    ∧ (receive_all wsm' 0 2).1
      = take 2 (take 100 ([] ++ [SimRun.message "a"; SimRun.message "b";
                                 SimRun.message "c"])).
Proof.
  apply (publish_then_receive (wsManager Sim.handler) Sim.scan_id
           [SimRun.message "a"; SimRun.message "b"; SimRun.message "c"] 0%nat
           {| chan_buf := []; chan_closed := false |} 2).
  - vm_compute. reflexivity.
  - vm_compute. reflexivity.
  - reflexivity.
  - vm_compute. discriminate.
Defined.

Lemma handleBroadcast_step_delivers_witness :
  ∃ sent,
    handleBroadcast_step (λ _, true) (SimRun.published 2) Sim.scan_id 0
    = Some ({| clients := clients (SimRun.published 2);
               broadcast := broadcast (SimRun.published 2);
               chans := <[0%nat := {| chan_buf := [SimRun.message "tick"];
                                     chan_closed := false |}]>
                          (chans (SimRun.published 2));
               next_chan := next_chan (SimRun.published 2) |}, sent)
    ∧ sent.*2 = replicate (length sent) (SimRun.message "tick")
    ∧ NoDup sent.*1
    ∧ ∀ conn, conn ∈ sent.*1
              ↔ conn ∈ default ∅ (clients (SimRun.published 2) !! Sim.scan_id).
Proof.
  apply (handleBroadcast_step_delivers (λ _, true) (SimRun.published 2) Sim.scan_id
           0%nat
           {| chan_buf := [SimRun.message "tick"; SimRun.message "tick"];
              chan_closed := false |}
           (SimRun.message "tick") [SimRun.message "tick"]).
  - vm_compute. reflexivity.
  - reflexivity.
  - reflexivity.
Defined.

Lemma sample_published_reachable : wsm_reachable (SimRun.published 1).
Proof.
  apply (wsm_reachable_BroadcastToScan (wsManager Sim.handler) Sim.scan_id
           (SimRun.message "tick")).
  - apply sample_wsm_reachable.
  - vm_compute. reflexivity.
Qed.

Lemma handleBroadcast_step_heals_witness :
  ∃ wsm' sent,
    handleBroadcast_step (λ _, false) (SimRun.published 1) Sim.scan_id 0
    = Some (wsm', sent)
    ∧ sent.*2 = replicate (length sent) (SimRun.message "tick")
    ∧ NoDup sent.*1
    ∧ (∀ conn, conn ∈ sent.*1 ↔ conn ∈ ({[7%nat]} : gset Conn) ∧ false = true)
    ∧ match clients wsm' !! Sim.scan_id with
      | Some alive => ∀ conn, conn ∈ alive ↔ conn ∈ ({[7%nat]} : gset Conn) ∧ false = true
      | None =>
          (∀ conn, conn ∈ ({[7%nat]} : gset Conn) → false = false)
          ∧ broadcast wsm' !! Sim.scan_id = None
      end
    ∧ ∀ id, id ≠ Sim.scan_id → clients wsm' !! id = clients (SimRun.published 1) !! id.
Proof.
  apply (handleBroadcast_step_heals (λ _, false) (SimRun.published 1) Sim.scan_id 0%nat
           {| chan_buf := [SimRun.message "tick"]; chan_closed := false |}
           (SimRun.message "tick") [] {[7%nat]}).
  - apply sample_published_reachable.
  - vm_compute. reflexivity.
  - reflexivity.
  - vm_compute. reflexivity.
Defined.
